(** * Verification model of [met_professional.py]

    The harvesting script of the Iranian-pottery dataset: text
    normalisation, the historical-period classifier, the image fetcher with
    its retry loop, the per-object processor, the even sampler and the
    three-phase pipeline.

    Conventions of the embedding.
    - A Python [str] is a list of characters ([str]); a character is a code
      point below 256 (Latin-1), which is where the keyword tables live.
    - A value decoded from JSON is a [json]; [None] is [JNull].
    - An exception is a constructor of [exn]; a function that can raise
      returns a [result].
    - Code that talks to the network, the clock, the random source or the
      disk runs in the monad [M], which threads a [world].
    - The world has the two failures the script meets outside its own
      logic: the HTTP library refusing a string as a URL before anything
      is sent, and [open] not finding the folder of a file.
    - Left out of the world: text beyond Latin-1, and with it the encoding
      errors of the two dumps; object IDs that are not integers; faults of
      the disk other than a missing folder; what [print] and [tqdm] do. *)

From Stdlib Require Import List String Ascii ZArith Lia Bool Arith PeanoNat.
From Stdlib Require Import Strings.Byte.
From Stdlib Require Import Permutation DecimalString.
From Stdlib Require DecimalZ.
Import ListNotations.

Set Warnings "-register-all".
Local Open Scope list_scope.

(** Python's [len] on a list. *)
Abbreviation len := (@List.length _).

(* ================================================================= *)
(** * Text *)

Module Text.

(** A Python [str]. *)
Definition str := list ascii.

Definition py (s : string) : str := list_ascii_of_string s.

Definition space : ascii := " "%char.

(** [str.isspace] and the regular-expression class [\s] agree on one
    character; below 256 they hold of TAB..CR, FS..US, SPACE, NEL and
    NBSP. *)
Definition is_space (c : ascii) : bool :=
  let n := N_of_ascii c in
  (((9 <=? n) && (n <=? 13)) || ((28 <=? n) && (n <=? 32))
   || (n =? 133) || (n =? 160))%N.

(** [str.lower] on one character: A..Z, and the Latin-1 capitals
    U+00C0..U+00DE without the multiplication sign U+00D7. *)
Definition lower_char (c : ascii) : ascii :=
  let n := N_of_ascii c in
  if (((65 <=? n) && (n <=? 90))
      || ((192 <=? n) && (n <=? 222) && negb (n =? 215)))%N
  then ascii_of_N (n + 32) else c.

Definition lower (s : str) : str := map lower_char s.

Fixpoint str_eqb (a b : str) : bool :=
  match a, b with
  | [], [] => true
  | x :: a', y :: b' => Ascii.eqb x y && str_eqb a' b'
  | _, _ => false
  end.

(** [s.startswith(p)]. *)
Fixpoint prefix_of (p s : str) : bool :=
  match p, s with
  | [], _ => true
  | x :: p', y :: s' => Ascii.eqb x y && prefix_of p' s'
  | _ :: _, [] => false
  end.

(** [needle in hay] on two strings. *)
Fixpoint str_in (needle hay : str) : bool :=
  prefix_of needle hay
  || match hay with
     | [] => false
     | _ :: rest => str_in needle rest
     end.

(** [s.replace(a, b)] for single characters. *)
Definition replace_char (a b : ascii) (s : str) : str :=
  map (fun c => if Ascii.eqb c a then b else c) s.

(** [re.sub(r'\s+', ' ', text)]: the scan copies every other character and
    writes one space for each maximal run of whitespace; [in_run] says that
    the previous character was whitespace. *)
Fixpoint sub_ws (in_run : bool) (s : str) : str :=
  match s with
  | [] => []
  | c :: rest =>
      if is_space c
      then if in_run then sub_ws true rest else space :: sub_ws true rest
      else c :: sub_ws false rest
  end.

Definition collapse_ws (s : str) : str := sub_ws false s.

Fixpoint lstrip (s : str) : str :=
  match s with
  | [] => []
  | c :: rest => if is_space c then lstrip rest else s
  end.

Fixpoint rstrip (s : str) : str :=
  match s with
  | [] => []
  | c :: rest =>
      match rstrip rest with
      | [] => if is_space c then [] else [c]
      | r => c :: r
      end
  end.

(** [s.strip()]. *)
Definition strip (s : str) : str := rstrip (lstrip s).

(** [normalize_text] on a string argument.
<<
    if not text: return ""
    text = re.sub(r'\s+', ' ', text).strip()
    return text[:500]
>> *)
Definition normalize_text (text : str) : str :=
  match text with
  | [] => []
  | _ => firstn 500 (strip (collapse_ws text))
  end.

(** ** Shape predicates on a normalised string *)

(** Every whitespace character is a space and is not followed by another
    whitespace character. *)
Fixpoint single_spaced (s : str) : bool :=
  match s with
  | [] => true
  | c :: rest =>
      (if is_space c
       then Ascii.eqb c space
            && match rest with
               | [] => true
               | d :: _ => negb (is_space d)
               end
       else true)
      && single_spaced rest
  end.

Definition starts_with_space (s : str) : bool :=
  match s with
  | [] => false
  | c :: _ => is_space c
  end.

Definition ends_with_space (s : str) : bool := starts_with_space (rev s).

End Text.

Export Text.
Coercion py : string >-> str.

(* ================================================================= *)
(** * Values, exceptions and results *)

(** A value decoded from JSON; [JNull] is Python's [None].  An object keeps
    its members in an association list, read by first match. *)
Inductive json : Type :=
| JNull
| JBool (b : bool)
| JNum (n : Z)
| JStr (s : str)
| JArr (items : list json)
| JObj (members : list (string * json)).

(** The exceptions the script meets. *)
Inductive exn : Type :=
| AttributeError
| TypeError
| IndexError
| ZeroDivisionError
| ValueError (msg : string)
| ConnectionError (msg : string)
| RequestException
| JSONDecodeError
| OSError.

Inductive result (A : Type) : Type :=
| Ok (a : A)
| Raise (e : exn).

Arguments Ok {A} a.
Arguments Raise {A} e.

Definition rbind {A B} (r : result A) (k : A -> result B) : result B :=
  match r with
  | Ok a => k a
  | Raise e => Raise e
  end.

Declare Scope res_scope.
Delimit Scope res_scope with res.
Notation "x <- r ;; k" := (rbind r (fun x => k))
  (at level 61, r at next level, right associativity) : res_scope.

(** Truth value of a decoded value ([if not v]). *)
Definition truthy (v : json) : bool :=
  match v with
  | JNull => false
  | JBool b => b
  | JNum n => negb (n =? 0)%Z
  | JStr s => match s with [] => false | _ => true end
  | JArr l => match l with [] => false | _ => true end
  | JObj m => match m with [] => false | _ => true end
  end.

Fixpoint lookup (key : string) (members : list (string * json)) : option json :=
  match members with
  | [] => None
  | (k, v) :: rest => if String.eqb k key then Some v else lookup key rest
  end.

(** [data.get(key, default)]: only a dict has [get]. *)
Definition py_get (data : json) (key : string) (default : json) : result json :=
  match data with
  | JObj members =>
      Ok (match lookup key members with
          | Some v => v
          | None => default
          end)
  | _ => Raise AttributeError
  end.

(** [v.lower()]: only a string has [lower]. *)
Definition py_lower (v : json) : result str :=
  match v with
  | JStr s => Ok (lower s)
  | _ => Raise AttributeError
  end.

(* ================================================================= *)
(** * Configuration *)

(** The entries of the [CONFIG] table that the modelled code reads. *)
Record config : Type := {
  dataset_path : str;
  timeout : Z;
  retries : Z;
  max_images : Z;
  pre_islamic_keywords : list string;
  islamic_keywords : list string;
  metadata_fields : list string;
  user_agents : list string
}.

Definition CONFIG : config := {|
  dataset_path := "./iran_pottery_dataset"%string;
  timeout := 25;
  retries := 4;
  max_images := 200;
  pre_islamic_keywords :=
    [ "Silk"; "Elam"; "Achaemenid"; "Parthian"; "Sassanian";
      "Chogha Zanbil"; "Tappeh Sialk"; "Haft Tepe";
      "Kuh-e Khwaja"; "Arg-e Bam"; "Persepolis"; "Ancient Iran";
      "Zagros"; "Luristan" ]%string;
  islamic_keywords :=
    [ "Islamic"; "Ilkhanid"; "Timurid"; "Safavid"; "Qajar";
      "Ottoman"; "Seljuk"; "Mongol"; "Abbasid"; "Umayyad" ]%string;
  metadata_fields :=
    [ "objectID"; "title"; "culture"; "period"; "objectDate";
      "objectName"; "classification"; "medium"; "dimensions";
      "creditLine"; "country"; "region"; "tags"; "isPublicDomain";
      "primaryImage"; "era_classification"; "historical_period";
      "local_path"; "source" ]%string;
  user_agents :=
    [ "Mozilla/5.0 (Windows NT 10.0; Win64; x64) AppleWebKit/537.36 (KHTML, like Gecko) Chrome/91.0.4472.124 Safari/537.36";
      "Mozilla/5.0 (Macintosh; Intel Mac OS X 10_15_7) AppleWebKit/605.1.15 (KHTML, like Gecko) Version/14.1.1 Safari/605.1.15";
      "Mozilla/5.0 (X11; Linux x86_64) AppleWebKit/537.36 (KHTML, like Gecko) Chrome/92.0.4515.107 Safari/537.36" ]%string
|}.

(* ================================================================= *)
(** * Period classifier *)

Module Classifier.

Inductive era : Type := pre_islamic | islamic | unknown.

(** The string the script uses for an era (a path component and a field of
    the metadata record). *)
Definition era_name (e : era) : string :=
  match e with
  | pre_islamic => "pre_islamic"
  | islamic => "islamic"
  | unknown => "unknown"
  end.

(** The four lower-cased text fields the classifier looks at. *)
Record fields : Type := {
  f_title : str;
  f_culture : str;
  f_period : str;
  f_object_date : str
}.

(** The test of one loop iteration:
    [k.lower() in title or ... in culture or ... in period or ... in object_date]. *)
Definition keyword_hit (f : fields) (period_name : string) : bool :=
  str_in (lower period_name) (f_title f)
  || str_in (lower period_name) (f_culture f)
  || str_in (lower period_name) (f_period f)
  || str_in (lower period_name) (f_object_date f).

(** A [for] loop over a keyword list that returns at the first hit. *)
Fixpoint scan (f : fields) (keywords : list string) : option string :=
  match keywords with
  | [] => None
  | period_name :: rest =>
      if keyword_hit f period_name then Some period_name else scan f rest
  end.

Definition bc_markers : list string := [ "bc"; "b.c."; "before christ" ]%string.
Definition ad_markers : list string :=
  [ "islamic"; "ad"; "a.d."; "hijri"; "ah" ]%string.

(** [any(x in object_date for x in markers)]. *)
Definition any_in (markers : list string) (object_date : str) : bool :=
  existsb (fun x : string => str_in x object_date) markers.

(** The body of [detect_historical_period] once the four fields are read. *)
Definition classify (cfg : config) (f : fields) : era * string :=
  match scan f (pre_islamic_keywords cfg) with
  | Some period_name => (pre_islamic, period_name)
  | None =>
      match scan f (islamic_keywords cfg) with
      | Some period_name => (islamic, period_name)
      | None =>
          if any_in bc_markers (f_object_date f)
          then (pre_islamic, "Ancient Iran"%string)
          else if any_in ad_markers (f_object_date f)
          then (islamic, "Islamic Period"%string)
          else (unknown, "Unknown"%string)
      end
  end.

(** [obj_data.get(key, '').lower()]. *)
Definition lowered_field (obj_data : json) (key : string) : result str :=
  (v <- py_get obj_data key (JStr []) ;; py_lower v)%res.

Definition read_fields (obj_data : json) : result fields :=
  (title <- lowered_field obj_data "title" ;;
   culture <- lowered_field obj_data "culture" ;;
   period <- lowered_field obj_data "period" ;;
   object_date <- lowered_field obj_data "objectDate" ;;
   Ok {| f_title := title; f_culture := culture;
         f_period := period; f_object_date := object_date |})%res.

Definition detect_historical_period (cfg : config) (obj_data : json)
  : result (era * string) :=
  (f <- read_fields obj_data ;; Ok (classify cfg f))%res.

End Classifier.

Export Classifier.

(* ================================================================= *)
(** * The world: random source, network, clock and disk *)

(** The record [process_pottery_object] returns, field by field. *)
Record metadata_record : Type := {
  objectID : Z;
  title : str;
  culture : str;
  period : str;
  objectDate : str;
  objectName : str;
  classification : str;
  medium : str;
  dimensions : str;
  creditLine : str;
  country : str;
  region : str;
  tags : str;
  isPublicDomain : json;
  primaryImage : json;
  era_classification : string;
  historical_period : string;
  local_path : str;
  source : string
}.

(** What one request gets back: an exception of the transport (refused,
    timed out, broken while the body is read), or a reply with its status,
    its body and what [.json()] makes of the body ([None]: it does not
    parse). *)
Inductive http_reply : Type :=
| TransportError
| Reply (status : Z) (content : list byte) (decoded : option json).

Record request : Type := {
  rq_url : str;
  rq_params : list (string * string);
  rq_agent : str;
  rq_timeout : Z
}.

(** What a file holds: the bytes of an image, or one of the two metadata
    dumps (their serialisation is not modelled). *)
Inductive file_content : Type :=
| Bytes (content : list byte)
| JsonDump (records : list metadata_record)
| CsvDump (header : list string) (rows : list metadata_record).

Record world : Type := {
  rng : list nat;                       (* what the random source yields next *)
  sched : list nat;                     (* which pending task completes next *)
  net : list http_reply;                (* replies, in the order of the requests *)
  files : list (str * file_content);    (* the files on disk *)
  dirs : list str;                      (* the directories on disk *)
  sent : list request;                  (* requests sent so far *)
  slept : Z;                            (* seconds spent in time.sleep *)
  refuses : str -> bool                 (* the strings the HTTP library does
                                           not take for a URL it can send *)
}.

Module IO.

Definition M (A : Type) : Type := world -> result A * world.

Definition ret {A} (a : A) : M A := fun w => (Ok a, w).

Definition raise {A} (e : exn) : M A := fun w => (Raise e, w).

Definition bind {A B} (m : M A) (k : A -> M B) : M B :=
  fun w =>
    match m w with
    | (Ok a, w') => k a w'
    | (Raise e, w') => (Raise e, w')
    end.

(** [try: body except Exception: handler]. *)
Definition try_except {A} (body : M A) (handler : M A) : M A :=
  fun w =>
    match body w with
    | (Ok a, w') => (Ok a, w')
    | (Raise _, w') => handler w'
    end.

Definition lift {A} (r : result A) : M A := fun w => (r, w).

End IO.

Export IO.

Declare Scope io_scope.
Delimit Scope io_scope with io.
Notation "x <- m ;; k" := (bind m (fun x => k))
  (at level 61, m at next level, right associativity) : io_scope.
Notation "m ;;; k" := (bind m (fun _ => k))
  (at level 61, right associativity) : io_scope.

Module Env.

Local Open Scope io_scope.

Definition with_rng (r : list nat) (w : world) : world :=
  {| rng := r; sched := sched w; net := net w; files := files w;
     dirs := dirs w; sent := sent w; slept := slept w;
     refuses := refuses w |}.

Definition with_sched (s : list nat) (w : world) : world :=
  {| rng := rng w; sched := s; net := net w; files := files w;
     dirs := dirs w; sent := sent w; slept := slept w;
     refuses := refuses w |}.

Definition with_files (f : list (str * file_content)) (w : world) : world :=
  {| rng := rng w; sched := sched w; net := net w; files := f;
     dirs := dirs w; sent := sent w; slept := slept w;
     refuses := refuses w |}.

Definition with_dirs (d : list str) (w : world) : world :=
  {| rng := rng w; sched := sched w; net := net w; files := files w;
     dirs := d; sent := sent w; slept := slept w;
     refuses := refuses w |}.

(** One number of the random source (0 once the supply is used up). *)
Definition draw : M nat :=
  fun w =>
    match rng w with
    | [] => (Ok 0%nat, w)
    | d :: rest => (Ok d, with_rng rest w)
    end.

(** [random.choice(seq)]. *)
Definition random_choice {A} (seq : list A) : M A :=
  match seq with
  | [] => raise IndexError
  | a :: _ => d <- draw ;; ret (nth (d mod len seq) seq a)
  end.

(** [time.sleep(seconds)]. *)
Definition sleep (seconds : Z) : M unit :=
  fun w =>
    (Ok tt,
     {| rng := rng w; sched := sched w; net := net w; files := files w;
        dirs := dirs w; sent := sent w; slept := slept w + seconds;
        refuses := refuses w |}).

(** ** URLs

    The HTTP library prepares a URL before it sends anything, and raises
    ([MissingSchema], [InvalidSchema], [InvalidURL]) for a string it cannot
    send.  Which strings those are is the library's business: the world
    says it ([refuses]).  A plain URL is always sent: [http://] or
    [https://], a host of lower-case letters and digits with single dots
    between them, and then nothing or a slash and letters, digits and
    [/ - _ .]. *)

Definition host_char (c : ascii) : bool :=
  let n := N_of_ascii c in
  (((48 <=? n) && (n <=? 57)) || ((97 <=? n) && (n <=? 122)))%N.

Definition path_char (c : ascii) : bool :=
  let n := N_of_ascii c in
  (((48 <=? n) && (n <=? 57)) || ((65 <=? n) && (n <=? 90))
   || ((97 <=? n) && (n <=? 122))
   || (n =? 45) || (n =? 46) || (n =? 47) || (n =? 95))%N.

(** The host and what follows it; [after_dot] says that a label has to
    start here. *)
Fixpoint plain_host (after_dot : bool) (s : str) : bool :=
  match s with
  | [] => negb after_dot
  | c :: rest =>
      if Ascii.eqb c "/" then negb after_dot && forallb path_char rest
      else if Ascii.eqb c "." then negb after_dot && plain_host true rest
      else host_char c && plain_host false rest
  end.

Definition plain_url (u : str) : bool :=
  (prefix_of (py "https://") u && plain_host true (skipn 8 u))
  || (prefix_of (py "http://") u && plain_host true (skipn 7 u)).

(** The library sends [u]. *)
Definition sendable (w : world) (u : str) : bool :=
  plain_url u || negb (refuses w u).

(** A library that refuses what does not start with a scheme it knows. *)
Definition no_scheme (u : str) : bool :=
  negb (prefix_of (py "https://") u || prefix_of (py "http://") u).

(** [requests.get(url, params=, headers={'User-Agent': agent}, timeout=)].
    A URL that is not a string, or a string the library does not take for
    a URL, is refused before anything is sent; otherwise the request goes
    out and the next reply of the network comes back (none left: the
    network is down). *)
Definition requests_get (url : json) (params : list (string * string))
    (agent : str) (tmo : Z) : M (Z * list byte * option json) :=
  match url with
  | JStr u =>
      fun w =>
        if sendable w u
        then
          let rq := {| rq_url := u; rq_params := params;
                       rq_agent := agent; rq_timeout := tmo |} in
          let reply := match net w with [] => TransportError | r :: _ => r end in
          let w' := {| rng := rng w; sched := sched w; net := tl (net w);
                       files := files w; dirs := dirs w;
                       sent := sent w ++ [rq]; slept := slept w;
                       refuses := refuses w |} in
          match reply with
          | TransportError => (Raise RequestException, w')
          | Reply status content decoded => (Ok (status, content, decoded), w')
          end
        else (Raise RequestException, w)
  | _ => raise RequestException
  end.

(** [resp.raise_for_status()]: a 4xx or 5xx status raises. *)
Definition status_ok (status : Z) : bool :=
  negb ((400 <=? status) && (status <? 600))%Z.

Definition raise_for_status (status : Z) : M unit :=
  if status_ok status then ret tt else raise RequestException.

(** [resp.json()]. *)
Definition json_of (decoded : option json) : M json :=
  match decoded with
  | Some v => ret v
  | None => raise JSONDecodeError
  end.

Fixpoint put_file (path : str) (c : file_content)
    (fs : list (str * file_content)) : list (str * file_content) :=
  match fs with
  | [] => [(path, c)]
  | (p, old) :: rest =>
      if str_eqb p path then (p, c) :: rest else (p, old) :: put_file path c rest
  end.

(** ** Paths

    [path.split('/')]: [cur] is the component being read. *)
Fixpoint parts (cur : str) (s : str) : list str :=
  match s with
  | [] => [cur]
  | c :: rest =>
      if Ascii.eqb c "/" then cur :: parts [] rest
      else parts (cur ++ [c]) rest
  end.

(** A component that names something: not empty (a doubled or a final
    slash) and not [.]. *)
Definition real_part (p : str) : bool :=
  negb (str_eqb p [] || str_eqb p (py ".")).

(** The names a path goes through. *)
Definition folders (p : str) : list str := filter real_part (parts [] p).

Definition absolute (p : str) : bool :=
  match p with
  | [] => false
  | c :: _ => Ascii.eqb c "/"
  end.

Fixpoint starts_with (a b : list str) : bool :=
  match a, b with
  | [], _ => true
  | x :: a', y :: b' => str_eqb x y && starts_with a' b'
  | _ :: _, [] => false
  end.

(** [open(path, 'w')] finds the folder of [path]: the file has a name, and
    the names before it are none (the current directory, the root) or lead
    to a directory of the world or to one above it.  Names are compared as
    they are spelled: [..] and symbolic links are not resolved. *)
Definition can_write (w : world) (path : str) : bool :=
  let ps := parts [] path in
  let name := last ps [] in
  real_part name && negb (str_eqb name (py ".."))
  && match filter real_part (removelast ps) with
     | [] => true
     | fs =>
         existsb (fun e => Bool.eqb (absolute e) (absolute path)
                           && starts_with fs (folders e)) (dirs w)
     end.

(** [with open(path, 'wb') as f: f.write(content)] and the text-mode
    dumps: the file at [path] is created or replaced; [open] raises
    [FileNotFoundError], an [OSError], when the folder is not there.  Other
    faults of the disk (permissions, a directory in the way, no space) are
    outside the world. *)
Definition write_file (path : str) (c : file_content) : M unit :=
  fun w =>
    if can_write w path
    then (Ok tt, with_files (put_file path c (files w)) w)
    else (Raise OSError, w).

(** [os.makedirs(path, exist_ok=True)]: the directory is recorded as it
    is spelled.  The call makes the directories above it too; they are
    found through it when a file is opened ([can_write]). *)
Definition makedirs (path : str) : M unit :=
  fun w =>
    (Ok tt,
     if existsb (str_eqb path) (dirs w) then w
     else with_dirs (dirs w ++ [path]) w).

(** [os.path.join(a, b)] on POSIX. *)
Definition path_join (a b : str) : str :=
  match b with
  | "/"%char :: _ => b
  | _ =>
      match a with
      | [] => b
      | _ => if Ascii.eqb (last a space) "/"%char then a ++ b
             else a ++ "/"%char :: b
      end
  end.

(** [str(n)] for an integer. *)
Definition str_of_Z (n : Z) : str := py (NilEmpty.string_of_int (Z.to_int n)).

End Env.

Export Env.

(* ================================================================= *)
(** * HTTP fetcher *)

Module Fetcher.

Local Open Scope io_scope.

(** [get_random_user_agent]. *)
Definition get_random_user_agent (cfg : config) : M str :=
  a <- random_choice (user_agents cfg) ;; ret (py a).

(** One turn of the [for] loop of [download_image]; [true] is the
    [return True], [false] goes on to the next turn.
<<
    try:
        resp = requests.get(url, headers=headers, timeout=CONFIG['timeout'], stream=True)
        resp.raise_for_status()
        if len(resp.content) < 10 * 1024:
            continue
        with open(filepath, 'wb') as f:
            f.write(resp.content)
        return True
    except Exception:
        time.sleep(2)
>> *)
Definition attempt (cfg : config) (url : json) (filepath : str) (agent : str)
  : M bool :=
  try_except
    (resp <- requests_get url [] agent (timeout cfg) ;;
     let '(status, content, _) := resp in
     raise_for_status status ;;;
     if (Z.of_nat (len content) <? 10 * 1024)%Z
     then ret false
     else write_file filepath (Bytes content) ;;; ret true)
    (sleep 2 ;;; ret false).

(** [for _ in range(n)] around [attempt], then [return False]. *)
Fixpoint attempts (n : nat) (cfg : config) (url : json) (filepath : str)
    (agent : str) : M bool :=
  match n with
  | O => ret false
  | S k =>
      done <- attempt cfg url filepath agent ;;
      if done then ret true else attempts k cfg url filepath agent
  end.

(** [download_image(url, filepath)]: the header is built before the loop. *)
Definition download_image (cfg : config) (url : json) (filepath : str) : M bool :=
  agent <- get_random_user_agent cfg ;;
  attempts (Z.to_nat (retries cfg)) cfg url filepath agent.

(** A reply that does not end the loop: the transport raised, the status
    is an error, or the body is shorter than 10 KiB. *)
Definition reply_fails (r : http_reply) : bool :=
  match r with
  | TransportError => true
  | Reply status content _ =>
      negb (status_ok status) || (Z.of_nat (len content) <? 10240)%Z
  end.

(** The reply the [i]-th next request will get. *)
Definition reply_at (w : world) (i : nat) : http_reply :=
  nth i (net w) TransportError.

End Fetcher.

Export Fetcher.

(* ================================================================= *)
(** * Object processor *)

Module Processor.

Local Open Scope io_scope.

(** [normalize_text] on whatever [data.get(key)] gave: a falsy value
    gives the empty string, a string is normalised, and [re.sub] refuses
    anything else. *)
Definition normalize_text_value (v : json) : result str :=
  if truthy v
  then match v with
       | JStr s => Ok (normalize_text s)
       | _ => Raise TypeError
       end
  else Ok [].

Fixpoint join_strs (sep : str) (parts : list str) : str :=
  match parts with
  | [] => []
  | [p] => p
  | p :: rest => p ++ sep ++ join_strs sep rest
  end.

Fixpoint strings_of (items : list json) : result (list str) :=
  match items with
  | [] => Ok []
  | JStr s :: rest => (l <- strings_of rest ;; Ok (s :: l))%res
  | _ :: _ => Raise TypeError
  end.

(** [', '.join(v or [])]: a list of strings is joined; a string is
    iterated by character and a dict by key; a number or [True] cannot be
    iterated. *)
Definition join_tags (v : json) : result str :=
  if truthy v
  then match v with
       | JArr items =>
           (l <- strings_of items ;; Ok (join_strs ", "%string l))%res
       | JStr s => Ok (join_strs ", "%string (map (fun c => [c]) s))
       | JObj members =>
           Ok (join_strs ", "%string (map (fun kv => py (fst kv)) members))
       | _ => Raise TypeError
       end
  else Ok (join_strs ", "%string []).

Definition object_url (obj_id : Z) : str :=
  py "https://collectionapi.metmuseum.org/public/collection/v1/objects/"
  ++ str_of_Z obj_id.

(** [normalize_text(data.get(key))]. *)
Definition text_field (data : json) (key : string) : result str :=
  (v <- py_get data key JNull ;; normalize_text_value v)%res.

(** The dict of the [return] statement, its values computed in order. *)
Definition metadata_of (data : json) (obj_id : Z) (era_text pname : string)
    (img_path : str) : result metadata_record :=
  (r_title <- text_field data "title" ;;
   r_culture <- text_field data "culture" ;;
   r_period <- text_field data "period" ;;
   r_objectDate <- text_field data "objectDate" ;;
   r_objectName <- text_field data "objectName" ;;
   r_classification <- text_field data "classification" ;;
   r_medium <- text_field data "medium" ;;
   r_dimensions <- text_field data "dimensions" ;;
   r_creditLine <- text_field data "creditLine" ;;
   r_country <- text_field data "country" ;;
   r_region <- text_field data "region" ;;
   r_tags <- (v <- py_get data "tags" JNull ;; join_tags v) ;;
   r_public <- py_get data "isPublicDomain" (JBool false) ;;
   r_image <- py_get data "primaryImage" JNull ;;
   Ok {| objectID := obj_id;
         title := r_title;
         culture := r_culture;
         period := r_period;
         objectDate := r_objectDate;
         objectName := r_objectName;
         classification := r_classification;
         medium := r_medium;
         dimensions := r_dimensions;
         creditLine := r_creditLine;
         country := r_country;
         region := r_region;
         tags := r_tags;
         isPublicDomain := r_public;
         primaryImage := r_image;
         era_classification := era_text;
         historical_period := pname;
         local_path := img_path;
         source := "MET" |})%res.

(** Where the image of an object goes:
    [image_dir/era/pname_with_underscores/obj_id.jpg]. *)
Definition image_folder (image_dir : str) (e : era) (pname : string) : str :=
  path_join (path_join image_dir (era_name e)) (replace_char " " "_" pname).

Definition image_file (image_dir : str) (e : era) (pname : string) (obj_id : Z)
  : str :=
  path_join (image_folder image_dir e pname) (str_of_Z obj_id ++ py ".jpg").

(** [process_pottery_object(obj_id, image_dir)]. *)
Definition process_pottery_object (cfg : config) (obj_id : Z) (image_dir : str)
  : M metadata_record :=
  agent <- get_random_user_agent cfg ;;
  resp <- requests_get (JStr (object_url obj_id)) [] agent 25 ;;
  let '(_, _, decoded) := resp in
  data <- json_of decoded ;;
  image <- lift (py_get data "primaryImage" JNull) ;;
  if negb (truthy image)
  then raise (ValueError "No primary image available")
  else
    cls <- lift (detect_historical_period cfg data) ;;
    let '(era, pname) := cls in
    makedirs (image_folder image_dir era pname) ;;;
    let img_path := image_file image_dir era pname obj_id in
    ok <- download_image cfg image img_path ;;
    if negb ok
    then raise (ConnectionError "Image download failed")
    else lift (metadata_of data obj_id (era_name era) pname img_path).

End Processor.

Export Processor.

(* ================================================================= *)
(** * Sampler and grouper *)

Module Sampler.

Local Open Scope io_scope.

(** The [groups] dict: sub-period name to the IDs classified under it, in
    insertion order of the names. *)
Definition groups : Type := list (string * list Z).

(** [groups.setdefault(pname, []).append(obj_id)]. *)
Fixpoint setdefault_append (g : groups) (pname : string) (obj_id : Z) : groups :=
  match g with
  | [] => [(pname, [obj_id])]
  | (k, ids) :: rest =>
      if String.eqb k pname then (k, ids ++ [obj_id]) :: rest
      else (k, ids) :: setdefault_append rest pname obj_id
  end.

Fixpoint remove_nth {A} (i : nat) (l : list A) : list A :=
  match l with
  | [] => []
  | a :: rest =>
      match i with
      | O => rest
      | S j => a :: remove_nth j rest
      end
  end.

(** [k] members of [pool], each drawn among those not drawn yet. *)
Fixpoint pick (k : nat) (pool : list Z) : M (list Z) :=
  match k with
  | O => ret []
  | S k' =>
      match pool with
      | [] => ret []
      | a :: _ =>
          d <- draw ;;
          let j := (d mod len pool)%nat in
          rest <- pick k' (remove_nth j pool) ;;
          ret (nth j pool a :: rest)
      end
  end.

(** [random.sample(population, k)]: selection without replacement, driven
    by the random source. *)
Definition random_sample (population : list Z) (k : Z) : M (list Z) :=
  if ((k <? 0) || (Z.of_nat (len population) <? k))%Z
  then raise (ValueError "Sample larger than population or is negative")
  else pick (Z.to_nat k) population.

(** [min(iterable)]. *)
Definition py_min (l : list Z) : result Z :=
  match l with
  | [] => Raise (ValueError "min() arg is an empty sequence")
  | x :: rest => Ok (fold_left Z.min rest x)
  end.

Definition nonempty (ids : list Z) : bool :=
  match ids with [] => false | _ => true end.

(** [(len(ids) for ids in groups.values() if ids)]. *)
Definition nonempty_sizes (g : groups) : list Z :=
  map (fun ids => Z.of_nat (len ids)) (filter nonempty (map snd g)).

(** [a // b]. *)
Definition floordiv (a b : Z) : result Z :=
  if (b =? 0)%Z then Raise ZeroDivisionError else Ok (a / b)%Z.

(** The two lines that compute the quota:
<<
    min_count = min(len(ids) for ids in groups.values() if ids)
    target_per_group = max(1, min(min_count, CONFIG['max_images'] // len(groups)))
>> *)
Definition target_per_group (cfg : config) (g : groups) : result Z :=
  (min_count <- py_min (nonempty_sizes g) ;;
   share <- floordiv (max_images cfg) (Z.of_nat (len g)) ;;
   Ok (Z.max 1 (Z.min min_count share)))%res.

(** What one group adds to [sampled]. *)
Definition select_one (target : Z) (ids : list Z) : M (list Z) :=
  if negb (nonempty ids) then ret []
  else if (Z.of_nat (len ids) <=? target)%Z then ret ids
  else random_sample ids target.

(** The loop [for pname, ids in groups.items()], returning what it
    appended to [sampled]. *)
Fixpoint select (target : Z) (g : groups) : M (list Z) :=
  match g with
  | [] => ret []
  | (_, ids) :: rest =>
      chosen <- select_one target ids ;;
      more <- select target rest ;;
      ret (chosen ++ more)
  end.

(** [l[:n]]. *)
Definition slice_to {A} (l : list A) (n : Z) : list A :=
  if (n <? 0)%Z then firstn (Z.to_nat (Z.of_nat (len l) + n)) l
  else firstn (Z.to_nat n) l.

(** Lines 166 to 178: the quota, the per-group selection and the cut. *)
Definition sample (cfg : config) (g : groups) : M (list Z) :=
  target <- lift (target_per_group cfg g) ;;
  sampled <- select target g ;;
  ret (slice_to sampled (max_images cfg)).

End Sampler.

Export Sampler.

(* ================================================================= *)
(** * Orchestrator and metadata writer *)

Module Pipeline.

Local Open Scope io_scope.

Definition search_queries : list string :=
  [ "Persian pottery"; "Iranian ceramics"; "Ancient Iranian pottery";
    "Islamic pottery Iran"; "Pre-Islamic ceramics Iran";
    "Sialk pottery"; "Elam pottery"; "Achaemenid ceramics";
    "Parthian pottery"; "Sasanian ceramics"; "Chogha Zanbil pottery";
    "Haft Tepe ceramics"; "Kuh-e Khwaja pottery"; "Arg-e Bam ceramics";
    "Safavid pottery"; "Qajar ceramics" ]%string.

Definition search_url : str :=
  py "https://collectionapi.metmuseum.org/public/collection/v1/search".

Definition metadata_json : string := "iran_pottery_metadata.json".
Definition metadata_csv : string := "iran_pottery_metadata.csv".

(** The keys of the dict [process_pottery_object] returns. *)
Definition record_keys : list string :=
  [ "objectID"; "title"; "culture"; "period"; "objectDate";
    "objectName"; "classification"; "medium"; "dimensions";
    "creditLine"; "country"; "region"; "tags"; "isPublicDomain";
    "primaryImage"; "era_classification"; "historical_period";
    "local_path"; "source" ]%string.

(** [fieldnames] names every key of a record.  [csv.DictWriter] is made
    with the default [extrasaction='raise']: a row with a key that is not
    a field name makes [writerows] raise [ValueError]. *)
Definition known_keys (fieldnames : list string) : bool :=
  forallb (fun k => existsb (String.eqb k) fieldnames) record_keys.

(** [save_metadata(metadata)].  The header goes out before the rows: when
    the rows are refused the CSV file holds the header alone (the message
    of the [ValueError] goes on with the keys at fault, in no fixed
    order, which is left out). *)
Definition save_metadata (cfg : config) (metadata : list metadata_record) : M unit :=
  makedirs (dataset_path cfg) ;;;
  write_file (path_join (dataset_path cfg) metadata_json) (JsonDump metadata) ;;;
  match metadata with
  | [] => ret tt
  | _ =>
      if known_keys (metadata_fields cfg)
      then write_file (path_join (dataset_path cfg) metadata_csv)
                      (CsvDump (metadata_fields cfg) metadata)
      else write_file (path_join (dataset_path cfg) metadata_csv)
                      (CsvDump (metadata_fields cfg) []) ;;;
           raise (ValueError "dict contains fields not in fieldnames")
  end.

(** [all_ids.update(ids)] on a set kept in insertion order. *)
Fixpoint set_update (all_ids : list Z) (ids : list Z) : list Z :=
  match ids with
  | [] => all_ids
  | i :: rest =>
      set_update (if existsb (Z.eqb i) all_ids then all_ids else all_ids ++ [i])
                 rest
  end.

(** What [update] adds of a decoded list, and whether it runs to the
    end.  [update] adds the elements one by one and stops with
    [TypeError] at one that cannot be hashed, a list or a dict.  Object
    IDs are kept as integers, as the search endpoint documents them: a
    string, a boolean or [None] in the list, which Python adds to the set
    too, is passed over (IDs that are not integers are outside the
    model). *)
Fixpoint added_ints (items : list json) : list Z * bool :=
  match items with
  | [] => ([], true)
  | JNum n :: rest => let '(l, all) := added_ints rest in (n :: l, all)
  | JArr _ :: _ => ([], false)
  | JObj _ :: _ => ([], false)
  | _ :: rest => added_ints rest
  end.

(** [data.get('objectIDs') or []] as what [update] adds and whether it
    runs to the end: nothing for a falsy value; the elements of a list;
    for a string its characters and for a dict its keys, none of them an
    integer; and [TypeError] for a number or [True], which cannot be
    iterated. *)
Definition ids_to_add (v : json) : list Z * bool :=
  if truthy v
  then match v with
       | JArr items => added_ints items
       | JStr _ => ([], true)
       | JObj _ => ([], true)
       | _ => ([], false)
       end
  else ([], true).

(** One turn of the discovery loop: the new [all_ids]. *)
Definition search_one (cfg : config) (all_ids : list Z) (q : string) : M (list Z) :=
  try_except
    (agent <- get_random_user_agent cfg ;;
     resp <- requests_get (JStr search_url)
               [("q", q); ("hasImages", "true")]%string agent 20 ;;
     let '(status, _, decoded) := resp in
     raise_for_status status ;;;
     data <- json_of decoded ;;
     v <- lift (py_get data "objectIDs" JNull) ;;
     let '(ids, complete) := ids_to_add v in
     if complete
     then sleep 1 ;;; ret (set_update all_ids ids)
     else ret (set_update all_ids ids))
    (ret all_ids).

Fixpoint discover (cfg : config) (all_ids : list Z) (queries : list string)
  : M (list Z) :=
  match queries with
  | [] => ret all_ids
  | q :: rest =>
      all_ids' <- search_one cfg all_ids q ;;
      discover cfg all_ids' rest
  end.

(** [fetch_and_group(obj_id)]. *)
Definition fetch_and_group (cfg : config) (obj_id : Z) : M (option (string * Z)) :=
  try_except
    (agent <- get_random_user_agent cfg ;;
     resp <- requests_get (JStr (object_url obj_id)) [] agent 10 ;;
     let '(_, _, decoded) := resp in
     obj_data <- json_of decoded ;;
     cls <- lift (detect_historical_period cfg obj_data) ;;
     ret (Some (snd cls, obj_id)))
    (ret None).

(** The order in which the tasks of a worker pool complete: the scheduler
    picks, again and again, one of the tasks still pending. *)
Fixpoint complete (n : nat) (pending : list Z) : M (list Z) :=
  match n with
  | O => ret []
  | S k =>
      match pending with
      | [] => ret []
      | a :: _ =>
          fun w =>
            let c := match sched w with [] => O | d :: _ => d end in
            let j := (c mod len pending)%nat in
            bind (complete k (remove_nth j pending))
                 (fun rest => ret (nth j pending a :: rest))
                 (with_sched (tl (sched w)) w)
      end
  end.

Definition completion_order (tasks : list Z) : M (list Z) :=
  complete (len tasks) tasks.

(** The draining loop of phase 2, one completed task after the other. *)
Fixpoint group_all (cfg : config) (g : groups) (order : list Z) : M groups :=
  match order with
  | [] => ret g
  | obj_id :: rest =>
      result <- fetch_and_group cfg obj_id ;;
      match result with
      | Some (pname, i) => group_all cfg (setdefault_append g pname i) rest
      | None => group_all cfg g rest
      end
  end.

(** [process_and_download(obj_id)]. *)
Definition process_and_download (cfg : config) (image_dir : str) (obj_id : Z)
  : M (option metadata_record) :=
  try_except
    (r <- process_pottery_object cfg obj_id image_dir ;; ret (Some r))
    (ret None).

(** The draining loop of phase 4. *)
Fixpoint download_all (cfg : config) (image_dir : str)
    (metadata : list metadata_record) (order : list Z)
  : M (list metadata_record) :=
  match order with
  | [] => ret metadata
  | obj_id :: rest =>
      result <- process_and_download cfg image_dir obj_id ;;
      match result with
      | Some r => download_all cfg image_dir (metadata ++ [r]) rest
      | None => download_all cfg image_dir metadata rest
      end
  end.

(** Lines 109 to 164 of [download_iran_pottery()]: the directories, the
    discovery and the grouping.  A pool of workers is run one task at a
    time in completion order: a worker shares nothing with the others but
    the world, and every reply and every draw it gets is arbitrary here. *)
Definition group_phase (cfg : config) : M groups :=
  makedirs (dataset_path cfg) ;;;
  makedirs (path_join (dataset_path cfg) (py "images")) ;;;
  all_ids <- discover cfg [] search_queries ;;
  order <- completion_order all_ids ;;
  group_all cfg [] order.

(** [download_iran_pottery()]. *)
Definition download_iran_pottery (cfg : config) : M unit :=
  g <- group_phase cfg ;;
  sampled <- sample cfg g ;;
  order <- completion_order sampled ;;
  metadata <- download_all cfg (path_join (dataset_path cfg) (py "images"))
                [] order ;;
  save_metadata cfg metadata.

End Pipeline.

Export Pipeline.

(* ================================================================= *)
(** * Properties of the text functions *)

Module TextFacts.

Lemma is_space_space : is_space space = true.
Proof. reflexivity. Qed.

Lemma str_eqb_eq (a b : str) : str_eqb a b = true <-> a = b.
Proof.
  revert b; induction a as [|x a IH]; intros [|y b]; simpl;
    try (split; [discriminate | discriminate]); [tauto|].
  rewrite andb_true_iff, Ascii.eqb_eq, IH.
  split; [intros [-> ->]; reflexivity | intros E; inversion E; auto].
Qed.

Lemma prefix_of_spec (p s : str) :
  prefix_of p s = true <-> exists post, s = p ++ post.
Proof.
  revert s; induction p as [|x p IH]; intros s; simpl.
  - split; [intros _; exists s; reflexivity | reflexivity].
  - destruct s as [|y s].
    + split; [discriminate | intros [post E]; discriminate].
    + rewrite andb_true_iff, Ascii.eqb_eq, IH. split.
      * intros [-> [post ->]]. exists post; reflexivity.
      * intros [post E]. inversion E; subst. split; [reflexivity|].
        exists post; reflexivity.
Qed.

(** [needle in hay] holds exactly when [hay] is some text, then [needle],
    then some text. *)
Lemma str_in_spec (needle hay : str) :
  str_in needle hay = true <-> exists pre post, hay = pre ++ needle ++ post.
Proof.
  induction hay as [|c hay IH].
  - simpl. rewrite orb_false_r, prefix_of_spec. split.
    + intros [post E]. exists [], post. exact E.
    + intros [pre [post E]]. destruct pre; [|discriminate].
      exists post. exact E.
  - cbn [str_in]. rewrite orb_true_iff, prefix_of_spec, IH. split.
    + intros [[post E] | [pre [post E]]].
      * exists [], post. exact E.
      * exists (c :: pre), post. simpl. now rewrite E.
    + intros [pre [post E]]. destruct pre as [|x pre].
      * left. exists post. exact E.
      * right. simpl in E. inversion E; subst. now exists pre, post.
Qed.

(** ** Whitespace runs *)

Lemma sub_ws_true_head (s : str) : starts_with_space (sub_ws true s) = false.
Proof.
  induction s as [|c s IH]; simpl; [reflexivity|].
  destruct (is_space c) eqn:Hc; [exact IH | simpl; exact Hc].
Qed.

Lemma single_spaced_sub_ws (b : bool) (s : str) :
  single_spaced (sub_ws b s) = true.
Proof.
  revert b; induction s as [|c s IH]; intros b; simpl; [reflexivity|].
  destruct (is_space c) eqn:Hc.
  - destruct b; [apply IH|].
    cbn [single_spaced]. rewrite is_space_space, IH, andb_true_r.
    pose proof (sub_ws_true_head s) as H.
    destruct (sub_ws true s); simpl in *; [reflexivity | now rewrite H].
  - cbn [single_spaced]. now rewrite Hc, IH.
Qed.

Lemma single_spaced_tail (c : ascii) (s : str) :
  single_spaced (c :: s) = true -> single_spaced s = true.
Proof. cbn [single_spaced]. now rewrite andb_true_iff. Qed.

Lemma single_spaced_prefix (a b : str) :
  single_spaced (a ++ b) = true -> single_spaced a = true.
Proof.
  induction a as [|c a IH]; [reflexivity|].
  cbn [app single_spaced]. rewrite !andb_true_iff. intros [H1 H2].
  split; [|now apply IH].
  destruct (is_space c); [|reflexivity].
  destruct a as [|d a]; simpl in *.
  - apply andb_true_iff in H1. destruct H1 as [-> _]. reflexivity.
  - exact H1.
Qed.

Lemma single_spaced_lstrip (s : str) :
  single_spaced s = true -> single_spaced (lstrip s) = true.
Proof.
  induction s as [|c s IH]; [reflexivity|]. intros H. cbn [lstrip].
  destruct (is_space c); [|exact H].
  apply IH. exact (single_spaced_tail _ _ H).
Qed.

Lemma rstrip_prefix (s : str) : exists t, s = rstrip s ++ t.
Proof.
  induction s as [|c s [t IH]]; [exists []; reflexivity|].
  cbn [rstrip]. destruct (rstrip s) as [|d r] eqn:E.
  - destruct (is_space c).
    + exists (c :: s). reflexivity.
    + exists s. reflexivity.
  - exists t. simpl. now rewrite IH at 1.
Qed.

Lemma single_spaced_rstrip (s : str) :
  single_spaced s = true -> single_spaced (rstrip s) = true.
Proof.
  intros H. destruct (rstrip_prefix s) as [t E].
  rewrite E in H. exact (single_spaced_prefix _ _ H).
Qed.

Lemma single_spaced_firstn (n : nat) (s : str) :
  single_spaced s = true -> single_spaced (firstn n s) = true.
Proof.
  intros H. rewrite <- (firstn_skipn n s) in H.
  exact (single_spaced_prefix _ _ H).
Qed.

Lemma lstrip_head (s : str) : starts_with_space (lstrip s) = false.
Proof.
  induction s as [|c s IH]; [reflexivity|]. cbn [lstrip].
  destruct (is_space c) eqn:Hc; [exact IH | exact Hc].
Qed.

Lemma rstrip_head (s : str) :
  starts_with_space s = false -> starts_with_space (rstrip s) = false.
Proof.
  destruct s as [|c s]; [reflexivity|]. simpl. intros Hc.
  destruct (rstrip s); [rewrite Hc|]; simpl; exact Hc.
Qed.

Lemma firstn_head (n : nat) (s : str) :
  starts_with_space s = false -> starts_with_space (firstn n s) = false.
Proof. destruct n, s; simpl; auto. Qed.

Lemma lstrip_id (s : str) : starts_with_space s = false -> lstrip s = s.
Proof. destruct s as [|c s]; simpl; [reflexivity | now intros ->]. Qed.

(** ** The last character *)

Lemma ends_with_space_last (s : str) :
  ends_with_space s = match s with [] => false | _ => is_space (last s space) end.
Proof.
  unfold ends_with_space.
  destruct s as [|c s] using rev_ind; [reflexivity|].
  rewrite rev_app_distr, last_last. simpl.
  destruct (s ++ [c]) eqn:E; [destruct s; discriminate | reflexivity].
Qed.

Lemma ends_with_space_cons (c : ascii) (s : str) :
  ends_with_space (c :: s) =
  match s with [] => is_space c | _ => ends_with_space s end.
Proof.
  rewrite !ends_with_space_last. destruct s; reflexivity.
Qed.

Lemma rstrip_end (s : str) : ends_with_space (rstrip s) = false.
Proof.
  induction s as [|c s IH]; [reflexivity|]. cbn [rstrip].
  destruct (rstrip s) as [|d r] eqn:E.
  - destruct (is_space c) eqn:Hc; [reflexivity|].
    rewrite ends_with_space_cons. exact Hc.
  - rewrite ends_with_space_cons. exact IH.
Qed.

Lemma last_firstn (n : nat) (s : str) (d : ascii) :
  (n < len s)%nat -> last (firstn (S n) s) d = nth n s d.
Proof.
  revert s; induction n as [|n IH]; intros [|c s] H; simpl in H; try lia.
  - reflexivity.
  - specialize (IH s ltac:(lia)).
    change (firstn (S (S n)) (c :: s)) with (c :: firstn (S n) s).
    destruct s as [|e s]; [simpl in H; lia|].
    change (firstn (S n) (e :: s)) with (e :: firstn n s) in *.
    cbn [last nth] in *. exact IH.
Qed.

(** Where the cut [text[:500]] leaves a space at the end. *)
Lemma firstn_end (n : nat) (t : str) :
  ends_with_space t = false ->
  ends_with_space (firstn (S n) t) = (S n <? len t)%nat && is_space (nth n t space).
Proof.
  intros Ht. destruct (Nat.ltb_spec (S n) (len t)) as [Hlt|Hge].
  - rewrite ends_with_space_last.
    destruct t as [|c t]; [simpl in Hlt; lia|].
    change (firstn (S n) (c :: t)) with (c :: firstn n t).
    change (c :: firstn n t) with (firstn (S n) (c :: t)).
    rewrite last_firstn by lia. reflexivity.
  - rewrite firstn_all2 by lia. exact Ht.
Qed.

(** ** A second pass over a normalised string *)

Lemma sub_ws_id (s : str) (b : bool) :
  single_spaced s = true ->
  (b = true -> starts_with_space s = false) ->
  sub_ws b s = s.
Proof.
  revert b; induction s as [|c s IH]; intros b Hs Hb; [reflexivity|].
  cbn [single_spaced] in Hs. apply andb_true_iff in Hs. destruct Hs as [H1 H2].
  cbn [sub_ws]. destruct (is_space c) eqn:Hc.
  - destruct b; [specialize (Hb eq_refl); simpl in Hb; congruence|].
    apply andb_true_iff in H1. destruct H1 as [Hsp Hnext].
    apply Ascii.eqb_eq in Hsp. subst c. f_equal.
    apply IH; [exact H2|]. intros _.
    destruct s; simpl in *; [reflexivity | now apply negb_true_iff].
  - f_equal. apply IH; [exact H2 | discriminate].
Qed.

Lemma rstrip_single_spaced (s : str) :
  single_spaced s = true ->
  rstrip s = if ends_with_space s then removelast s else s.
Proof.
  induction s as [|c s IH]; [reflexivity|]. intros Hs.
  specialize (IH (single_spaced_tail _ _ Hs)).
  rewrite ends_with_space_cons. cbn [rstrip].
  destruct s as [|d s].
  - simpl. destruct (is_space c); reflexivity.
  - rewrite IH. destruct (ends_with_space (d :: s)) eqn:He.
    + change (removelast (c :: d :: s)) with (c :: removelast (d :: s)).
      destruct (removelast (d :: s)) as [|x r] eqn:Er; [|reflexivity].
      assert (s = []) as ->.
      { destruct s as [|e s]; [reflexivity|].
        simpl in Er. destruct s; discriminate. }
      rewrite ends_with_space_cons in He.
      cbn [single_spaced] in Hs. rewrite He in Hs.
      destruct (is_space c); [|reflexivity].
      simpl in Hs. rewrite andb_false_r in Hs. discriminate.
    + reflexivity.
Qed.

Lemma removelast_len (s : str) : (len (removelast s) <= len s)%nat.
Proof.
  induction s as [|c s IH]; [simpl; lia|].
  destruct s; simpl in *; lia.
Qed.

(** The Prop reading of [single_spaced]. *)
Lemma single_spaced_spec (s : str) :
  single_spaced s = true <->
  forall pre c post, s = pre ++ c :: post -> is_space c = true ->
                     c = space /\ starts_with_space post = false.
Proof.
  induction s as [|x s IH].
  - split; [|reflexivity]. intros _ [|? ?] c post E; discriminate.
  - cbn [single_spaced]. rewrite andb_true_iff, IH. split.
    + intros [H1 H2] pre c post E Hc. destruct pre as [|y pre].
      * simpl in E. inversion E; subst. rewrite Hc in H1.
        apply andb_true_iff in H1. destruct H1 as [Hsp Hn].
        apply Ascii.eqb_eq in Hsp. split; [exact Hsp|].
        destruct post; simpl in *; [reflexivity | now apply negb_true_iff].
      * simpl in E. inversion E; subst. exact (H2 pre c post eq_refl Hc).
    + intros H. split.
      * destruct (is_space x) eqn:Hx; [|reflexivity].
        destruct (H [] x s eq_refl Hx) as [-> Hn].
        destruct s; simpl in *; [reflexivity | now rewrite Hn].
      * intros pre c post E Hc. apply (H (x :: pre) c post); [|exact Hc].
        simpl. now rewrite E.
Qed.

End TextFacts.

(* ================================================================= *)
(** * normalize_text *)

Module NormalizeText.

Import TextFacts.

(** 499 letters, a space and one more letter: the cut falls right after
    the space. *)
Definition cut_after_space : str := repeat "a"%char 499 ++ py " b".

Lemma stripped_shape (s : str) :
  single_spaced (strip (collapse_ws s)) = true
  /\ starts_with_space (strip (collapse_ws s)) = false
  /\ ends_with_space (strip (collapse_ws s)) = false.
Proof.
  unfold strip, collapse_ws. repeat split.
  - apply single_spaced_rstrip, single_spaced_lstrip, single_spaced_sub_ws.
  - apply rstrip_head, lstrip_head.
  - apply rstrip_end.
Qed.

Lemma normalize_text_unfold (s : str) :
  normalize_text s = firstn 500 (strip (collapse_ws s)).
Proof. destruct s; reflexivity. Qed.

(** C1, on the input [cut_after_space]: the output is the 499 letters and
    the space, so it ends in whitespace, and a second pass returns
    something else (the 499 letters). *)
Lemma normalize_text_cut_after_space :
  normalize_text cut_after_space = repeat "a"%char 499 ++ [space]
  /\ ends_with_space (normalize_text cut_after_space) = true
  /\ normalize_text (normalize_text cut_after_space) = repeat "a"%char 499
  /\ str_eqb (normalize_text (normalize_text cut_after_space))
             (normalize_text cut_after_space) = false.
Proof. vm_compute. repeat split; reflexivity. Qed.

(** A second pass over a string that is single-spaced, does not begin with
    whitespace and is short enough only drops a trailing space. *)
Lemma second_pass (u : str) :
  single_spaced u = true -> starts_with_space u = false ->
  (len u <= 500)%nat ->
  normalize_text u = if ends_with_space u then removelast u else u.
Proof.
  intros Hss Hhd Hlen.
  rewrite normalize_text_unfold. unfold strip, collapse_ws.
  rewrite (sub_ws_id _ false Hss) by discriminate.
  rewrite (lstrip_id _ Hhd), (rstrip_single_spaced _ Hss).
  apply firstn_all2.
  destruct (ends_with_space u); [|exact Hlen].
  pose proof (removelast_len u). lia.
Qed.

(** One pass and a second pass, for every input: where the output ends in
    a space, and what the second pass does to it. *)
Lemma normalize_text_passes (s : str) :
  ends_with_space (normalize_text s)
  = (500 <? len (strip (collapse_ws s)))%nat
    && is_space (nth 499 (strip (collapse_ws s)) space)
  /\ normalize_text (normalize_text s)
     = (if ends_with_space (normalize_text s)
        then removelast (normalize_text s)
        else normalize_text s).
Proof.
  destruct (stripped_shape s) as (Hss & Hhd & Hend).
  rewrite (normalize_text_unfold s).
  split.
  - now apply (firstn_end 499).
  - apply second_pass.
    + now apply single_spaced_firstn.
    + now apply firstn_head.
    + apply firstn_le_length.
Qed.

(** C1 (amended): for every string [s] the output of [normalize_text] has
    at most 500 characters, every whitespace character in it is a single
    space not followed by whitespace, and it does not begin with
    whitespace.  Unless the collapsed and stripped text is longer than 500
    characters with a space as its 500th character (the cut then falls
    right after a space), the output does not end with whitespace either
    and [normalize_text] is idempotent on [s]. *)
Theorem normalize_text_shape (s : str) :
  (len (normalize_text s) <= 500)%nat
  /\ single_spaced (normalize_text s) = true
  /\ starts_with_space (normalize_text s) = false
  /\ ((500 <? len (strip (collapse_ws s)))%nat
       && is_space (nth 499 (strip (collapse_ws s)) space) = false ->
      ends_with_space (normalize_text s) = false
      /\ normalize_text (normalize_text s) = normalize_text s).
Proof.
  destruct (stripped_shape s) as (Hss & Hhd & _).
  destruct (normalize_text_passes s) as (Hend & Hsecond).
  split; [rewrite normalize_text_unfold; apply firstn_le_length|].
  split; [rewrite normalize_text_unfold; now apply single_spaced_firstn|].
  split; [rewrite normalize_text_unfold; now apply firstn_head|].
  intros Hcut. rewrite Hcut in Hend. rewrite Hend in Hsecond.
  split; assumption.
Qed.

(** C1 (amended) at a title with stray whitespace: nothing is cut, and a
    second pass changes nothing. *)
Lemma normalize_text_shape_witness :
  ends_with_space (normalize_text (py "  Bowl   with  birds ")) = false
  /\ normalize_text (normalize_text (py "  Bowl   with  birds "))
     = normalize_text (py "  Bowl   with  birds ").
Proof.
  apply (normalize_text_shape (py "  Bowl   with  birds ")).
  reflexivity.
Defined.

End NormalizeText.

(* ================================================================= *)
(** * The period classifier *)

Module ClassifierFacts.

Import TextFacts.

(** The lower-cased keyword is a substring of one of the four fields. *)
Definition occurs (f : fields) (keyword : string) : Prop :=
  exists field,
    In field [f_title f; f_culture f; f_period f; f_object_date f]
    /\ exists pre post, field = pre ++ lower keyword ++ post.

(** [keyword] is the first entry of [keywords] that occurs. *)
Definition first_hit (f : fields) (keywords : list string) (keyword : string) : Prop :=
  exists before after,
    keywords = before ++ keyword :: after
    /\ occurs f keyword
    /\ forall k, In k before -> ~ occurs f k.

Definition no_hit (f : fields) (keywords : list string) : Prop :=
  forall k, In k keywords -> ~ occurs f k.

(** One of the markers is a substring of the date field. *)
Definition marked (markers : list string) (object_date : str) : Prop :=
  exists m, In m markers /\ exists pre post, object_date = pre ++ py m ++ post.

(** The text of a field of a record: the empty string when the record has
    no such member, nothing when the member is not a string. *)
Definition text_of (obj_data : json) (key : string) : option str :=
  match obj_data with
  | JObj members =>
      match lookup key members with
      | None => Some []
      | Some (JStr s) => Some s
      | Some _ => None
      end
  | _ => None
  end.

Definition record_of (t c p d : string) : json :=
  JObj [ ("title"%string, JStr t); ("culture"%string, JStr c);
         ("period"%string, JStr p); ("objectDate"%string, JStr d) ].

Lemma keyword_hit_spec (f : fields) (k : string) :
  keyword_hit f k = true <-> occurs f k.
Proof.
  unfold keyword_hit, occurs. rewrite !orb_true_iff, !str_in_spec. split.
  - intros [[[H|H]|H]|H]; eexists; (split; [|exact H]); simpl; auto.
  - intros [field [Hin H]]. simpl in Hin.
    destruct Hin as [<-|[<-|[<-|[<-|[]]]]]; auto.
Qed.

Lemma keyword_miss_spec (f : fields) (k : string) :
  keyword_hit f k = false <-> ~ occurs f k.
Proof.
  rewrite <- keyword_hit_spec. destruct (keyword_hit f k); split; congruence.
Qed.

Lemma scan_some (f : fields) (keywords : list string) (k : string) :
  scan f keywords = Some k <-> first_hit f keywords k.
Proof.
  induction keywords as [|x kws IH]; simpl.
  - split; [discriminate|]. intros (before & after & E & _).
    destruct before; discriminate.
  - destruct (keyword_hit f x) eqn:Hx.
    + split.
      * intros E. inversion E; subst. exists [], kws.
        repeat split; [now apply keyword_hit_spec | intros ? []].
      * intros (before & after & E & Hk & Hb).
        destruct before as [|y before].
        -- simpl in E. inversion E; subst. reflexivity.
        -- simpl in E. inversion E; subst. exfalso.
           apply (Hb y); [now left | now apply keyword_hit_spec].
    + rewrite IH. split.
      * intros (before & after & E & Hk & Hb).
        exists (x :: before), after. subst. repeat split; [exact Hk|].
        intros k' [<-|Hin]; [now apply keyword_miss_spec | now apply Hb].
      * intros (before & after & E & Hk & Hb).
        destruct before as [|y before].
        -- simpl in E. inversion E; subst.
           apply keyword_hit_spec in Hk. congruence.
        -- simpl in E. inversion E; subst. exists before, after.
           repeat split; [exact Hk|]. intros k' Hin. apply Hb. now right.
Qed.

Lemma scan_none (f : fields) (keywords : list string) :
  scan f keywords = None <-> no_hit f keywords.
Proof.
  unfold no_hit. induction keywords as [|x kws IH]; simpl.
  - split; [intros _ ? [] | reflexivity].
  - destruct (keyword_hit f x) eqn:Hx.
    + split; [discriminate|]. intros H. exfalso.
      apply (H x); [now left | now apply keyword_hit_spec].
    + rewrite IH. split.
      * intros H k [<-|Hin]; [now apply keyword_miss_spec | now apply H].
      * intros H k Hin. apply H. now right.
Qed.

Lemma first_hit_not_no_hit (f : fields) (keywords : list string) (k : string) :
  first_hit f keywords k -> no_hit f keywords -> False.
Proof.
  intros (before & after & -> & Hk & _) Hn.
  apply (Hn k); [apply in_or_app; right; now left | exact Hk].
Qed.

Lemma any_in_spec (markers : list string) (object_date : str) :
  any_in markers object_date = true <-> marked markers object_date.
Proof.
  unfold any_in, marked. rewrite existsb_exists.
  split; intros [m [Hin H]]; exists m; (split; [exact Hin|]);
    now apply str_in_spec.
Qed.

Lemma any_in_false (markers : list string) (object_date : str) :
  any_in markers object_date = false <-> ~ marked markers object_date.
Proof.
  rewrite <- any_in_spec. destruct (any_in markers object_date);
    split; congruence.
Qed.

Lemma lowered_field_text (obj_data : json) (key : string) (s : str) :
  text_of obj_data key = Some s -> lowered_field obj_data key = Ok (lower s).
Proof.
  unfold text_of, lowered_field, py_get.
  destruct obj_data; try discriminate.
  destruct (lookup key members) as [[]|]; try discriminate;
    intros E; inversion E; reflexivity.
Qed.

(** The classifier reads a record through the lower-cased text of its
    four fields. *)
Lemma read_fields_text (obj_data : json) (t c p d : str) :
  text_of obj_data "title" = Some t ->
  text_of obj_data "culture" = Some c ->
  text_of obj_data "period" = Some p ->
  text_of obj_data "objectDate" = Some d ->
  read_fields obj_data
  = Ok {| f_title := lower t; f_culture := lower c;
          f_period := lower p; f_object_date := lower d |}.
Proof.
  intros Ht Hc Hp Hd. unfold read_fields.
  rewrite (lowered_field_text _ _ _ Ht), (lowered_field_text _ _ _ Hc),
    (lowered_field_text _ _ _ Hp), (lowered_field_text _ _ _ Hd).
  reflexivity.
Qed.

End ClassifierFacts.

Module ClassifierSpec.

Import TextFacts ClassifierFacts.

Lemma detect_classify (cfg : config) (obj_data : json) (t c p d : str) :
  text_of obj_data "title" = Some t ->
  text_of obj_data "culture" = Some c ->
  text_of obj_data "period" = Some p ->
  text_of obj_data "objectDate" = Some d ->
  detect_historical_period cfg obj_data
  = Ok (classify cfg {| f_title := lower t; f_culture := lower c;
                        f_period := lower p; f_object_date := lower d |}).
Proof.
  intros Ht Hc Hp Hd. unfold detect_historical_period.
  rewrite (read_fields_text _ _ _ _ _ Ht Hc Hp Hd). reflexivity.
Qed.

(** C2: for every record whose four fields are text (or missing), the
    classifier works on their lower-cased text [f] and returns a pair [r]
    such that: the first pre-Islamic keyword, in list order, that is a
    substring of one of the four fields gives [(pre_islamic, keyword)];
    when no pre-Islamic keyword occurs, the first Islamic keyword that does
    gives [(islamic, keyword)]; when no keyword of either list occurs, a
    date containing "bc", "b.c." or "before christ" gives
    [(pre_islamic, "Ancient Iran")], otherwise a date containing "islamic",
    "ad", "a.d.", "hijri" or "ah" gives [(islamic, "Islamic Period")], and
    otherwise the result is [(unknown, "Unknown")].  With the configured
    tables, empty title, culture and period with the date "400 BC" give
    [(pre_islamic, "Ancient Iran")], and four empty fields give
    [(unknown, "Unknown")]. *)
Theorem detect_historical_period_spec :
  (forall (cfg : config) (obj_data : json) (t c p d : str),
      text_of obj_data "title" = Some t ->
      text_of obj_data "culture" = Some c ->
      text_of obj_data "period" = Some p ->
      text_of obj_data "objectDate" = Some d ->
      let f := {| f_title := lower t; f_culture := lower c;
                  f_period := lower p; f_object_date := lower d |} in
      let pre := pre_islamic_keywords cfg in
      let isl := islamic_keywords cfg in
      let bc := [ "bc"; "b.c."; "before christ" ]%string in
      let ad := [ "islamic"; "ad"; "a.d."; "hijri"; "ah" ]%string in
      exists r,
        detect_historical_period cfg obj_data = Ok r
        /\ (forall k, first_hit f pre k -> r = (pre_islamic, k))
        /\ (no_hit f pre -> forall k, first_hit f isl k -> r = (islamic, k))
        /\ (no_hit f pre -> no_hit f isl -> marked bc (lower d) ->
            r = (pre_islamic, "Ancient Iran"%string))
        /\ (no_hit f pre -> no_hit f isl -> ~ marked bc (lower d) ->
            marked ad (lower d) -> r = (islamic, "Islamic Period"%string))
        /\ (no_hit f pre -> no_hit f isl -> ~ marked bc (lower d) ->
            ~ marked ad (lower d) -> r = (unknown, "Unknown"%string)))
  /\ detect_historical_period CONFIG (record_of "" "" "" "400 BC")
     = Ok (pre_islamic, "Ancient Iran"%string)
  /\ detect_historical_period CONFIG (record_of "" "" "" "")
     = Ok (unknown, "Unknown"%string).
Proof.
  split; [|split; reflexivity].
  intros cfg obj_data t c p d Ht Hc Hp Hd f pre isl bc ad.
  exists (classify cfg f).
  split; [exact (detect_classify cfg obj_data t c p d Ht Hc Hp Hd)|].
  unfold classify. fold pre isl.
  change (f_object_date f) with (lower d).
  change bc_markers with bc. change ad_markers with ad.
  destruct (scan f pre) as [k0|] eqn:Epre.
  - apply scan_some in Epre.
    assert (Hno : no_hit f pre -> False)
      by (intros Hn; exact (first_hit_not_no_hit _ _ _ Epre Hn)).
    repeat split; try (intros Hn; destruct (Hno Hn)).
    intros k Hk. apply scan_some in Hk, Epre. congruence.
  - split.
    { intros k Hk. apply scan_some in Hk. congruence. }
    destruct (scan f isl) as [k1|] eqn:Eisl.
    + apply scan_some in Eisl.
      assert (Hno : no_hit f isl -> False)
        by (intros Hn; exact (first_hit_not_no_hit _ _ _ Eisl Hn)).
      repeat split; try (intros _ Hn; destruct (Hno Hn)).
      intros _ k Hk. apply scan_some in Hk, Eisl. congruence.
    + split.
      { intros _ k Hk. apply scan_some in Hk. congruence. }
      destruct (any_in bc (lower d)) eqn:Ebc.
      * apply any_in_spec in Ebc.
        repeat split; try reflexivity; intros _ _ Hn; destruct (Hn Ebc).
      * apply any_in_false in Ebc.
        destruct (any_in ad (lower d)) eqn:Ead.
        -- apply any_in_spec in Ead.
           repeat split; try reflexivity.
           ++ intros _ _ Hm. destruct (Ebc Hm).
           ++ intros _ _ _ Hn. destruct (Hn Ead).
        -- apply any_in_false in Ead.
           repeat split; try reflexivity.
           ++ intros _ _ Hm. destruct (Ebc Hm).
           ++ intros _ _ _ Hm. destruct (Ead Hm).
Qed.

(** The general part of C2 at a tile inscribed in the Safavid period: no
    pre-Islamic keyword occurs, and "Safavid" is the first Islamic keyword
    that does. *)
Lemma detect_historical_period_spec_witness :
  detect_historical_period CONFIG
    (record_of "Tile" "Iran" "Safavid period" "17th century")
  = Ok (islamic, "Safavid"%string).
Proof.
  destruct (proj1 detect_historical_period_spec CONFIG
              (record_of "Tile" "Iran" "Safavid period" "17th century")
              (py "Tile") (py "Iran") (py "Safavid period") (py "17th century")
              eq_refl eq_refl eq_refl eq_refl)
    as (r & Hr & _ & Hisl & _).
  rewrite Hr. f_equal. apply Hisl.
  - apply scan_none. vm_compute. reflexivity.
  - apply scan_some. vm_compute. reflexivity.
Defined.

End ClassifierSpec.

Module KeywordOrder.

Import TextFacts ClassifierFacts.

(** A keyword that occurs stops the scan at itself or before. *)
Lemma scan_stops (f : fields) (before : list string) (k1 : string)
    (rest : list string) :
  occurs f k1 ->
  exists k, scan f (before ++ k1 :: rest) = Some k /\ In k (before ++ [k1]).
Proof.
  intros H1. induction before as [|x before IH]; simpl.
  - apply keyword_hit_spec in H1. rewrite H1. exists k1. auto.
  - destruct (keyword_hit f x).
    + exists x. auto.
    + destruct IH as (k & Hk & Hin). exists k. auto.
Qed.

Lemma classify_pre (cfg : config) (f : fields) (k : string) :
  scan f (pre_islamic_keywords cfg) = Some k ->
  classify cfg f = (pre_islamic, k).
Proof. unfold classify. now intros ->. Qed.

Lemma classify_isl (cfg : config) (f : fields) (k : string) :
  scan f (pre_islamic_keywords cfg) = None ->
  scan f (islamic_keywords cfg) = Some k ->
  classify cfg f = (islamic, k).
Proof. unfold classify. now intros -> ->. Qed.

Lemma classify_islamic_inv (cfg : config) (f : fields) (k : string) :
  classify cfg f = (islamic, k) -> scan f (pre_islamic_keywords cfg) = None.
Proof.
  unfold classify. destruct (scan f (pre_islamic_keywords cfg)); [|reflexivity].
  discriminate.
Qed.

(** C7: take a record whose four fields are text, and two entries [k1],
    [k2] of one keyword list, [k1] listed before [k2], both occurring in
    the record.  For the pre-Islamic list the classifier returns
    [(pre_islamic, k)] where [k] is the first entry of the list that
    occurs, so [k] is [k1] or stands before it, never [k2]'s later place.
    For the Islamic list the same holds with [islamic], provided no
    pre-Islamic keyword occurs; and whenever the result is an Islamic one,
    no pre-Islamic keyword occurs in the record: the pre-Islamic list is
    gone through first.  With the configured tables a title with both
    "Safavid" and "Qajar" gives "Safavid", in whichever order the title
    has them. *)
Theorem keyword_precedence :
  (forall (cfg : config) (obj_data : json) (t c p d : str),
      text_of obj_data "title" = Some t ->
      text_of obj_data "culture" = Some c ->
      text_of obj_data "period" = Some p ->
      text_of obj_data "objectDate" = Some d ->
      let f := {| f_title := lower t; f_culture := lower c;
                  f_period := lower p; f_object_date := lower d |} in
      (forall before k1 between k2 after,
          pre_islamic_keywords cfg = before ++ k1 :: between ++ k2 :: after ->
          occurs f k1 -> occurs f k2 ->
          exists k,
            detect_historical_period cfg obj_data = Ok (pre_islamic, k)
            /\ In k (before ++ [k1])
            /\ first_hit f (pre_islamic_keywords cfg) k)
      /\ (forall before k1 between k2 after,
             islamic_keywords cfg = before ++ k1 :: between ++ k2 :: after ->
             occurs f k1 -> occurs f k2 ->
             no_hit f (pre_islamic_keywords cfg) ->
             exists k,
               detect_historical_period cfg obj_data = Ok (islamic, k)
               /\ In k (before ++ [k1])
               /\ first_hit f (islamic_keywords cfg) k)
      /\ (forall k,
             detect_historical_period cfg obj_data = Ok (islamic, k) ->
             no_hit f (pre_islamic_keywords cfg)))
  /\ detect_historical_period CONFIG
       (record_of "Safavid bowl with Qajar repairs" "" "" "")
     = Ok (islamic, "Safavid"%string)
  /\ detect_historical_period CONFIG
       (record_of "Qajar copy of a Safavid bowl" "" "" "")
     = Ok (islamic, "Safavid"%string).
Proof.
  split; [|split; reflexivity].
  intros cfg obj_data t c p d Ht Hc Hp Hd f.
  rewrite (ClassifierSpec.detect_classify cfg obj_data t c p d Ht Hc Hp Hd).
  fold f. split; [|split].
  - intros before k1 between k2 after E H1 _.
    destruct (scan_stops f before k1 (between ++ k2 :: after) H1)
      as (k & Hk & Hin).
    rewrite <- E in Hk. exists k.
    rewrite (classify_pre cfg f k Hk).
    repeat split; [exact Hin | now apply scan_some].
  - intros before k1 between k2 after E H1 _ Hno.
    destruct (scan_stops f before k1 (between ++ k2 :: after) H1)
      as (k & Hk & Hin).
    rewrite <- E in Hk. apply scan_none in Hno. exists k.
    rewrite (classify_isl cfg f k Hno Hk).
    repeat split; [exact Hin | now apply scan_some].
  - intros k Hk. inversion Hk as [Hc'].
    apply scan_none. exact (classify_islamic_inv cfg f k Hc').
Qed.

(** The Islamic part of C7 at a title that names "Qajar" before "Safavid":
    "Safavid" is listed first, and wins. *)
Lemma keyword_precedence_witness :
  exists k,
    detect_historical_period CONFIG
      (record_of "Qajar copy of a Safavid bowl" "" "" "")
    = Ok (islamic, k)
    /\ In k ([ "Islamic"; "Ilkhanid"; "Timurid" ]%string ++ [ "Safavid"%string ])
    /\ first_hit
         {| f_title := lower "Qajar copy of a Safavid bowl"%string;
            f_culture := lower ""%string; f_period := lower ""%string;
            f_object_date := lower ""%string |}
         (islamic_keywords CONFIG) k.
Proof.
  refine (proj1 (proj2 (proj1 keyword_precedence CONFIG
            (record_of "Qajar copy of a Safavid bowl" "" "" "")
            (py "Qajar copy of a Safavid bowl") (py "") (py "") (py "")
            eq_refl eq_refl eq_refl eq_refl))
          [ "Islamic"; "Ilkhanid"; "Timurid" ]%string "Safavid"%string
          [] "Qajar"%string
          [ "Ottoman"; "Seljuk"; "Mongol"; "Abbasid"; "Umayyad" ]%string
          eq_refl _ _ _).
  - apply keyword_hit_spec. vm_compute. reflexivity.
  - apply keyword_hit_spec. vm_compute. reflexivity.
  - apply scan_none. vm_compute. reflexivity.
Defined.

End KeywordOrder.

(* ================================================================= *)
(** * The retry loop of download_image *)

Module PathFacts.

Import TextFacts.

Definition no_slash (s : str) : Prop :=
  forallb (fun c => negb (Ascii.eqb c "/")) s = true.

Lemma no_slash_app (a b : str) : no_slash a -> no_slash b -> no_slash (a ++ b).
Proof. unfold no_slash. intros Ha Hb. now rewrite forallb_app, Ha, Hb. Qed.

Lemma no_slash_uint (d : Decimal.uint) : no_slash (py (NilEmpty.string_of_uint d)).
Proof. unfold no_slash. induction d; simpl; auto. Qed.

(** [str(n)] is an optional sign and digits. *)
Lemma no_slash_str_of_Z (n : Z) : no_slash (str_of_Z n).
Proof.
  unfold str_of_Z, NilEmpty.string_of_int.
  destruct (Z.to_int n) as [d|d].
  - apply no_slash_uint.
  - pose proof (no_slash_uint d) as H. unfold no_slash in *. simpl. exact H.
Qed.

Lemma str_of_Z_inj (a b : Z) : str_of_Z a = str_of_Z b -> a = b.
Proof.
  unfold str_of_Z, py. intros H.
  apply (f_equal string_of_list_ascii) in H.
  rewrite !string_of_list_ascii_of_string in H.
  apply (f_equal NilEmpty.int_of_string) in H.
  rewrite !NilEmpty.isi in H. inversion H as [H'].
  now apply DecimalZ.to_int_inj.
Qed.

Definition ends_with_slash (s : str) : Prop :=
  s = [] \/ exists s', s = s' ++ ["/"%char].

(** A name without a slash is joined after its folder. *)
Lemma path_join_split (a b : str) :
  no_slash b -> b <> [] ->
  exists pre, path_join a b = pre ++ b /\ ends_with_slash pre.
Proof.
  intros Hb Hne. destruct b as [|c b]; [contradiction|].
  assert (Hc : Ascii.eqb c "/" = false).
  { unfold no_slash in Hb. simpl in Hb. apply andb_prop in Hb.
    destruct Hb as [Hb _]. now destruct (Ascii.eqb c "/"). }
  assert (E : path_join a (c :: b)
              = match a with
                | [] => c :: b
                | _ => if Ascii.eqb (last a space) "/"%char then a ++ c :: b
                       else a ++ "/"%char :: c :: b
                end).
  { unfold path_join.
    destruct c as [[] [] [] [] [] [] [] []]; try reflexivity; discriminate Hc. }
  rewrite E. destruct a as [|x a].
  - exists []. split; [reflexivity | now left].
  - destruct (Ascii.eqb (last (x :: a) space) "/") eqn:El.
    + exists (x :: a). split; [reflexivity|]. right.
      exists (removelast (x :: a)). apply Ascii.eqb_eq in El. rewrite <- El.
      apply app_removelast_last. discriminate.
    + exists ((x :: a) ++ ["/"%char]). split.
      * now rewrite <- app_assoc.
      * right. now exists (x :: a).
Qed.

(** Two paths that end in slash-free names end in the same name. *)
Lemma same_name_rev (x1 x2 y1 y2 : str) :
  no_slash x1 -> no_slash x2 ->
  (y1 = [] \/ exists t, y1 = "/"%char :: t) ->
  (y2 = [] \/ exists t, y2 = "/"%char :: t) ->
  x1 ++ y1 = x2 ++ y2 -> x1 = x2.
Proof.
  unfold no_slash.
  revert x2; induction x1 as [|c x1 IH]; intros [|c2 x2] H1 H2 Hy1 Hy2 E.
  - reflexivity.
  - simpl in E. destruct Hy1 as [->|[t ->]]; [discriminate E|].
    inversion E; subst c2. simpl in H2. discriminate H2.
  - simpl in E. destruct Hy2 as [->|[t ->]]; [discriminate E|].
    inversion E; subst c. simpl in H1. discriminate H1.
  - simpl in *. inversion E; subst c2.
    apply andb_prop in H1, H2. destruct H1 as [_ H1], H2 as [_ H2].
    f_equal. now apply (IH x2).
Qed.

Lemma no_slash_rev (s : str) : no_slash s -> no_slash (rev s).
Proof.
  unfold no_slash. intros H. apply forallb_forall. intros c Hc.
  apply in_rev in Hc. exact (proj1 (forallb_forall _ _) H c Hc).
Qed.

Lemma ends_rev (s : str) :
  ends_with_slash s -> rev s = [] \/ exists t, rev s = "/"%char :: t.
Proof.
  intros [->|[s' ->]]; [now left|]. right. exists (rev s').
  now rewrite rev_app_distr.
Qed.

Lemma same_name (p1 p2 b1 b2 : str) :
  no_slash b1 -> no_slash b2 -> ends_with_slash p1 -> ends_with_slash p2 ->
  p1 ++ b1 = p2 ++ b2 -> b1 = b2.
Proof.
  intros H1 H2 E1 E2 E. apply (f_equal (@rev ascii)) in E.
  rewrite !rev_app_distr in E.
  apply same_name_rev in E;
    [| now apply no_slash_rev | now apply no_slash_rev
     | now apply ends_rev | now apply ends_rev].
  rewrite <- (rev_involutive b1), <- (rev_involutive b2). now f_equal.
Qed.

Lemma no_slash_name (obj_id : Z) : no_slash (str_of_Z obj_id ++ py ".jpg").
Proof. apply no_slash_app; [apply no_slash_str_of_Z | reflexivity]. Qed.

Lemma str_eqb_false (a b : str) : a <> b -> str_eqb a b = false.
Proof.
  intros H. destruct (str_eqb a b) eqn:E; [|reflexivity].
  apply str_eqb_eq in E. contradiction.
Qed.

Lemma str_eqb_refl' (s : str) : str_eqb s s = true.
Proof. now apply str_eqb_eq. Qed.

(** ** The folder of a joined path *)

Lemma parts_slash (cur a b : str) :
  parts cur (a ++ "/"%char :: b) = parts cur a ++ parts [] b.
Proof.
  revert cur; induction a as [|c a IH]; intros cur; simpl.
  - reflexivity.
  - destruct (Ascii.eqb c "/"); [now rewrite IH | apply IH].
Qed.

Lemma parts_no_slash (cur s : str) : no_slash s -> parts cur s = [cur ++ s].
Proof.
  unfold no_slash. revert cur; induction s as [|c s IH]; intros cur H; simpl in *.
  - now rewrite app_nil_r.
  - apply andb_prop in H. destruct H as [Hc Hs].
    apply negb_true_iff in Hc. rewrite Hc, (IH _ Hs), <- app_assoc. reflexivity.
Qed.

Lemma parts_joined (a name : str) :
  no_slash name -> parts [] (a ++ "/"%char :: name) = parts [] a ++ [name].
Proof. intros H. now rewrite parts_slash, (parts_no_slash [] name H). Qed.

Lemma starts_with_refl (l : list str) : starts_with l l = true.
Proof. induction l as [|x l IH]; simpl; [reflexivity|]. now rewrite str_eqb_refl'. Qed.

(** [os.path.join] on a name without a slash, by the folder. *)
Lemma path_join_cases (folder name : str) :
  no_slash name -> name <> [] ->
  (folder = [] /\ path_join folder name = name)
  \/ (exists f, folder = f ++ ["/"%char]
                /\ path_join folder name = f ++ "/"%char :: name)
  \/ (folder <> [] /\ path_join folder name = folder ++ "/"%char :: name).
Proof.
  intros Hb Hne. destruct name as [|c b]; [contradiction|].
  assert (Hc : Ascii.eqb c "/" = false).
  { unfold no_slash in Hb. simpl in Hb. apply andb_prop in Hb.
    destruct Hb as [Hb _]. now destruct (Ascii.eqb c "/"). }
  assert (E : path_join folder (c :: b)
              = match folder with
                | [] => c :: b
                | _ => if Ascii.eqb (last folder space) "/"%char
                       then folder ++ c :: b
                       else folder ++ "/"%char :: c :: b
                end).
  { unfold path_join.
    destruct c as [[] [] [] [] [] [] [] []]; try reflexivity; discriminate Hc. }
  rewrite E. destruct folder as [|x a].
  - left. split; reflexivity.
  - destruct (Ascii.eqb (last (x :: a) space) "/") eqn:El.
    + right. left. exists (removelast (x :: a)).
      apply Ascii.eqb_eq in El.
      assert (Hx : x :: a = removelast (x :: a) ++ ["/"%char]).
      { rewrite <- El. apply app_removelast_last. discriminate. }
      split; [exact Hx|]. rewrite Hx at 1. now rewrite <- app_assoc.
    + right. right. split; [discriminate | reflexivity].
Qed.

Lemma absolute_app (a b : str) : a <> [] -> absolute (a ++ b) = absolute a.
Proof. destruct a; [contradiction | reflexivity]. Qed.

(** A file with a plain name can be opened in a folder that is there. *)
Lemma can_write_joined (w : world) (folder name : str) :
  no_slash name -> real_part name = true -> str_eqb name (py "..") = false ->
  existsb (str_eqb folder) (dirs w) = true ->
  can_write w (path_join folder name) = true.
Proof.
  intros Hs Hreal Hdots Hin.
  assert (Hne : name <> []) by (intros ->; discriminate Hreal).
  apply existsb_exists in Hin. destruct Hin as (x & Hx & Ex).
  apply str_eqb_eq in Ex. subst x.
  assert (Hshape : forall a,
             (a = folder \/ folder = a ++ ["/"%char]) -> a ++ ["/"%char] <> [] ->
             absolute (a ++ "/"%char :: name) = absolute folder ->
             can_write w (a ++ "/"%char :: name) = true).
  { intros a Ha _ Habs. unfold can_write. cbv zeta.
    rewrite (parts_joined a name Hs), last_last, removelast_last.
    rewrite Hreal, Hdots. cbn [negb andb].
    destruct (filter real_part (parts [] a)) as [|f fs] eqn:Ef; [reflexivity|].
    apply existsb_exists. exists folder. split; [exact Hx|].
    rewrite Habs, eqb_reflx. cbn [andb]. rewrite <- Ef.
    assert (Hfold : folders folder = filter real_part (parts [] a)).
    { unfold folders. destruct Ha as [->| ->]; [reflexivity|].
      rewrite parts_slash, filter_app. simpl. now rewrite app_nil_r. }
    rewrite Hfold. apply starts_with_refl. }
  destruct (path_join_cases folder name Hs Hne)
    as [[-> E] | [(f & Hf & E) | [Hf E]]]; rewrite E.
  - unfold can_write. cbv zeta. rewrite (parts_no_slash [] name Hs).
    cbn [app last removelast filter]. now rewrite Hreal, Hdots.
  - apply Hshape; [now right | now destruct f|].
    rewrite Hf. destruct f; reflexivity.
  - apply Hshape; [now left | now destruct folder|].
    change (folder ++ "/"%char :: name) with (folder ++ ("/"%char :: name)).
    now apply absolute_app.
Qed.

(** The name of an image is a plain name. *)
Lemma image_name_real (obj_id : Z) :
  real_part (str_of_Z obj_id ++ py ".jpg") = true
  /\ str_eqb (str_of_Z obj_id ++ py ".jpg") (py "..") = false.
Proof.
  assert (H : forall t : str, (len t <= 2)%nat ->
                str_eqb (str_of_Z obj_id ++ py ".jpg") t = false).
  { intros t Ht. apply str_eqb_false. intros E.
    apply (f_equal (@List.length ascii)) in E. rewrite length_app in E.
    change (len (py ".jpg")) with 4%nat in E. unfold len in *. lia. }
  split.
  - unfold real_part. rewrite !H by (simpl; lia). reflexivity.
  - apply H. simpl. lia.
Qed.

(** ** URLs of the collection API *)

Lemma path_char_uint (d : Decimal.uint) :
  forallb path_char (py (NilEmpty.string_of_uint d)) = true.
Proof. induction d; simpl; auto. Qed.

Lemma path_char_str_of_Z (n : Z) : forallb path_char (str_of_Z n) = true.
Proof.
  unfold str_of_Z, NilEmpty.string_of_int.
  destruct (Z.to_int n) as [d|d]; [apply path_char_uint|].
  simpl. apply path_char_uint.
Qed.

(** The URL of an object is always sent. *)
Lemma object_url_sendable (w : world) (obj_id : Z) :
  sendable w (object_url obj_id) = true.
Proof.
  unfold sendable.
  assert (H : plain_url (object_url obj_id)
              = forallb path_char (str_of_Z obj_id) || false) by reflexivity.
  now rewrite H, path_char_str_of_Z.
Qed.

End PathFacts.

Module FetcherFacts.

Import TextFacts.

(** The request one turn of the loop sends for a string URL. *)
Definition image_request (cfg : config) (u : str) (agent : str) : request :=
  {| rq_url := u; rq_params := []; rq_agent := agent; rq_timeout := timeout cfg |}.

(** The world once a request is out and its reply is taken. *)
Definition after_request (rq : request) (w : world) : world :=
  {| rng := rng w; sched := sched w; net := tl (net w); files := files w;
     dirs := dirs w; sent := sent w ++ [rq]; slept := slept w;
     refuses := refuses w |}.

Definition after_sleep (seconds : Z) (w : world) : world :=
  {| rng := rng w; sched := sched w; net := net w; files := files w;
     dirs := dirs w; sent := sent w; slept := slept w + seconds;
     refuses := refuses w |}.

Fixpoint get_file (path : str) (fs : list (str * file_content)) : option file_content :=
  match fs with
  | [] => None
  | (p, c) :: rest => if str_eqb p path then Some c else get_file path rest
  end.

(** The library takes [url] for a URL it can send. *)
Definition goes_out (w : world) (url : json) : bool :=
  match url with
  | JStr u => sendable w u
  | _ => false
  end.

Lemma str_eqb_refl (s : str) : str_eqb s s = true.
Proof. now apply str_eqb_eq. Qed.

Lemma get_file_put (path : str) (c : file_content) (fs : list (str * file_content)) :
  get_file path (put_file path c fs) = Some c.
Proof.
  induction fs as [|[p old] fs IH]; simpl.
  - now rewrite str_eqb_refl.
  - destruct (str_eqb p path) eqn:E; simpl; rewrite E; [reflexivity | exact IH].
Qed.

Lemma reply_at_tail (w w' : world) (i : nat) :
  net w' = tl (net w) -> reply_at w' i = reply_at w (S i).
Proof.
  unfold reply_at. intros ->. destruct (net w); [destruct i|]; reflexivity.
Qed.

Lemma sendable_same (w w' : world) (u : str) :
  refuses w' = refuses w -> sendable w' u = sendable w u.
Proof. unfold sendable. now intros ->. Qed.

Lemma goes_out_same (w w' : world) (url : json) :
  refuses w' = refuses w -> goes_out w' url = goes_out w url.
Proof. intros H. destruct url; try reflexivity. now apply sendable_same. Qed.

Lemma can_write_same (w w' : world) (p : str) :
  dirs w' = dirs w -> can_write w' p = can_write w p.
Proof. unfold can_write. now intros ->. Qed.

(** One turn on a string URL, by what the library makes of the URL, the
    reply it gets and the folder of the destination. *)
Lemma attempt_string (cfg : config) (u filepath agent : str) (w : world) :
  attempt cfg (JStr u) filepath agent w =
  if sendable w u
  then
    let w1 := after_request (image_request cfg u agent) w in
    match reply_at w 0 with
    | TransportError => (Ok false, after_sleep 2 w1)
    | Reply status content _ =>
        if status_ok status
        then if (Z.of_nat (len content) <? 10 * 1024)%Z
             then (Ok false, w1)
             else if can_write w filepath
                  then (Ok true,
                        with_files (put_file filepath (Bytes content) (files w1)) w1)
                  else (Ok false, after_sleep 2 w1)
        else (Ok false, after_sleep 2 w1)
    end
  else (Ok false, after_sleep 2 w).
Proof.
  unfold attempt, try_except, bind, requests_get, reply_at, raise_for_status.
  destruct (sendable w u); [|reflexivity].
  fold (image_request cfg u agent).
  fold (after_request (image_request cfg u agent) w).
  destruct (net w) as [|[|status content decoded] rest]; simpl; try reflexivity.
  destruct (status_ok status); simpl; [|reflexivity].
  destruct (Z.of_nat (len content) <? 10240)%Z; [reflexivity|].
  unfold write_file.
  rewrite (can_write_same w (after_request (image_request cfg u agent) w))
    by reflexivity.
  destruct (can_write w filepath); reflexivity.
Qed.

(** One turn on a URL the library refuses: nothing is sent. *)
Lemma attempt_refused (cfg : config) (url : json) (filepath agent : str)
    (w : world) :
  goes_out w url = false ->
  attempt cfg url filepath agent w = (Ok false, after_sleep 2 w).
Proof.
  intros H. destruct url as [| | |u| |];
    try (unfold attempt, try_except, bind, requests_get; reflexivity).
  simpl in H. rewrite attempt_string, H. reflexivity.
Qed.

(** One turn on a URL that is not a string: nothing is sent. *)
Lemma attempt_not_string (cfg : config) (url : json) (filepath agent : str)
    (w : world) :
  (forall u, url <> JStr u) ->
  attempt cfg url filepath agent w = (Ok false, after_sleep 2 w).
Proof.
  intros H. apply attempt_refused.
  destruct url; try reflexivity. destruct (H s eq_refl).
Qed.

(** A failed turn: [false] comes back and no file is touched. *)
Lemma attempt_fails (cfg : config) (url : json) (filepath agent : str) (w : world) :
  reply_fails (reply_at w 0) = true ->
  exists w',
    attempt cfg url filepath agent w = (Ok false, w')
    /\ files w' = files w /\ dirs w' = dirs w /\ rng w' = rng w
    /\ refuses w' = refuses w
    /\ (net w' = tl (net w) \/ net w' = net w).
Proof.
  intros Hf. destruct (goes_out w url) eqn:Hg.
  2:{ rewrite (attempt_refused _ _ _ _ _ Hg). eexists.
      split; [reflexivity|]. simpl. auto 6. }
  destruct url as [| | |u| |]; try discriminate Hg. simpl in Hg.
  rewrite attempt_string, Hg. cbv zeta.
  destruct (reply_at w 0) as [|status content decoded]; simpl in Hf.
  - eexists. split; [reflexivity|]. simpl. auto 6.
  - destruct (status_ok status); simpl in Hf.
    + change (10 * 1024)%Z with 10240%Z. rewrite Hf.
      eexists. split; [reflexivity|]. simpl. auto 6.
    + eexists. split; [reflexivity|]. simpl. auto 6.
Qed.

(** What every turn keeps: it returns, it draws nothing, and what it sends
    carries the agent it was given. *)
Lemma attempt_sends (cfg : config) (url : json) (filepath agent : str) (w : world) :
  exists b w' new,
    attempt cfg url filepath agent w = (Ok b, w')
    /\ rng w' = rng w
    /\ sent w' = sent w ++ new
    /\ (len new <= 1)%nat
    /\ Forall (fun rq => rq_agent rq = agent) new.
Proof.
  destruct (goes_out w url) eqn:Hg.
  2:{ rewrite (attempt_refused _ _ _ _ _ Hg).
      exists false, (after_sleep 2 w), []; simpl;
        rewrite app_nil_r; repeat split; auto. }
  destruct url as [| | |u| |]; try discriminate Hg. simpl in Hg.
  rewrite attempt_string, Hg. cbv zeta.
  destruct (reply_at w 0) as [|status content decoded];
    [|destruct (status_ok status);
      [destruct (Z.of_nat (len content) <? 10 * 1024)%Z;
       [|destruct (can_write w filepath)]|]];
    eexists; eexists; exists [image_request cfg u agent];
    (split; [reflexivity|]); simpl; repeat split; auto.
Qed.

Lemma agent_drawn (cfg : config) (w : world) :
  user_agents cfg <> [] ->
  exists agent w1,
    get_random_user_agent cfg w = (Ok agent, w1)
    /\ In agent (map py (user_agents cfg))
    /\ rng w1 = tl (rng w) /\ net w1 = net w /\ files w1 = files w
    /\ dirs w1 = dirs w /\ sent w1 = sent w.
Proof.
  intros Hne. unfold get_random_user_agent, random_choice.
  destruct (user_agents cfg) as [|a l] eqn:E; [congruence|].
  unfold bind, draw, ret.
  assert (Hin : forall d, In (py (nth (d mod len (a :: l)) (a :: l) a))
                             (map py (a :: l))).
  { intros d. apply in_map. apply nth_In.
    apply Nat.mod_upper_bound. simpl. lia. }
  destruct (rng w) as [|d r] eqn:Er.
  - eexists. eexists. split; [reflexivity|]. rewrite Er.
    split; [apply (Hin 0%nat)|]. auto.
  - eexists. eexists. split; [reflexivity|].
    split; [apply (Hin d)|]. simpl. auto.
Qed.

(** Drawing an agent spends a number of the random source and nothing
    else. *)
Lemma agent_keeps (cfg : config) (w w1 : world) (agent : str) :
  get_random_user_agent cfg w = (Ok agent, w1) ->
  refuses w1 = refuses w /\ slept w1 = slept w /\ dirs w1 = dirs w
  /\ files w1 = files w /\ net w1 = net w /\ sent w1 = sent w.
Proof.
  unfold get_random_user_agent, random_choice, bind, draw, ret.
  destruct (user_agents cfg); [discriminate|].
  destruct (rng w); intros H; inversion H; simpl; auto 6.
Qed.

End FetcherFacts.

Module FetcherSpec.

Import TextFacts FetcherFacts.

(** The agents that [n] calls of [get_random_user_agent], one after the
    other, return: what the requests would carry if every attempt drew its
    own. *)
Fixpoint fresh_agents (cfg : config) (n : nat) (w : world) : list str :=
  match n with
  | O => []
  | S k =>
      match get_random_user_agent cfg w with
      | (Ok agent, w') => agent :: fresh_agents cfg k w'
      | (Raise _, _) => []
      end
  end.

Definition agent_no (i : nat) : str := py (nth i (user_agents CONFIG) ""%string).

Definition image_url : json :=
  JStr (py "https://images.metmuseum.org/CRDImages/is/original/DP170374.jpg").

Definition image_path : str :=
  py "./iran_pottery_dataset/images/islamic/Safavid/452849.jpg".

(** The folder of [image_path]. *)
Definition safavid_folder : str :=
  py "./iran_pottery_dataset/images/islamic/Safavid".

(** A world whose network is down and whose random source yields 0, 1, 2, 1. *)
Definition offline : world :=
  {| rng := [0; 1; 2; 1]%nat; sched := []; net := []; files := []; dirs := [];
     sent := []; slept := 0;
     refuses := no_scheme |}.

(** A world that answers four times, never with an image. *)
Definition four_failures : world :=
  {| rng := [2]%nat; sched := [];
     net := [ TransportError; Reply 404 [] None;
              Reply 200 (repeat x2a 100) None; Reply 503 [] None ];
     files := []; dirs := []; sent := []; slept := 0;
     refuses := no_scheme |}.

(** A world whose first reply is a body of exactly 10 KiB, with the
    folder of the image in place. *)
Definition ten_kib : world :=
  {| rng := []; sched := [];
     net := [ Reply 200 (repeat x00 (Z.to_nat 10240)) None ];
     files := []; dirs := [ safavid_folder ]; sent := []; slept := 0;
     refuses := no_scheme |}.

Lemma attempts_send (cfg : config) (url : json) (filepath agent : str)
    (n : nat) (w : world) :
  exists b w' new,
    attempts n cfg url filepath agent w = (Ok b, w')
    /\ rng w' = rng w
    /\ sent w' = sent w ++ new
    /\ (len new <= n)%nat
    /\ Forall (fun rq => rq_agent rq = agent) new.
Proof.
  revert w; induction n as [|n IH]; intros w.
  - exists false, w, []. simpl. rewrite app_nil_r. repeat split; auto.
  - destruct (attempt_sends cfg url filepath agent w)
      as (b & w1 & new1 & E1 & Hr1 & Hs1 & Hl1 & Ha1).
    cbn [attempts]. unfold bind at 1. rewrite E1. destruct b.
    + exists true, w1, new1. repeat split; auto; lia.
    + destruct (IH w1) as (b & w2 & new2 & E2 & Hr2 & Hs2 & Hl2 & Ha2).
      exists b, w2, (new1 ++ new2). rewrite E2. repeat split.
      * congruence.
      * rewrite Hs2, Hs1. now rewrite app_assoc.
      * rewrite length_app. lia.
      * apply Forall_app. split; assumption.
Qed.

(** C4, with the network down and the random source yielding 0, 1, 2, 1:
    the four requests of one call all carry the first agent and one number
    is drawn, where a draw per attempt would have sent the first, second,
    third and second agent. *)
Lemma download_image_reuses_agent :
  fst (download_image CONFIG image_url image_path offline) = Ok false
  /\ map rq_agent (sent (snd (download_image CONFIG image_url image_path offline)))
     = [ agent_no 0; agent_no 0; agent_no 0; agent_no 0 ]
  /\ fresh_agents CONFIG 4 offline
     = [ agent_no 0; agent_no 1; agent_no 2; agent_no 1 ]
  /\ rng (snd (download_image CONFIG image_url image_path offline)) = [1; 2; 1]%nat
  /\ str_eqb (agent_no 0) (agent_no 1) = false.
Proof. vm_compute. repeat split; reflexivity. Qed.

(** C4 (amended): one call of [download_image] draws one user-agent from
    the configured list, before the loop, and every request of the call,
    at most [retries] of them, carries that agent; the random source is
    advanced once, whatever the number of attempts. *)
Theorem download_image_one_agent (cfg : config) (url : json) (filepath : str)
    (w : world) :
  user_agents cfg <> [] ->
  exists agent b w' new,
    In agent (map py (user_agents cfg))
    /\ fst (get_random_user_agent cfg w) = Ok agent
    /\ download_image cfg url filepath w = (Ok b, w')
    /\ sent w' = sent w ++ new
    /\ (len new <= Z.to_nat (retries cfg))%nat
    /\ Forall (fun rq => rq_agent rq = agent) new
    /\ rng w' = tl (rng w).
Proof.
  intros Hne.
  destruct (agent_drawn cfg w Hne) as (agent & w1 & E & Hin & Hr & _ & _ & _ & Hs).
  destruct (attempts_send cfg url filepath agent (Z.to_nat (retries cfg)) w1)
    as (b & w' & new & E' & Hr' & Hs' & Hl & Ha).
  exists agent, b, w', new. unfold download_image, bind. rewrite E. simpl.
  repeat split; auto; congruence.
Qed.

Lemma download_image_one_agent_witness :
  exists agent b w' new,
    In agent (map py (user_agents CONFIG))
    /\ fst (get_random_user_agent CONFIG four_failures) = Ok agent
    /\ download_image CONFIG image_url image_path four_failures = (Ok b, w')
    /\ sent w' = sent four_failures ++ new
    /\ (len new <= Z.to_nat (retries CONFIG))%nat
    /\ Forall (fun rq => rq_agent rq = agent) new
    /\ rng w' = tl (rng four_failures).
Proof.
  apply (download_image_one_agent CONFIG image_url image_path four_failures).
  discriminate.
Defined.

Lemma attempts_exhausted (cfg : config) (url : json) (filepath agent : str)
    (n : nat) (w : world) :
  (forall i, (i < n)%nat -> reply_fails (reply_at w i) = true) ->
  exists w',
    attempts n cfg url filepath agent w = (Ok false, w')
    /\ files w' = files w /\ dirs w' = dirs w.
Proof.
  revert w; induction n as [|n IH]; intros w Hall.
  - exists w. auto.
  - destruct (attempt_fails cfg url filepath agent w (Hall 0%nat ltac:(lia)))
      as (w1 & E1 & Hf1 & Hd1 & _ & _ & Hnet).
    destruct (IH w1) as (w2 & E2 & Hf2 & Hd2).
    { intros i Hi. destruct Hnet as [Hn | Hn].
      - rewrite (reply_at_tail w w1 i Hn). apply Hall. lia.
      - unfold reply_at. rewrite Hn. apply (Hall i). lia. }
    exists w2. cbn [attempts]. unfold bind at 1. rewrite E1, E2.
    repeat split; congruence.
Qed.

(** C5: when each of the [retries] attempts fails (the transport raises,
    the status is an error, or the body is shorter than 10 KiB),
    [download_image] returns [False] and the files and directories on disk
    are what they were before the call. *)
Theorem download_image_exhausted (cfg : config) (url : json) (filepath : str)
    (w : world) :
  user_agents cfg <> [] ->
  (forall i, (i < Z.to_nat (retries cfg))%nat ->
             reply_fails (reply_at w i) = true) ->
  exists w',
    download_image cfg url filepath w = (Ok false, w')
    /\ files w' = files w
    /\ dirs w' = dirs w
    /\ get_file filepath (files w') = get_file filepath (files w).
Proof.
  intros Hne Hall.
  destruct (agent_drawn cfg w Hne) as (agent & w1 & E & _ & _ & Hn & Hf & Hd & _).
  destruct (attempts_exhausted cfg url filepath agent (Z.to_nat (retries cfg)) w1)
    as (w' & E' & Hf' & Hd').
  { intros i Hi. unfold reply_at. rewrite Hn. now apply Hall. }
  exists w'. unfold download_image, bind. rewrite E, E'.
  repeat split; congruence.
Qed.

Lemma download_image_exhausted_witness :
  exists w',
    download_image CONFIG image_url image_path four_failures = (Ok false, w')
    /\ files w' = files four_failures
    /\ dirs w' = dirs four_failures
    /\ get_file image_path (files w') = get_file image_path (files four_failures).
Proof.
  apply (download_image_exhausted CONFIG image_url image_path four_failures).
  - discriminate.
  - intros i Hi. change (Z.to_nat (retries CONFIG)) with 4%nat in Hi.
    do 4 (destruct i as [|i]; [reflexivity|]). lia.
Defined.

(** C6: take a turn of the loop on a URL that the library sends, for a
    destination whose folder is there, and a reply with a successful
    status.  The turn is accepted exactly when the body has at least
    10240 bytes.  Accepted, the body is the content of the destination
    file and the call returns [True]; rejected, no file is touched,
    nothing is slept, and the loop goes on with the turns that are left
    and the replies that follow.  A body of 10239 bytes is rejected, one
    of 10240 bytes is accepted. *)
Theorem size_threshold (cfg : config) (u filepath agent : str) (w : world)
    (status : Z) (content : list byte) (decoded : option json)
    (rest : list http_reply) (k : nat) :
  sendable w u = true ->
  can_write w filepath = true ->
  net w = Reply status content decoded :: rest ->
  status_ok status = true ->
  exists accepted w',
    attempt cfg (JStr u) filepath agent w = (Ok accepted, w')
    /\ (accepted = true <-> (10240 <= Z.of_nat (len content))%Z)
    /\ (accepted = true ->
        get_file filepath (files w') = Some (Bytes content)
        /\ files w' = put_file filepath (Bytes content) (files w)
        /\ attempts (S k) cfg (JStr u) filepath agent w = (Ok true, w'))
    /\ (accepted = false ->
        files w' = files w /\ slept w' = slept w /\ net w' = rest
        /\ attempts (S k) cfg (JStr u) filepath agent w
           = attempts k cfg (JStr u) filepath agent w')
    /\ (Z.of_nat (len content) = 10239%Z -> accepted = false)
    /\ (Z.of_nat (len content) = 10240%Z -> accepted = true).
Proof.
  intros Hsend Hdir Hnet Hst.
  pose proof (attempt_string cfg u filepath agent w) as E.
  rewrite Hsend, Hdir in E. cbv zeta in E.
  unfold reply_at in E. rewrite Hnet in E. cbn [nth] in E. rewrite Hst in E.
  change (10 * 1024)%Z with 10240%Z in E.
  destruct (Z.ltb_spec (Z.of_nat (len content)) 10240) as [Hlt|Hge].
  - eexists. eexists. split; [exact E|].
    split; [split; [discriminate | lia]|].
    split; [discriminate|].
    split; [|split; [reflexivity | lia]].
    intros _. simpl. rewrite Hnet. repeat split.
    cbn [attempts]. unfold bind at 1. now rewrite E.
  - eexists. eexists. split; [exact E|].
    split; [split; [lia | reflexivity]|].
    split; [|split; [discriminate | split; [lia | reflexivity]]].
    intros _. simpl. rewrite get_file_put. repeat split.
    cbn [attempts]. unfold bind at 1. now rewrite E.
Qed.

(** C6 at a reply of exactly 10 KiB: the turn is accepted and the body is
    on disk. *)
Lemma size_threshold_witness :
  exists w',
    attempt CONFIG image_url image_path (agent_no 0) ten_kib = (Ok true, w')
    /\ get_file image_path (files w')
       = Some (Bytes (repeat x00 (Z.to_nat 10240))).
Proof.
  destruct (size_threshold CONFIG
              (py "https://images.metmuseum.org/CRDImages/is/original/DP170374.jpg")
              image_path (agent_no 0) ten_kib 200
              (repeat x00 (Z.to_nat 10240)) None [] 3
              eq_refl eq_refl eq_refl eq_refl)
    as (accepted & w' & E & _ & Hacc & _ & _ & Hten).
  assert (Ha : accepted = true).
  { apply Hten. rewrite repeat_length. reflexivity. }
  subst accepted. exists w'. split; [exact E | apply Hacc; reflexivity].
Defined.

End FetcherSpec.

(* ================================================================= *)
(** * The sampler *)

Module SamplerFacts.

(** [sel] is drawn from [pop] without replacement: with what is left over
    it makes up [pop] again, member for member. *)
Definition drawn_from (sel pop : list Z) : Prop :=
  exists left_over, Permutation (sel ++ left_over) pop.

(** The part of the world a selection does not touch. *)
Definition same_disk_and_net (w w' : world) : Prop :=
  files w' = files w /\ dirs w' = dirs w /\ net w' = net w
  /\ sent w' = sent w /\ slept w' = slept w.

Lemma same_refl (w : world) : same_disk_and_net w w.
Proof. repeat split. Qed.

Lemma same_trans (w1 w2 w3 : world) :
  same_disk_and_net w1 w2 -> same_disk_and_net w2 w3 -> same_disk_and_net w1 w3.
Proof.
  unfold same_disk_and_net. intros (?&?&?&?&?) (?&?&?&?&?).
  repeat split; congruence.
Qed.

Lemma remove_nth_perm (j : nat) (l : list Z) (d : Z) :
  (j < len l)%nat -> Permutation l (nth j l d :: remove_nth j l).
Proof.
  revert j; induction l as [|a l IH]; intros j Hj; simpl in Hj; [lia|].
  destruct j as [|j]; simpl; [reflexivity|].
  rewrite perm_swap. apply perm_skip. apply IH. lia.
Qed.

Lemma remove_nth_len (j : nat) (l : list Z) :
  (j < len l)%nat -> len (remove_nth j l) = pred (len l).
Proof.
  revert j; induction l as [|a l IH]; intros j Hj; simpl in Hj; [lia|].
  destruct j as [|j]; simpl; [reflexivity|].
  rewrite IH by lia. destruct l; simpl in *; lia.
Qed.

Lemma draw_same (w : world) :
  exists d w', draw w = (Ok d, w') /\ same_disk_and_net w w'.
Proof.
  unfold draw. destruct (rng w).
  - exists 0%nat, w. split; [reflexivity | apply same_refl].
  - eexists. eexists. split; [reflexivity | repeat split].
Qed.

Lemma drawn_from_refl (l : list Z) : drawn_from l l.
Proof. exists []. now rewrite app_nil_r. Qed.

Lemma drawn_from_firstn (n : nat) (sel pop : list Z) :
  drawn_from sel pop -> drawn_from (firstn n sel) pop.
Proof.
  intros [rest H]. exists (skipn n sel ++ rest).
  now rewrite app_assoc, firstn_skipn.
Qed.

Lemma drawn_from_NoDup (sel pop : list Z) :
  drawn_from sel pop -> NoDup pop -> NoDup sel.
Proof.
  intros [rest H] Hnd.
  apply (NoDup_app_remove_r sel rest).
  apply (Permutation_NoDup (Permutation_sym H) Hnd).
Qed.

Lemma drawn_from_incl (sel pop : list Z) :
  drawn_from sel pop -> incl sel pop.
Proof.
  intros [rest H] x Hx.
  apply (Permutation_in x H). apply in_or_app. now left.
Qed.

Lemma drawn_from_len (sel pop : list Z) :
  drawn_from sel pop -> (len sel <= len pop)%nat.
Proof.
  intros [rest H]. apply Permutation_length in H.
  rewrite length_app in H. lia.
Qed.

Lemma drawn_from_app (a x b y : list Z) :
  drawn_from a x -> drawn_from b y -> drawn_from (a ++ b) (x ++ y).
Proof.
  intros [ra Ha] [rb Hb]. exists (ra ++ rb).
  rewrite <- Ha, <- Hb.
  rewrite <- !app_assoc. apply Permutation_app_head.
  rewrite !app_assoc. apply Permutation_app_tail.
  apply Permutation_app_comm.
Qed.

(** [k] draws give [k] members, drawn without replacement. *)
Lemma pick_spec (k : nat) (pool : list Z) (w : world) :
  (k <= len pool)%nat ->
  exists sel w',
    pick k pool w = (Ok sel, w')
    /\ len sel = k
    /\ drawn_from sel pool
    /\ same_disk_and_net w w'.
Proof.
  revert pool w; induction k as [|k IH]; intros pool w Hk.
  - exists [], w. repeat split. exists pool. reflexivity.
  - destruct pool as [|a pool]; [simpl in Hk; lia|].
    cbn [pick]. unfold bind at 1.
    destruct (draw_same w) as (d & w1 & Ed & Hs1). rewrite Ed.
    set (j := (d mod len (a :: pool))%nat).
    assert (Hj : (j < len (a :: pool))%nat)
      by (apply Nat.mod_upper_bound; simpl; lia).
    destruct (IH (remove_nth j (a :: pool)) w1) as (sel & w2 & E & Hl & Hd & Hs2).
    { rewrite remove_nth_len by exact Hj. simpl in *. lia. }
    unfold bind. rewrite E.
    exists (nth j (a :: pool) a :: sel), w2.
    split; [reflexivity|]. split; [simpl; now rewrite Hl|].
    split; [|exact (same_trans _ _ _ Hs1 Hs2)].
    destruct Hd as [rest Hp]. exists rest. simpl.
    rewrite (remove_nth_perm j (a :: pool) a Hj). now apply perm_skip.
Qed.

Lemma random_sample_spec (population : list Z) (k : Z) (w : world) :
  (0 <= k <= Z.of_nat (len population))%Z ->
  exists sel w',
    random_sample population k w = (Ok sel, w')
    /\ Z.of_nat (len sel) = k
    /\ drawn_from sel population
    /\ same_disk_and_net w w'.
Proof.
  intros Hk. unfold random_sample.
  destruct (Z.ltb_spec k 0); [lia|].
  destruct (Z.ltb_spec (Z.of_nat (len population)) k); [lia|]. simpl.
  destruct (pick_spec (Z.to_nat k) population w) as (sel & w' & E & Hl & Hd & Hs);
    [lia|].
  exists sel, w'. repeat split; try assumption; try apply Hs. lia.
Qed.

(** ** Every selection is as likely as any other

    [pick] is a function of the numbers it draws.  When the [i]-th number
    is below the size of what is left of the pool, as the output of
    [randbelow] is, every ordered selection of distinct members comes from
    exactly one sequence of numbers: numbers drawn uniformly give
    selections drawn uniformly. *)

(** The selection as a function of the numbers drawn. *)
Fixpoint picked (js : list nat) (pool : list Z) : list Z :=
  match js, pool with
  | j :: js', a :: _ =>
      nth (j mod len pool) pool a
      :: picked js' (remove_nth (j mod len pool) pool)
  | _, _ => []
  end.

(** The [i]-th number is below [n - i]. *)
Fixpoint in_range (js : list nat) (n : nat) : Prop :=
  match js with
  | [] => True
  | j :: js' => (j < n)%nat /\ in_range js' (pred n)
  end.

Lemma pick_picked (js : list nat) (pool : list Z) (w : world) (rest : list nat) :
  rng w = js ++ rest -> (len js <= len pool)%nat ->
  exists w',
    pick (len js) pool w = (Ok (picked js pool), w') /\ rng w' = rest.
Proof.
  revert pool w; induction js as [|j js IH]; intros pool w Hr Hl.
  - exists w. split; [reflexivity | exact Hr].
  - destruct pool as [|a pool]; [simpl in Hl; lia|].
    cbn [len pick picked]. unfold bind at 1. unfold draw. rewrite Hr.
    cbn [app].
    assert (Hj : (j mod len (a :: pool) < len (a :: pool))%nat)
      by (apply Nat.mod_upper_bound; simpl; lia).
    destruct (IH (remove_nth (j mod len (a :: pool)) (a :: pool))
                 (with_rng (js ++ rest) w) eq_refl) as (w' & E & Hr').
    { rewrite remove_nth_len by exact Hj. simpl in *. lia. }
    cbn [List.length] in E.
    exists w'. unfold bind. rewrite E. split; [reflexivity | exact Hr'].
Qed.

(** The numbers [k] draws take from the random source: the next [k] it
    holds, and zeros once it has run out. *)
Fixpoint next_numbers (k : nat) (numbers : list nat) : list nat :=
  match k with
  | O => []
  | S k' =>
      match numbers with
      | [] => 0%nat :: next_numbers k' []
      | d :: rest => d :: next_numbers k' rest
      end
  end.

Lemma next_numbers_len (k : nat) (numbers : list nat) :
  len (next_numbers k numbers) = k.
Proof.
  revert numbers; induction k as [|k IH]; intros numbers; [reflexivity|].
  destruct numbers; cbn [next_numbers List.length]; now rewrite IH.
Qed.

(** [pick] returns what the next numbers of the random source pick, and
    leaves the numbers after them. *)
Lemma pick_next (k : nat) (pool : list Z) (w : world) :
  (k <= len pool)%nat ->
  exists w',
    pick k pool w = (Ok (picked (next_numbers k (rng w)) pool), w')
    /\ rng w' = skipn k (rng w).
Proof.
  revert pool w; induction k as [|k IH]; intros pool w Hk.
  - exists w. split; reflexivity.
  - destruct pool as [|a pool]; [simpl in Hk; lia|].
    cbn [pick]. unfold bind at 1. unfold draw.
    destruct (rng w) as [|d rest] eqn:Er; cbn [next_numbers picked skipn].
    + assert (Hj : (0 mod len (a :: pool) < len (a :: pool))%nat)
        by (apply Nat.mod_upper_bound; simpl; lia).
      destruct (IH (remove_nth (0 mod len (a :: pool)) (a :: pool)) w)
        as (w' & E & Hr').
      { rewrite remove_nth_len by exact Hj. simpl in *. lia. }
      rewrite Er in E, Hr'. rewrite skipn_nil in Hr'.
      exists w'. unfold bind. rewrite E. split; [reflexivity | exact Hr'].
    + assert (Hj : (d mod len (a :: pool) < len (a :: pool))%nat)
        by (apply Nat.mod_upper_bound; simpl; lia).
      destruct (IH (remove_nth (d mod len (a :: pool)) (a :: pool))
                   (with_rng rest w)) as (w' & E & Hr').
      { rewrite remove_nth_len by exact Hj. simpl in *. lia. }
      cbn [rng with_rng] in E, Hr'.
      exists w'. unfold bind. rewrite E. split; [reflexivity | exact Hr'].
Qed.

Lemma remove_nth_keeps (j : nat) (pool : list Z) (d y : Z) :
  (j < len pool)%nat -> In y pool -> y <> nth j pool d ->
  In y (remove_nth j pool).
Proof.
  intros Hj Hy Hne.
  apply (Permutation_in y (remove_nth_perm j pool d Hj)) in Hy.
  destruct Hy as [E|Hy]; [congruence | exact Hy].
Qed.

Lemma remove_nth_NoDup (j : nat) (pool : list Z) :
  (j < len pool)%nat -> NoDup pool -> NoDup (remove_nth j pool).
Proof.
  intros Hj Hnd.
  pose proof (Permutation_NoDup (remove_nth_perm j pool 0%Z Hj) Hnd) as H.
  now inversion H.
Qed.

Lemma pick_fair (sel pool : list Z) :
  NoDup pool -> NoDup sel -> incl sel pool ->
  exists js,
    (len js = len sel /\ in_range js (len pool) /\ picked js pool = sel)
    /\ forall js',
         len js' = len sel -> in_range js' (len pool) ->
         picked js' pool = sel -> js' = js.
Proof.
  revert pool; induction sel as [|x sel IH]; intros pool Hp Hs Hi.
  - exists []. split; [repeat split|].
    intros js' Hl _ _. destruct js'; [reflexivity | discriminate].
  - assert (Hx : In x pool) by (apply Hi; now left).
    destruct pool as [|a pool]; [destruct Hx|].
    destruct (In_nth _ _ a Hx) as (j & Hj & Ej).
    inversion Hs as [|? ? Hnx Hs']; subst.
    destruct (IH (remove_nth j (a :: pool))) as (js & (Hl & Hr & Epk) & Huniq).
    + now apply remove_nth_NoDup.
    + exact Hs'.
    + intros y Hy. apply (remove_nth_keeps j (a :: pool) a); [exact Hj | |].
      * apply Hi. now right.
      * intros E. apply Hnx. rewrite <- E. exact Hy.
    + rewrite remove_nth_len in Hr by exact Hj.
      exists (j :: js). split.
      * split; [simpl; now rewrite Hl|]. split; [split; assumption|].
        cbn [picked]. rewrite (Nat.mod_small _ _ Hj). now rewrite Epk.
      * intros js' Hl' Hr' Epk'.
        destruct js' as [|j' js']; [discriminate|].
        destruct Hr' as [Hj' Hr'']. cbn [picked] in Epk'.
        rewrite (Nat.mod_small _ _ Hj') in Epk'.
        inversion Epk' as [[Ex Erest]].
        assert (j' = j).
        { apply (proj1 (NoDup_nth (a :: pool) a) Hp); try assumption;
            congruence. }
        subst j'. f_equal. apply Huniq.
        -- simpl in Hl'. lia.
        -- rewrite remove_nth_len by exact Hj. exact Hr''.
        -- exact Erest.
Qed.

(** ** The minimum over the non-empty groups *)

Lemma fold_min_spec (rest : list Z) (x : Z) :
  In (fold_left Z.min rest x) (x :: rest)
  /\ forall y, In y (x :: rest) -> (fold_left Z.min rest x <= y)%Z.
Proof.
  revert x; induction rest as [|a rest IH]; intros x; simpl.
  - split; [now left|]. intros y [<-|[]]. lia.
  - destruct (IH (Z.min x a)) as [Hin Hle]. split.
    + destruct Hin as [E|Hin]; [|now right; right].
      rewrite <- E. destruct (Z.min_spec x a) as [[_ ->]|[_ ->]]; auto.
    + intros y Hy.
      assert (Hm : (fold_left Z.min rest (Z.min x a) <= Z.min x a)%Z)
        by (apply Hle; now left).
      destruct Hy as [<-|[<-|Hy]]; [lia | lia |].
      apply Hle. now right.
Qed.

Lemma py_min_spec (l : list Z) :
  l <> [] ->
  exists m, py_min l = Ok m /\ In m l /\ forall y, In y l -> (m <= y)%Z.
Proof.
  destruct l as [|x rest]; [congruence|]. intros _.
  exists (fold_left Z.min rest x). split; [reflexivity|].
  apply fold_min_spec.
Qed.

Lemma nonempty_true (ids : list Z) : nonempty ids = true <-> ids <> [].
Proof. destruct ids; simpl; split; congruence. Qed.

Lemma in_nonempty_sizes (g : groups) (z : Z) :
  In z (nonempty_sizes g) <->
  exists name ids, In (name, ids) g /\ ids <> [] /\ z = Z.of_nat (len ids).
Proof.
  unfold nonempty_sizes. rewrite in_map_iff. split.
  - intros (ids & <- & Hin). apply filter_In in Hin. destruct Hin as [Hin Hne].
    apply in_map_iff in Hin. destruct Hin as ([name ids'] & E & Hin).
    simpl in E. subst ids'. exists name, ids.
    repeat split; [exact Hin | now apply nonempty_true].
  - intros (name & ids & Hin & Hne & ->). exists ids. split; [reflexivity|].
    apply filter_In. split; [|now apply nonempty_true].
    apply in_map_iff. exists (name, ids). auto.
Qed.

End SamplerFacts.

Module SamplerSpec.

Import SamplerFacts.

(** What a group adds to the sample under the quota [target]: nothing
    when it is empty, all its members when it has at most [target], and
    otherwise what [random.sample(ids, target)] returned, which is [target]
    members drawn without replacement. *)
Definition contribution (target : Z) (ids sel : list Z) : Prop :=
  (ids = [] -> sel = [])
  /\ ((Z.of_nat (len ids) <= target)%Z -> sel = ids)
  /\ ((target < Z.of_nat (len ids))%Z ->
      Z.of_nat (len sel) = target
      /\ drawn_from sel ids
      /\ exists w1 w2, random_sample ids target w1 = (Ok sel, w2)).

(** [m] is the least size of a non-empty group. *)
Definition least_nonempty_size (g : groups) (m : Z) : Prop :=
  (exists name ids, In (name, ids) g /\ ids <> [] /\ Z.of_nat (len ids) = m)
  /\ forall name ids, In (name, ids) g -> ids <> [] -> (m <= Z.of_nat (len ids))%Z.

Definition has_nonempty_group (g : groups) : Prop :=
  exists name ids, In (name, ids) g /\ ids <> [].

Definition three_groups : groups :=
  [ ("Safavid", [452849; 451725; 446283; 450409; 448671]);
    ("Parthian", [324290; 325524]);
    ("Unknown", []) ]%string%Z.

Definition cap_of (n : Z) : config :=
  {| dataset_path := dataset_path CONFIG; timeout := timeout CONFIG;
     retries := retries CONFIG; max_images := n;
     pre_islamic_keywords := pre_islamic_keywords CONFIG;
     islamic_keywords := islamic_keywords CONFIG;
     metadata_fields := metadata_fields CONFIG;
     user_agents := user_agents CONFIG |}.

Definition seeded : world :=
  {| rng := [7; 3; 1; 4]%nat; sched := []; net := []; files := []; dirs := [];
     sent := []; slept := 0;
     refuses := no_scheme |}.

Lemma target_spec (cfg : config) (g : groups) :
  has_nonempty_group g ->
  exists m,
    least_nonempty_size g m
    /\ target_per_group cfg g
       = Ok (Z.max 1 (Z.min m (max_images cfg / Z.of_nat (len g)))).
Proof.
  intros (name & ids & Hin & Hne).
  destruct (py_min_spec (nonempty_sizes g)) as (m & Em & Hm & Hle).
  { intros E.
    assert (H : In (Z.of_nat (len ids)) (nonempty_sizes g))
      by (apply in_nonempty_sizes; exists name, ids; auto).
    rewrite E in H. destruct H. }
  exists m. split.
  - split.
    + apply in_nonempty_sizes in Hm. destruct Hm as (n' & ids' & ? & ? & ->).
      exists n', ids'. auto.
    + intros n' ids' Hin' Hne'. apply Hle. apply in_nonempty_sizes.
      exists n', ids'. auto.
  - unfold target_per_group. rewrite Em. simpl. unfold floordiv.
    destruct (Z.eqb_spec (Z.of_nat (len g)) 0) as [E|_]; [|reflexivity].
    destruct g; [destruct Hin | simpl in E; lia].
Qed.

Lemma select_one_spec (target : Z) (ids : list Z) (w : world) :
  (1 <= target)%Z ->
  exists sel w',
    select_one target ids w = (Ok sel, w')
    /\ contribution target ids sel
    /\ drawn_from sel ids
    /\ same_disk_and_net w w'.
Proof.
  intros Ht. unfold select_one, contribution.
  destruct ids as [|i ids].
  - exists [], w. simpl.
    split; [reflexivity|]. split; [|split; [apply drawn_from_refl | apply same_refl]].
    split; [reflexivity|]. split; [reflexivity|]. lia.
  - cbn [nonempty negb].
    destruct (Z.leb_spec (Z.of_nat (len (i :: ids))) target) as [Hle|Hgt].
    + exists (i :: ids), w.
      split; [reflexivity|].
      split; [|split; [apply drawn_from_refl | apply same_refl]].
      split; [discriminate|]. split; [reflexivity|]. lia.
    + destruct (random_sample_spec (i :: ids) target w)
        as (sel & w' & E & Hl & Hd & Hs); [lia|].
      exists sel, w'.
      split; [exact E|]. split; [|split; assumption].
      split; [discriminate|]. split; [lia|].
      intros _. split; [exact Hl|]. split; [exact Hd|]. now exists w, w'.
Qed.

Lemma select_spec (target : Z) (g : groups) (w : world) :
  (1 <= target)%Z ->
  exists chosen w',
    select target g w = (Ok (List.concat chosen), w')
    /\ Forall2 (fun grp sel => contribution target (snd grp) sel
                               /\ drawn_from sel (snd grp)) g chosen
    /\ same_disk_and_net w w'.
Proof.
  intros Ht. revert w; induction g as [|[name ids] g IH]; intros w.
  - exists [], w. repeat split. constructor.
  - destruct (select_one_spec target ids w Ht) as (sel & w1 & E1 & Hc & Hd & Hs1).
    destruct (IH w1) as (chosen & w2 & E2 & HF & Hs2).
    exists (sel :: chosen), w2. cbn [select]. unfold bind. rewrite E1, E2.
    split; [reflexivity|].
    split; [constructor; auto | exact (same_trans _ _ _ Hs1 Hs2)].
Qed.

(** The cut keeps a prefix of every group's selection. *)
Lemma firstn_concat (n : nat) (chosen : list (list Z)) :
  exists parts,
    firstn n (List.concat chosen) = List.concat parts
    /\ Forall2 (fun sel part => exists k, part = firstn k sel) chosen parts.
Proof.
  revert n; induction chosen as [|sel chosen IH]; intros n.
  - exists []. simpl. rewrite firstn_nil. split; [reflexivity | constructor].
  - destruct (IH (n - len sel)%nat) as (parts & E & HF).
    exists (firstn n sel :: parts). simpl. rewrite firstn_app, E.
    split; [reflexivity|]. constructor; [now exists n | exact HF].
Qed.

Lemma slice_to_len {A} (l : list A) (n : Z) :
  (0 <= n)%Z -> (Z.of_nat (len (slice_to l n)) <= n)%Z.
Proof.
  intros Hn. unfold slice_to. destruct (Z.ltb_spec n 0); [lia|].
  pose proof (firstn_le_length (Z.to_nat n) l). lia.
Qed.

Lemma slice_to_firstn {A} (l : list A) (n : Z) :
  (0 <= n)%Z -> slice_to l n = firstn (Z.to_nat n) l.
Proof. intros Hn. unfold slice_to. destruct (Z.ltb_spec n 0); [lia | reflexivity]. Qed.

Lemma Forall2_compose {A B C} (R : A -> B -> Prop) (S : B -> C -> Prop)
    (T : A -> C -> Prop) :
  (forall a b c, R a b -> S b c -> T a c) ->
  forall la lb lc, Forall2 R la lb -> Forall2 S lb lc -> Forall2 T la lc.
Proof.
  intros H la lb lc HR. revert lc.
  induction HR as [|a b la lb Hab _ IH]; intros lc HS; inversion HS; subst.
  - constructor.
  - constructor; [eapply H; eassumption | now apply IH].
Qed.

Lemma drawn_from_concat (g : groups) (parts : list (list Z)) :
  Forall2 (fun grp part => drawn_from part (snd grp)) g parts ->
  drawn_from (List.concat parts) (List.concat (map snd g)).
Proof.
  induction 1 as [|grp part g parts H _ IH]; simpl.
  - apply drawn_from_refl.
  - now apply drawn_from_app.
Qed.

(** The shares of the groups in the specification's words, along the
    random source: [numbers] is what the source holds before the first
    group and [left] what it holds after the last.  A group of at most
    [target] members, an empty one among them, adds all its members and
    draws nothing; a larger one adds the [target] members that the next
    [target] numbers pick, one after the other among the members not
    picked yet. *)
Inductive shares (target : Z)
  : groups -> list nat -> list (list Z) -> list nat -> Prop :=
| shares_done (numbers : list nat) : shares target [] numbers [] numbers
| shares_whole (name : string) (ids : list Z) (g : groups)
    (numbers : list nat) (chosen : list (list Z)) (left : list nat) :
    (Z.of_nat (len ids) <= target)%Z ->
    shares target g numbers chosen left ->
    shares target ((name, ids) :: g) numbers (ids :: chosen) left
| shares_drawn (name : string) (ids : list Z) (g : groups)
    (numbers : list nat) (chosen : list (list Z)) (left : list nat) :
    (target < Z.of_nat (len ids))%Z ->
    shares target g (skipn (Z.to_nat target) numbers) chosen left ->
    shares target ((name, ids) :: g) numbers
      (picked (next_numbers (Z.to_nat target) numbers) ids :: chosen) left.

(** What one group adds, with the numbers it takes. *)
Lemma select_one_share (target : Z) (ids : list Z) (w : world) :
  (1 <= target)%Z ->
  exists sel w',
    select_one target ids w = (Ok sel, w')
    /\ contribution target ids sel
    /\ ((Z.of_nat (len ids) <= target)%Z -> sel = ids /\ rng w' = rng w)
    /\ ((target < Z.of_nat (len ids))%Z ->
        sel = picked (next_numbers (Z.to_nat target) (rng w)) ids
        /\ rng w' = skipn (Z.to_nat target) (rng w)).
Proof.
  intros Ht.
  destruct (select_one_spec target ids w Ht) as (sel & w' & E & Hc & _ & _).
  exists sel, w'. split; [exact E|]. split; [exact Hc|].
  unfold select_one in E. destruct ids as [|i ids].
  - inversion E; subst. split; [auto|]. simpl. lia.
  - cbn [nonempty negb] in E.
    destruct (Z.leb_spec (Z.of_nat (len (i :: ids))) target) as [Hle|Hgt].
    + inversion E; subst. split; [auto | lia].
    + split; [lia|]. intros _.
      unfold random_sample in E.
      destruct (Z.ltb_spec target 0); [lia|].
      destruct (Z.ltb_spec (Z.of_nat (len (i :: ids))) target); [lia|].
      cbn [orb] in E.
      destruct (pick_next (Z.to_nat target) (i :: ids) w) as (w2 & E2 & Hr);
        [lia|].
      rewrite E2 in E. inversion E; subst. split; [reflexivity | exact Hr].
Qed.

(** The loop over the groups, with the numbers it takes. *)
Lemma select_shares (target : Z) (g : groups) (w : world) :
  (1 <= target)%Z ->
  exists chosen w',
    select target g w = (Ok (List.concat chosen), w')
    /\ Forall2 (fun grp sel => contribution target (snd grp) sel) g chosen
    /\ shares target g (rng w) chosen (rng w').
Proof.
  intros Ht. revert w; induction g as [|[name ids] g IH]; intros w.
  - exists [], w. repeat split; constructor.
  - destruct (select_one_share target ids w Ht)
      as (sel & w1 & E1 & Hc & Hwhole & Hdrawn).
    destruct (IH w1) as (chosen & w2 & E2 & HF & Hsh).
    exists (sel :: chosen), w2. cbn [select]. unfold bind. rewrite E1, E2.
    split; [reflexivity|]. split; [now constructor|].
    destruct (Z_le_gt_dec (Z.of_nat (len ids)) target) as [Hle|Hgt].
    + destruct (Hwhole Hle) as [-> Hr]. rewrite Hr in Hsh.
      now apply shares_whole.
    + destruct (Hdrawn ltac:(lia)) as [-> Hr]. rewrite Hr in Hsh.
      apply shares_drawn; [lia | exact Hsh].
Qed.

(** C3: for a family with at least one non-empty group, the quota is
    [max(1, min(m, max_images // numGroups))], [m] being the least size of
    a non-empty group and [//] floor division by the number of groups; the
    loop then returns, group after group in the order of the family,
    nothing for an empty group, all the members of a group of at most
    [target] members, and for a larger group exactly [target] members
    drawn without replacement by [random.sample].  What a larger group
    adds is what the next [target] numbers of the run's random source
    pick, each among the members not picked yet, and the source is left
    at the number after them.  Numbers in range pick every ordered
    selection of [target] distinct members of a group through exactly
    one sequence: numbers drawn uniformly give a selection drawn
    uniformly. *)
Theorem sampling_quota (cfg : config) (g : groups) (w : world) :
  has_nonempty_group g ->
  exists m target chosen w',
    least_nonempty_size g m
    /\ target = Z.max 1 (Z.min m (max_images cfg / Z.of_nat (len g)))
    /\ target_per_group cfg g = Ok target
    /\ select target g w = (Ok (List.concat chosen), w')
    /\ Forall2 (fun grp sel => contribution target (snd grp) sel) g chosen
    /\ shares target g (rng w) chosen (rng w')
    /\ sample cfg g w
       = (Ok (slice_to (List.concat chosen) (max_images cfg)), w')
    /\ (forall name ids sel,
          In (name, ids) g -> NoDup ids ->
          (target < Z.of_nat (len ids))%Z ->
          Z.of_nat (len sel) = target -> NoDup sel -> incl sel ids ->
          exists js,
            (len js = Z.to_nat target /\ in_range js (len ids)
             /\ picked js ids = sel)
            /\ forall js',
                 len js' = Z.to_nat target -> in_range js' (len ids) ->
                 picked js' ids = sel -> js' = js).
Proof.
  intros Hne.
  destruct (target_spec cfg g Hne) as (m & Hm & Et).
  set (target := Z.max 1 (Z.min m (max_images cfg / Z.of_nat (len g)))) in *.
  destruct (select_shares target g w ltac:(lia)) as (chosen & w' & Es & HF & Hsh).
  exists m, target, chosen, w'.
  split; [exact Hm|]. split; [reflexivity|]. split; [exact Et|].
  split; [exact Es|]. split; [exact HF|]. split; [exact Hsh|].
  split; [unfold sample, bind, lift; rewrite Et, Es; reflexivity|].
  intros name ids sel _ Hids _ Hlen Hsel Hincl.
  assert (Hl : len sel = Z.to_nat target) by lia.
  destruct (pick_fair sel ids Hids Hsel Hincl) as (js & (H1 & H2 & H3) & Huniq).
  exists js. rewrite <- Hl. split; [auto|]. exact Huniq.
Qed.

(** C3 on three groups of five, two and no members with a cap of 200: the
    quota is 2, and with the random source at 7, 3, 1, 4 the group of
    five adds its third and its fifth member. *)
Lemma sampling_quota_witness :
  exists m target chosen w',
    least_nonempty_size three_groups m
    /\ target = Z.max 1 (Z.min m (max_images CONFIG / Z.of_nat (len three_groups)))
    /\ target_per_group CONFIG three_groups = Ok target
    /\ select target three_groups seeded = (Ok (List.concat chosen), w')
    /\ Forall2 (fun grp sel => contribution target (snd grp) sel)
               three_groups chosen
    /\ shares target three_groups (rng seeded) chosen (rng w')
    /\ sample CONFIG three_groups seeded
       = (Ok (slice_to (List.concat chosen) (max_images CONFIG)), w')
    /\ sample CONFIG three_groups seeded
       = (Ok [446283; 448671; 324290; 325524]%Z, w')
    /\ rng w' = [1; 4]%nat.
Proof.
  destruct (sampling_quota CONFIG three_groups seeded)
    as (m & target & chosen & w' & Hm & Ht & Et & Es & HF & Hsh & E & _).
  { exists "Parthian"%string, [324290; 325524]%Z.
    split; [right; left; reflexivity | discriminate]. }
  exists m, target, chosen, w'.
  repeat (split; [assumption|]).
  assert (Ev : sample CONFIG three_groups seeded
               = (Ok [446283; 448671; 324290; 325524]%Z,
                  with_rng [1; 4]%nat seeded)) by reflexivity.
  rewrite E in Ev.
  assert (Hw : w' = with_rng [1; 4]%nat seeded) by congruence.
  split; [rewrite E, Ev, Hw; reflexivity | rewrite Hw; reflexivity].
Defined.

(** C8: for a cap that is not negative and a family with a non-empty
    group, the sampled list has at most [max_images] members and is made,
    in the order of the groups, of one part per group; a part is drawn
    from its group without replacement (so it repeats no ID that the
    group lists once), and the part of a group larger than the quota has
    at most [target] members.  When no ID stands in two places of the
    family, none stands in two places of the sampled list. *)
Theorem sample_bounded (cfg : config) (g : groups) (w : world) :
  (0 <= max_images cfg)%Z ->
  has_nonempty_group g ->
  exists target final parts w',
    target_per_group cfg g = Ok target
    /\ sample cfg g w = (Ok final, w')
    /\ (Z.of_nat (len final) <= max_images cfg)%Z
    /\ final = List.concat parts
    /\ Forall2 (fun grp part =>
                  drawn_from part (snd grp)
                  /\ ((target < Z.of_nat (len (snd grp)))%Z ->
                      (Z.of_nat (len part) <= target)%Z)
                  /\ (NoDup (snd grp) -> NoDup part)) g parts
    /\ (NoDup (List.concat (map snd g)) -> NoDup final).
Proof.
  intros Hcap Hne.
  destruct (target_spec cfg g Hne) as (m & Hm & Et).
  set (target := Z.max 1 (Z.min m (max_images cfg / Z.of_nat (len g)))) in *.
  destruct (select_spec target g w ltac:(lia)) as (chosen & w' & Es & HF & _).
  destruct (firstn_concat (Z.to_nat (max_images cfg)) chosen) as (parts & Ep & HP).
  exists target, (slice_to (List.concat chosen) (max_images cfg)), parts, w'.
  assert (HG : Forall2 (fun grp part =>
                  drawn_from part (snd grp)
                  /\ ((target < Z.of_nat (len (snd grp)))%Z ->
                      (Z.of_nat (len part) <= target)%Z)
                  /\ (NoDup (snd grp) -> NoDup part)) g parts).
  { eapply Forall2_compose; [|exact HF|exact HP].
    intros grp sel part [Hc Hd] [k ->].
    assert (Hd' : drawn_from (firstn k sel) (snd grp))
      by now apply drawn_from_firstn.
    split; [exact Hd'|]. split.
    - intros Hbig. destruct Hc as (_ & _ & Hc). destruct (Hc Hbig) as (Hl & _ & _).
      rewrite length_firstn. lia.
    - intros Hnd. exact (drawn_from_NoDup _ _ Hd' Hnd). }
  split; [exact Et|]. split.
  { unfold sample, bind, lift. rewrite Et, Es. reflexivity. }
  split; [now apply slice_to_len|].
  split; [now rewrite slice_to_firstn|].
  split; [exact HG|].
  intros Hnd. rewrite slice_to_firstn, Ep by exact Hcap.
  apply (drawn_from_NoDup _ (List.concat (map snd g))); [|exact Hnd].
  apply drawn_from_concat.
  eapply Forall2_impl; [|exact HG]. intros grp part [Hd _]. exact Hd.
Qed.

(** C8 on the three groups with a cap of 3. *)
Lemma sample_bounded_witness :
  exists target final parts w',
    target_per_group (cap_of 3) three_groups = Ok target
    /\ sample (cap_of 3) three_groups seeded = (Ok final, w')
    /\ (Z.of_nat (len final) <= max_images (cap_of 3))%Z
    /\ final = List.concat parts
    /\ Forall2 (fun grp part =>
                  drawn_from part (snd grp)
                  /\ ((target < Z.of_nat (len (snd grp)))%Z ->
                      (Z.of_nat (len part) <= target)%Z)
                  /\ (NoDup (snd grp) -> NoDup part)) three_groups parts
    /\ (NoDup (List.concat (map snd three_groups)) -> NoDup final).
Proof.
  apply (sample_bounded (cap_of 3) three_groups seeded).
  - simpl. lia.
  - exists "Parthian"%string, [324290; 325524]%Z.
    split; [right; left; reflexivity | discriminate].
Defined.

End SamplerSpec.

(* ================================================================= *)
(** * The object processor *)

Module ProcessorFacts.

Import TextFacts FetcherFacts.

(** The image fetch runs out of attempts: the URL is not a string, so
    that nothing can be sent, or each of the [retries] replies fails. *)
Definition exhausted (cfg : config) (url : json) (replies : list http_reply) : Prop :=
  (forall u, url <> JStr u)
  \/ forall i, (i < Z.to_nat (retries cfg))%nat ->
               reply_fails (nth i replies TransportError) = true.

(** Every attempt of the image fetch fails: the library does not take
    the value for a URL it can send (it is not a string, or a string it
    refuses), so that each attempt raises before anything is sent, or each
    of the [retries] replies fails. *)
Definition fetch_fails (cfg : config) (w : world) (url : json)
    (replies : list http_reply) : Prop :=
  goes_out w url = false
  \/ forall i, (i < Z.to_nat (retries cfg))%nat ->
               reply_fails (nth i replies TransportError) = true.

(** The request for the JSON of one object. *)
Definition object_request (obj_id : Z) (agent : str) : request :=
  {| rq_url := object_url obj_id; rq_params := []; rq_agent := agent;
     rq_timeout := 25 |}.

Lemma exhausted_fetch_fails (cfg : config) (w : world) (url : json)
    (replies : list http_reply) :
  exhausted cfg url replies -> fetch_fails cfg w url replies.
Proof.
  intros [H|H]; [left | now right].
  destruct url; try reflexivity. destruct (H s eq_refl).
Qed.

Lemma attempt_accepts (cfg : config) (u filepath agent : str) (w : world) :
  sendable w u = true -> can_write w filepath = true ->
  reply_fails (reply_at w 0) = false ->
  exists w', attempt cfg (JStr u) filepath agent w = (Ok true, w').
Proof.
  intros Hu Hp Hf. rewrite attempt_string, Hu, Hp. cbv zeta.
  destruct (reply_at w 0) as [|status content decoded]; simpl in Hf;
    [discriminate|].
  apply orb_false_iff in Hf. destruct Hf as [Hs Hl].
  apply negb_false_iff in Hs. rewrite Hs.
  change (10 * 1024)%Z with 10240%Z. rewrite Hl. eexists; reflexivity.
Qed.

(** On a URL that is sent, for a destination whose folder is there, the
    loop returns [False] exactly when each of its turns meets a failing
    reply. *)
Lemma attempts_string_outcome (cfg : config) (u filepath agent : str)
    (n : nat) (w : world) :
  sendable w u = true -> can_write w filepath = true ->
  exists b w',
    attempts n cfg (JStr u) filepath agent w = (Ok b, w')
    /\ (b = false <->
        forall i, (i < n)%nat -> reply_fails (reply_at w i) = true).
Proof.
  revert w; induction n as [|n IH]; intros w Hu Hp.
  - exists false, w. split; [reflexivity|]. split; [intros _ i Hi; lia | reflexivity].
  - cbn [attempts]. unfold bind at 1.
    destruct (reply_fails (reply_at w 0)) eqn:H0.
    + pose proof (attempt_string cfg u filepath agent w) as Es.
      rewrite Hu in Es. cbv zeta in Es.
      assert (Hstep : exists w1,
                 attempt cfg (JStr u) filepath agent w = (Ok false, w1)
                 /\ net w1 = tl (net w) /\ refuses w1 = refuses w
                 /\ dirs w1 = dirs w).
      { rewrite Es. destruct (reply_at w 0) as [|status content decoded];
          simpl in H0.
        - eexists. split; [reflexivity|]. simpl. auto.
        - destruct (status_ok status); simpl in H0.
          + change (10 * 1024)%Z with 10240%Z. rewrite H0.
            eexists. split; [reflexivity|]. simpl. auto.
          + eexists. split; [reflexivity|]. simpl. auto. }
      destruct Hstep as (w1 & E1 & Hn & Hr & Hd).
      destruct (IH w1) as (b & w2 & E2 & Hiff).
      { now rewrite (sendable_same w w1 u Hr). }
      { now rewrite (can_write_same w w1 filepath Hd). }
      exists b, w2. rewrite E1. split; [exact E2|].
      rewrite Hiff. split.
      * intros H i Hi. destruct i as [|i]; [exact H0|].
        rewrite <- (reply_at_tail w w1 i Hn). apply H. lia.
      * intros H i Hi. rewrite (reply_at_tail w w1 i Hn). apply H. lia.
    + destruct (attempt_accepts cfg u filepath agent w Hu Hp H0) as (w1 & E1).
      exists true, w1. rewrite E1. split; [reflexivity|].
      split; [discriminate|]. intros H.
      rewrite (H 0%nat ltac:(lia)) in H0. discriminate.
Qed.

(** On a value the library refuses the loop sends nothing and returns
    [False]. *)
Lemma attempts_refused (cfg : config) (url : json) (filepath agent : str)
    (n : nat) (w : world) :
  goes_out w url = false ->
  exists w',
    attempts n cfg url filepath agent w = (Ok false, w')
    /\ net w' = net w /\ sent w' = sent w /\ files w' = files w
    /\ dirs w' = dirs w
    /\ slept w' = (slept w + 2 * Z.of_nat n)%Z.
Proof.
  revert w; induction n as [|n IH]; intros w Hu.
  - exists w. repeat split. lia.
  - cbn [attempts]. unfold bind at 1.
    rewrite (attempt_refused cfg url filepath agent w Hu).
    destruct (IH (after_sleep 2 w)) as (w' & E & Hn & Hs & Hf & Hd & Hsl).
    { now rewrite (goes_out_same w (after_sleep 2 w) url eq_refl). }
    exists w'. split; [exact E|]. rewrite Hn, Hs, Hf, Hd, Hsl.
    cbn [after_sleep net sent files dirs slept]. rewrite Nat2Z.inj_succ.
    repeat split. lia.
Qed.

Lemma attempts_not_string (cfg : config) (url : json) (filepath agent : str)
    (n : nat) (w : world) :
  (forall u, url <> JStr u) ->
  exists w', attempts n cfg url filepath agent w = (Ok false, w').
Proof.
  intros Hu.
  destruct (attempts_refused cfg url filepath agent n w) as (w' & E & _).
  - destruct url; try reflexivity. destruct (Hu s eq_refl).
  - now exists w'.
Qed.

(** [download_image] returns; for a destination whose folder is there it
    returns [False] exactly when every attempt fails. *)
Lemma download_image_outcome (cfg : config) (url : json) (filepath : str)
    (w : world) :
  user_agents cfg <> [] ->
  can_write w filepath = true ->
  exists b w',
    download_image cfg url filepath w = (Ok b, w')
    /\ (b = false <-> fetch_fails cfg w url (net w)).
Proof.
  intros Hne Hp.
  destruct (agent_drawn cfg w Hne) as (agent & w1 & E & _).
  destruct (agent_keeps cfg w w1 agent E) as (Hr & _ & Hd & _ & Hn & _).
  unfold download_image, bind. rewrite E. unfold fetch_fails.
  destruct (goes_out w url) eqn:Hg.
  - destruct url as [| | |u| |]; try discriminate Hg. simpl in Hg.
    destruct (attempts_string_outcome cfg u filepath agent
                (Z.to_nat (retries cfg)) w1) as (b & w' & E' & Hiff).
    { now rewrite (sendable_same w w1 u Hr). }
    { now rewrite (can_write_same w w1 filepath Hd). }
    exists b, w'. split; [exact E'|]. rewrite Hiff.
    unfold reply_at. rewrite Hn. split.
    + intros H. now right.
    + intros [Hu|H]; [discriminate Hu | exact H].
  - destruct (attempts_refused cfg url filepath agent
                (Z.to_nat (retries cfg)) w1) as (w' & E' & _).
    { now rewrite (goes_out_same w w1 url Hr). }
    exists false, w'. split; [exact E'|]. split; [now left | reflexivity].
Qed.

(** Whatever the destination, a fetch whose attempts all fail returns
    [False]. *)
Lemma download_image_fails (cfg : config) (url : json) (filepath : str)
    (w : world) :
  user_agents cfg <> [] ->
  fetch_fails cfg w url (net w) ->
  exists w', download_image cfg url filepath w = (Ok false, w').
Proof.
  intros Hne Hfail.
  destruct (agent_drawn cfg w Hne) as (agent & w1 & E & _).
  destruct (agent_keeps cfg w w1 agent E) as (Hr & _ & Hd & _ & Hn & _).
  unfold download_image, bind. rewrite E.
  destruct Hfail as [Hg|Hall].
  - destruct (attempts_refused cfg url filepath agent
                (Z.to_nat (retries cfg)) w1) as (w' & E' & _).
    { now rewrite (goes_out_same w w1 url Hr). }
    now exists w'.
  - destruct (FetcherSpec.attempts_exhausted cfg url filepath agent
                (Z.to_nat (retries cfg)) w1) as (w' & E' & _).
    { intros i Hi. unfold reply_at. rewrite Hn. now apply Hall. }
    now exists w'.
Qed.

End ProcessorFacts.

Module ProcessorSpec.

Import TextFacts PathFacts ClassifierFacts FetcherFacts ProcessorFacts.

Lemma requests_get_reply (u : str) (params : list (string * string))
    (agent : str) (tmo status : Z) (content : list byte)
    (decoded : option json) (rest : list http_reply) (w : world) :
  sendable w u = true ->
  net w = Reply status content decoded :: rest ->
  requests_get (JStr u) params agent tmo w
  = (Ok (status, content, decoded),
     after_request {| rq_url := u; rq_params := params; rq_agent := agent;
                      rq_timeout := tmo |} w).
Proof.
  intros Hu H. unfold requests_get, after_request. rewrite Hu, H. reflexivity.
Qed.

Lemma process_run (cfg : config) (obj_id : Z) (image_dir : str) (w : world)
    (status : Z) (content : list byte) (members : list (string * json))
    (rest : list http_reply) :
  user_agents cfg <> [] ->
  net w = Reply status content (Some (JObj members)) :: rest ->
  exists agent w2,
    net w2 = rest /\ files w2 = files w /\ dirs w2 = dirs w
    /\ refuses w2 = refuses w
    /\ sent w2 = sent w ++ [object_request obj_id agent]
    /\ process_pottery_object cfg obj_id image_dir w =
       let data := JObj members in
       let image := match lookup "primaryImage" members with
                    | Some v => v
                    | None => JNull
                    end in
       if truthy image
       then match detect_historical_period cfg data with
            | Raise e => (Raise e, w2)
            | Ok (era, pname) =>
                let img_path := image_file image_dir era pname obj_id in
                match download_image cfg image img_path
                        (snd (makedirs (image_folder image_dir era pname) w2)) with
                | (Ok true, w4) =>
                    (metadata_of data obj_id (era_name era) pname img_path, w4)
                | (Ok false, w4) =>
                    (Raise (ConnectionError "Image download failed"), w4)
                | (Raise e, w4) => (Raise e, w4)
                end
            end
       else (Raise (ValueError "No primary image available"), w2).
Proof.
  intros Hne Hnet.
  destruct (agent_drawn cfg w Hne) as (agent & w1 & E & _ & _ & Hn & Hf & Hd & Hs).
  destruct (agent_keeps cfg w w1 agent E) as (Hr & _).
  assert (Hnet1 : net w1 = Reply status content (Some (JObj members)) :: rest)
    by congruence.
  exists agent, (after_request (object_request obj_id agent) w1).
  split; [simpl; now rewrite Hnet1|].
  split; [exact Hf|]. split; [exact Hd|]. split; [exact Hr|].
  split; [simpl; now rewrite Hs|].
  unfold process_pottery_object. unfold bind at 1. rewrite E.
  unfold bind at 1.
  rewrite (requests_get_reply _ _ _ _ _ _ _ _ _
             (object_url_sendable w1 obj_id) Hnet1).
  fold (object_request obj_id agent).
  set (w2 := after_request (object_request obj_id agent) w1).
  cbv zeta. unfold bind at 1. unfold json_of, ret at 1.
  unfold bind at 1. unfold lift at 1, py_get.
  destruct (truthy match lookup "primaryImage" members with
                   | Some v => v
                   | None => JNull
                   end); cbn [negb]; [|reflexivity].
  unfold bind at 1. unfold lift at 1.
  destruct (detect_historical_period cfg (JObj members)) as [[era pname]|e];
    [|reflexivity].
  unfold bind at 1.
  change (makedirs (image_folder image_dir era pname) w2)
    with (Ok tt, snd (makedirs (image_folder image_dir era pname) w2)).
  unfold bind at 1.
  destruct (download_image cfg _ _ _) as [[[|]|e] w4]; reflexivity.
Qed.

(** The eleven text fields of the record, each with the member of the
    object it is read from. *)
Definition text_projections : list (string * (metadata_record -> str)) :=
  [ ("title", title); ("culture", culture); ("period", period);
    ("objectDate", objectDate); ("objectName", objectName);
    ("classification", classification); ("medium", medium);
    ("dimensions", dimensions); ("creditLine", creditLine);
    ("country", country); ("region", region) ]%string.

(** A text field of the record is the empty string when the object has no
    such member, and the member collapsed, stripped and cut to 500
    characters when it is a string. *)
Definition normalized_field (members : list (string * json))
    (r : metadata_record) (kp : string * (metadata_record -> str)) : Prop :=
  (lookup (fst kp) members = None -> snd kp r = [])
  /\ (forall s, lookup (fst kp) members = Some (JStr s) ->
                snd kp r = firstn 500 (strip (collapse_ws s))).

(** [', '.join(parts)] as the specification words it: the parts in
    their order, with a comma and a space between one part and the next. *)
Inductive comma_joined : list str -> str -> Prop :=
| joined_none : comma_joined [] []
| joined_one (s : str) : comma_joined [s] s
| joined_more (s t : str) (rest : list str) (j : str) :
    comma_joined (t :: rest) j ->
    comma_joined (s :: t :: rest) (s ++ py ", " ++ j).

Definition tags_flattened (members : list (string * json)) (r : metadata_record)
  : Prop :=
  (lookup "tags" members = None -> tags r = [])
  /\ (forall strs,
         lookup "tags" members = Some (JArr (map JStr strs)) ->
         comma_joined strs (tags r)).

Definition public_domain_read (members : list (string * json))
    (r : metadata_record) : Prop :=
  (lookup "isPublicDomain" members = None -> isPublicDomain r = JBool false)
  /\ (forall v, lookup "isPublicDomain" members = Some v -> isPublicDomain r = v).

Definition text_or_missing (members : list (string * json)) (key : string) : Prop :=
  lookup key members = None \/ exists s, lookup key members = Some (JStr s).

(** An object as the API documents it: text members are strings, [tags]
    is a list of strings; any of them may be missing. *)
Definition well_typed (members : list (string * json)) : Prop :=
  Forall (fun kp => text_or_missing members (fst kp)) text_projections
  /\ (lookup "tags" members = None
      \/ exists strs, lookup "tags" members = Some (JArr (map JStr strs))).

Lemma strings_of_map (strs : list str) : strings_of (map JStr strs) = Ok strs.
Proof.
  induction strs as [|s strs IH]; simpl; [reflexivity|]. now rewrite IH.
Qed.

Lemma join_strs_joined (strs : list str) :
  comma_joined strs (join_strs (py ", ") strs).
Proof.
  induction strs as [|s strs IH]; [constructor|].
  destruct strs as [|t rest]; [constructor|].
  change (join_strs (py ", ") (s :: t :: rest))
    with (s ++ py ", " ++ join_strs (py ", ") (t :: rest)).
  now constructor.
Qed.

Lemma text_field_inv (members : list (string * json)) (key : string) (x : str) :
  text_field (JObj members) key = Ok x ->
  (lookup key members = None -> x = [])
  /\ (forall s, lookup key members = Some (JStr s) ->
                x = firstn 500 (strip (collapse_ws s))).
Proof.
  unfold text_field, py_get. cbn [rbind]. intros H. split.
  - intros E. rewrite E in H. cbv [normalize_text_value truthy] in H. congruence.
  - intros s E. rewrite E in H. unfold normalize_text_value in H.
    destruct s as [|c s]; simpl in H; [inversion H; reflexivity|].
    inversion H. reflexivity.
Qed.

Lemma text_field_ok (members : list (string * json)) (key : string) :
  text_or_missing members key ->
  exists x, text_field (JObj members) key = Ok x.
Proof.
  unfold text_field, py_get. cbn [rbind]. intros [E|[s E]]; rewrite E.
  - exists []. reflexivity.
  - unfold normalize_text_value. destruct (truthy (JStr s)); eexists; reflexivity.
Qed.

Lemma metadata_of_inv (members : list (string * json)) (obj_id : Z)
    (era_text pname : string) (img_path : str) (r : metadata_record) :
  metadata_of (JObj members) obj_id era_text pname img_path = Ok r ->
  Forall (normalized_field members r) text_projections
  /\ tags_flattened members r
  /\ public_domain_read members r
  /\ objectID r = obj_id
  /\ primaryImage r = match lookup "primaryImage" members with
                      | Some v => v
                      | None => JNull
                      end
  /\ era_classification r = era_text
  /\ historical_period r = pname
  /\ local_path r = img_path
  /\ source r = "MET"%string.
Proof.
  unfold metadata_of. intros H.
  repeat match type of H with
         | context [rbind (text_field ?d ?k) _] =>
             destruct (text_field d k) eqn:?; cbn [rbind] in H;
             [|discriminate H]
         end.
  unfold py_get in H. cbn [rbind] in H.
  destruct (join_tags _) as [tg|] eqn:Et; cbn [rbind] in H; [|discriminate H].
  inversion H; subst r; clear H.
  unfold tags_flattened, public_domain_read. cbn [tags isPublicDomain].
  split.
  { unfold normalized_field.
    repeat (constructor; [apply text_field_inv; assumption|]). constructor. }
  split.
  { split.
    - intros E. rewrite E in Et. cbv in Et. congruence.
    - intros strs E. rewrite E in Et. unfold join_tags in Et.
      rewrite strings_of_map in Et. cbn [rbind] in Et.
      destruct strs as [|s0 strs]; cbn [map truthy] in Et;
        inversion Et; apply join_strs_joined. }
  split.
  { split; [intros E | intros v E]; rewrite E; reflexivity. }
  repeat split.
Qed.

Lemma lowered_field_raises (d : json) (k : string) (e : exn) :
  lowered_field d k = Raise e -> e = AttributeError.
Proof.
  unfold lowered_field, py_get, py_lower.
  destruct d; cbn [rbind]; try congruence.
  destruct (lookup k members) as [[]|]; congruence.
Qed.

Lemma detect_raises (cfg : config) (d : json) (e : exn) :
  detect_historical_period cfg d = Raise e -> e = AttributeError.
Proof.
  unfold detect_historical_period, read_fields.
  repeat match goal with
         | |- context [rbind (lowered_field ?x ?k) _] =>
             let E := fresh "E" in
             destruct (lowered_field x k) eqn:E; cbn [rbind];
             [|intros H; inversion H; subst;
               exact (lowered_field_raises _ _ _ E)]
         end.
  discriminate.
Qed.

Lemma text_field_raises (members : list (string * json)) (k : string) (e : exn) :
  text_field (JObj members) k = Raise e -> e = TypeError.
Proof.
  unfold text_field, py_get, normalize_text_value. cbn [rbind].
  destruct (truthy _); [|discriminate].
  destruct (match lookup k members with Some v => v | None => JNull end);
    congruence.
Qed.

Lemma strings_of_raises (items : list json) (e : exn) :
  strings_of items = Raise e -> e = TypeError.
Proof.
  induction items as [|i items IH]; simpl; [discriminate|].
  destruct i; try congruence.
  destruct (strings_of items); cbn [rbind]; [discriminate|].
  intros H. inversion H; subst. now apply IH.
Qed.

Lemma join_tags_raises (v : json) (e : exn) :
  join_tags v = Raise e -> e = TypeError.
Proof.
  unfold join_tags. destruct (truthy v); [|discriminate].
  destruct v; try congruence.
  destruct (strings_of items) eqn:E; cbn [rbind]; [discriminate|].
  intros H. inversion H; subst. exact (strings_of_raises _ _ E).
Qed.

Lemma metadata_of_raises (members : list (string * json)) (obj_id : Z)
    (era_text pname : string) (img_path : str) (e : exn) :
  metadata_of (JObj members) obj_id era_text pname img_path = Raise e ->
  e = TypeError.
Proof.
  unfold metadata_of.
  repeat match goal with
         | |- context [rbind (text_field ?x ?k) _] =>
             let E := fresh "E" in
             destruct (text_field x k) eqn:E; cbn [rbind];
             [|intros H; inversion H; subst;
               exact (text_field_raises _ _ _ E)]
         end.
  unfold py_get. cbn [rbind].
  destruct (join_tags _) eqn:Et; cbn [rbind]; [discriminate|].
  intros H. inversion H; subst. exact (join_tags_raises _ _ Et).
Qed.

Lemma text_of_typed (members : list (string * json)) (key : string) :
  text_or_missing members key -> exists s, text_of (JObj members) key = Some s.
Proof.
  unfold text_of. intros [E|[s E]]; rewrite E; eexists; reflexivity.
Qed.

Lemma well_typed_key (members : list (string * json)) (key : string)
    (proj : metadata_record -> str) :
  well_typed members -> In (key, proj) text_projections ->
  text_or_missing members key.
Proof.
  intros [HF _] Hin. rewrite Forall_forall in HF. exact (HF _ Hin).
Qed.

Lemma well_typed_detect (cfg : config) (members : list (string * json)) :
  well_typed members ->
  exists cls, detect_historical_period cfg (JObj members) = Ok cls.
Proof.
  intros Hwt.
  destruct (text_of_typed members "title"
              (well_typed_key _ _ title Hwt ltac:(simpl; tauto))) as [t Ht].
  destruct (text_of_typed members "culture"
              (well_typed_key _ _ culture Hwt ltac:(simpl; tauto))) as [c Hc].
  destruct (text_of_typed members "period"
              (well_typed_key _ _ period Hwt ltac:(simpl; tauto))) as [p Hp].
  destruct (text_of_typed members "objectDate"
              (well_typed_key _ _ objectDate Hwt ltac:(simpl; tauto))) as [d Hd].
  eexists. exact (ClassifierSpec.detect_classify cfg _ t c p d Ht Hc Hp Hd).
Qed.

Lemma well_typed_metadata (members : list (string * json)) (obj_id : Z)
    (era_text pname : string) (img_path : str) :
  well_typed members ->
  exists r, metadata_of (JObj members) obj_id era_text pname img_path = Ok r.
Proof.
  intros Hwt. unfold metadata_of.
  repeat match goal with
         | |- context [rbind (text_field ?x ?k) _] =>
             let E := fresh "E" in
             let y := fresh "y" in
             destruct (text_field_ok members k) as [y E];
             [eapply well_typed_key; [exact Hwt | simpl; tauto]|];
             rewrite E; cbn [rbind]
         end.
  unfold py_get. cbn [rbind].
  destruct Hwt as [_ [Etag|(strs & Etag)]]; rewrite Etag.
  - eexists. reflexivity.
  - unfold join_tags. rewrite strings_of_map.
    destruct (truthy (JArr (map JStr strs))); eexists; reflexivity.
Qed.

Lemma makedirs_net (p : str) (w : world) : net (snd (makedirs p w)) = net w.
Proof. unfold makedirs. simpl. destruct (existsb _ _); reflexivity. Qed.

Lemma makedirs_world (p : str) (w : world) :
  files (snd (makedirs p w)) = files w
  /\ net (snd (makedirs p w)) = net w
  /\ existsb (str_eqb p) (dirs (snd (makedirs p w))) = true.
Proof.
  unfold makedirs. cbn [snd].
  destruct (existsb (str_eqb p) (dirs w)) eqn:E; [auto|].
  simpl. repeat split. rewrite existsb_app. simpl.
  rewrite str_eqb_refl. apply orb_true_r.
Qed.

Lemma makedirs_refuses (p : str) (w : world) :
  refuses (snd (makedirs p w)) = refuses w.
Proof. unfold makedirs. simpl. destruct (existsb _ _); reflexivity. Qed.

(** The image of an object can be written once its folder is made. *)
Lemma image_file_writable (image_dir : str) (e : era) (pname : string)
    (obj_id : Z) (w : world) :
  can_write (snd (makedirs (image_folder image_dir e pname) w))
    (image_file image_dir e pname obj_id) = true.
Proof.
  unfold image_file. destruct (image_name_real obj_id) as [Hreal Hdots].
  apply can_write_joined;
    [apply no_slash_name | exact Hreal | exact Hdots | apply makedirs_world].
Qed.

(** C9: take an object ID whose JSON has been fetched and is an object.
    [process_pottery_object] fails with "No primary image available"
    exactly when the object has no primary image (the member is missing,
    null or empty), and then only the object's JSON has been requested and
    the disk is untouched.  It fails with "Image download failed" exactly
    when the object has an image, is classified, and every attempt of the
    image fetch fails (the library refuses the value as a URL, or each of
    the [retries] replies fails).  A record it returns has every text
    field collapsed, stripped and cut to 500 characters (the empty string
    for a missing member), the tags in their order with a comma and a
    space between them, [isPublicDomain] false when it is missing, and
    the classification and the path of the image.  For an object typed as
    the API documents it there is no third way to fail: a record is
    returned exactly when there is an image and the fetch does not fail. *)
Theorem process_pottery_object_outcomes (cfg : config) (obj_id : Z)
    (image_dir : str) (w : world) (status : Z) (content : list byte)
    (members : list (string * json)) (rest : list http_reply) :
  user_agents cfg <> [] ->
  net w = Reply status content (Some (JObj members)) :: rest ->
  let image := match lookup "primaryImage" members with
               | Some v => v
               | None => JNull
               end in
  let run := process_pottery_object cfg obj_id image_dir w in
  (fst run = Raise (ValueError "No primary image available")
   <-> truthy image = false)
  /\ (truthy image = false ->
      files (snd run) = files w /\ dirs (snd run) = dirs w
      /\ net (snd run) = rest
      /\ exists agent, sent (snd run) = sent w ++ [object_request obj_id agent])
  /\ (fst run = Raise (ConnectionError "Image download failed")
      <-> truthy image = true
          /\ (exists cls, detect_historical_period cfg (JObj members) = Ok cls)
          /\ fetch_fails cfg w image rest)
  /\ (forall r, fst run = Ok r ->
        Forall (normalized_field members r) text_projections
        /\ tags_flattened members r
        /\ public_domain_read members r
        /\ objectID r = obj_id
        /\ primaryImage r = image
        /\ source r = "MET"%string
        /\ exists era pname,
             detect_historical_period cfg (JObj members) = Ok (era, pname)
             /\ era_classification r = era_name era
             /\ historical_period r = pname
             /\ local_path r = image_file image_dir era pname obj_id)
  /\ (well_typed members ->
      ((exists r, fst run = Ok r)
       <-> truthy image = true /\ ~ fetch_fails cfg w image rest)).
Proof.
  intros Hne Hnet image run.
  destruct (process_run cfg obj_id image_dir w status content members rest
              Hne Hnet) as (agent & w2 & Hn2 & Hf2 & Hd2 & Hr2 & Hs2 & Erun).
  cbv zeta in Erun. fold image in Erun. subst run. rewrite Erun. clear Erun.
  destruct (truthy image) eqn:Ht.
  2:{ cbn [fst snd].
      split; [split; reflexivity|].
      split; [intros _; repeat split; try assumption; now exists agent|].
      split; [split; [discriminate | intros [H _]; discriminate]|].
      split; [discriminate|].
      intros _. split; [intros [r H]; discriminate | intros [H _]; discriminate]. }
  destruct (detect_historical_period cfg (JObj members)) as [[era pname]|e] eqn:Ed.
  2:{ cbn [fst snd]. pose proof (detect_raises _ _ _ Ed) as He. subst e.
      split; [split; discriminate|].
      split; [discriminate|].
      split; [split; [discriminate | intros (_ & [cls H] & _); discriminate]|].
      split; [discriminate|].
      intros Hwt. destruct (well_typed_detect cfg members Hwt) as [cls H].
      rewrite Ed in H. discriminate. }
  cbv zeta.
  set (w3 := snd (makedirs (image_folder image_dir era pname) w2)).
  destruct (download_image_outcome cfg image
              (image_file image_dir era pname obj_id) w3 Hne
              (image_file_writable image_dir era pname obj_id w2))
    as (b & w4 & Ed' & Hex0).
  assert (Hex : b = false <-> fetch_fails cfg w image rest).
  { rewrite Hex0. unfold fetch_fails, w3.
    rewrite makedirs_net, Hn2.
    rewrite (goes_out_same w _ image
               (eq_trans (makedirs_refuses _ w2) Hr2)).
    reflexivity. }
  clear Hex0. rewrite Ed'.
  destruct b.
  - assert (Hnot : ~ fetch_fails cfg w image rest)
      by (intros H; apply Hex in H; discriminate).
    cbn [fst snd].
    split.
    { split; [|discriminate]. intros H.
      apply metadata_of_raises in H. discriminate. }
    split; [discriminate|].
    split.
    { split.
      - intros H. apply metadata_of_raises in H. discriminate.
      - intros (_ & _ & H). destruct (Hnot H). }
    split.
    { intros r H. apply metadata_of_inv in H.
      destruct H as (H1 & H2 & H3 & H4 & H5 & H6 & H7 & H8 & H9).
      repeat (split; [assumption|]). exists era, pname. auto. }
    intros Hwt. split; [intros _; auto|]. intros _.
    apply well_typed_metadata. exact Hwt.
  - assert (Hexh : fetch_fails cfg w image rest) by (now apply Hex).
    cbn [fst snd].
    split; [split; discriminate|].
    split; [discriminate|].
    split; [split; [intros _; repeat split; eauto | reflexivity]|].
    split; [discriminate|].
    intros _. split; [intros [r H]; discriminate | intros [_ H]; destruct (H Hexh)].
Qed.

(** An object with an image, and the world in which its JSON and then a
    body of 10 KiB come back. *)
Definition bowl : list (string * json) :=
  [ ("objectID", JNum 452849);
    ("title", JStr "  Bowl   with birds ");
    ("culture", JStr "");
    ("period", JStr "Safavid period");
    ("objectDate", JStr "17th century");
    ("tags", JArr [JStr "Birds"; JStr "Bowls"]);
    ("primaryImage", FetcherSpec.image_url) ]%string.

Definition fetched : world :=
  {| rng := [1; 2]%nat; sched := [];
     net := [ Reply 200 [] (Some (JObj bowl));
              Reply 200 (repeat x00 (Z.to_nat 10240)) None ];
     files := []; dirs := []; sent := []; slept := 0;
     refuses := no_scheme |}.

(** C9 at the bowl: it is typed as documented, it has an image and the
    first reply to the image request is large enough, so a record comes
    back; its title is collapsed and stripped, its two tags are joined,
    and the members it lacks are defaulted. *)
Lemma process_pottery_object_outcomes_witness :
  exists r,
    fst (process_pottery_object CONFIG 452849
           (py "./iran_pottery_dataset/images") fetched) = Ok r
    /\ title r = py "Bowl with birds"
    /\ culture r = []
    /\ medium r = []
    /\ tags r = py "Birds, Bowls"
    /\ isPublicDomain r = JBool false
    /\ local_path r = py "./iran_pottery_dataset/images/islamic/Safavid/452849.jpg".
Proof.
  pose proof (process_pottery_object_outcomes CONFIG 452849
                (py "./iran_pottery_dataset/images") fetched 200 [] bowl
                [ Reply 200 (repeat x00 (Z.to_nat 10240)) None ]
                ltac:(discriminate) eq_refl) as H.
  cbv zeta in H. destruct H as (_ & _ & _ & Hrec & H).
  assert (Hr : exists r,
             fst (process_pottery_object CONFIG 452849
                    (py "./iran_pottery_dataset/images") fetched) = Ok r).
  { apply H.
    - split.
      + unfold text_projections.
        repeat (constructor; [first [left; reflexivity
                                    | right; eexists; reflexivity]|]).
        constructor.
      + right. exists [py "Birds"; py "Bowls"]. reflexivity.
    - split; [reflexivity|].
      intros [Hu|Hall].
      + vm_compute in Hu. discriminate Hu.
      + specialize (Hall 0%nat ltac:(vm_compute; lia)).
        vm_compute in Hall. discriminate Hall. }
  destruct Hr as [r Er]. exists r. split; [exact Er|].
  destruct (Hrec r Er) as (Hf & [_ Htags] & [Hpub _] & _ & _ & _
                           & era & pname & Hcls & _ & _ & Hpath).
  assert (Hfield : forall kp, In kp text_projections ->
                              normalized_field bowl r kp)
    by (apply Forall_forall; exact Hf).
  split.
  { destruct (Hfield ("title"%string, title) ltac:(simpl; tauto)) as [_ Hs].
    exact (Hs _ eq_refl). }
  split.
  { destruct (Hfield ("culture"%string, culture) ltac:(simpl; tauto)) as [_ Hs].
    exact (Hs _ eq_refl). }
  split.
  { destruct (Hfield ("medium"%string, medium) ltac:(simpl; tauto)) as [Hn _].
    exact (Hn eq_refl). }
  split.
  { specialize (Htags [py "Birds"; py "Bowls"] eq_refl).
    inversion Htags as [| |s t rest j Hj]; subst.
    inversion Hj; subst. reflexivity. }
  split; [exact (Hpub eq_refl)|].
  vm_compute in Hcls. inversion Hcls; subst. exact Hpath.
Defined.

End ProcessorSpec.

(* ================================================================= *)
(** * The pipeline *)

Module PipelineFacts.

Import FetcherFacts.

(** A computation that writes no file. *)
Definition keeps_files {A} (m : M A) : Prop :=
  forall w, files (snd (m w)) = files w.

Lemma keeps_ret {A} (a : A) : keeps_files (ret a).
Proof. intros w. reflexivity. Qed.

Lemma keeps_raise {A} (e : exn) : keeps_files (@raise A e).
Proof. intros w. reflexivity. Qed.

Lemma keeps_lift {A} (r : result A) : keeps_files (lift r).
Proof. intros w. reflexivity. Qed.

Lemma keeps_bind {A B} (m : M A) (k : A -> M B) :
  keeps_files m -> (forall a, keeps_files (k a)) -> keeps_files (bind m k).
Proof.
  intros Hm Hk w. unfold bind. specialize (Hm w).
  destruct (m w) as [[a|e] w1]; simpl in *; [|exact Hm].
  rewrite (Hk a w1). exact Hm.
Qed.

Lemma keeps_try {A} (body handler : M A) :
  keeps_files body -> keeps_files handler -> keeps_files (try_except body handler).
Proof.
  intros Hb Hh w. unfold try_except. specialize (Hb w).
  destruct (body w) as [[a|e] w1]; simpl in *; [exact Hb|].
  rewrite (Hh w1). exact Hb.
Qed.

Lemma keeps_draw : keeps_files draw.
Proof. intros w. unfold draw. destruct (rng w); reflexivity. Qed.

Lemma keeps_sleep (s : Z) : keeps_files (sleep s).
Proof. intros w. reflexivity. Qed.

Lemma keeps_makedirs (p : str) : keeps_files (makedirs p).
Proof. intros w. unfold makedirs. simpl. destruct (existsb _ _); reflexivity. Qed.

Lemma keeps_requests_get (url : json) (params : list (string * string))
    (agent : str) (tmo : Z) :
  keeps_files (requests_get url params agent tmo).
Proof.
  intros w. unfold requests_get. destruct url; try reflexivity.
  destruct (sendable w s); [|reflexivity].
  destruct (net w) as [|[|]]; reflexivity.
Qed.

Lemma keeps_raise_for_status (status : Z) : keeps_files (raise_for_status status).
Proof. intros w. unfold raise_for_status. destruct (status_ok status); reflexivity. Qed.

Lemma keeps_json_of (d : option json) : keeps_files (json_of d).
Proof. intros w. destruct d; reflexivity. Qed.

Lemma keeps_agent (cfg : config) : keeps_files (get_random_user_agent cfg).
Proof.
  unfold get_random_user_agent, random_choice.
  apply keeps_bind; [|intros; apply keeps_ret].
  destruct (user_agents cfg); [apply keeps_raise|].
  apply keeps_bind; [apply keeps_draw | intros; apply keeps_ret].
Qed.

(** Goes through a computation built from the pieces above. *)
Ltac frame :=
  repeat first
    [ apply keeps_ret | apply keeps_raise | apply keeps_lift
    | apply keeps_draw | apply keeps_sleep | apply keeps_makedirs
    | apply keeps_requests_get | apply keeps_raise_for_status
    | apply keeps_json_of | apply keeps_agent
    | apply keeps_try
    | apply keeps_bind; [|intros]
    | match goal with
      | p : (_ * _)%type |- _ => destruct p
      | |- keeps_files (if ?c then _ else _) => destruct c
      | |- keeps_files (match ?c with Some _ => _ | None => _ end) => destruct c
      end ].

Lemma keeps_search_one (cfg : config) (all_ids : list Z) (q : string) :
  keeps_files (search_one cfg all_ids q).
Proof.
  unfold search_one. frame.
  match goal with
  | |- context [ids_to_add ?v] => destruct (ids_to_add v) as [ids complete]
  end.
  frame.
Qed.

Lemma keeps_discover (cfg : config) (queries : list string) (all_ids : list Z) :
  keeps_files (discover cfg all_ids queries).
Proof.
  revert all_ids; induction queries as [|q queries IH]; intros all_ids; simpl.
  - frame.
  - apply keeps_bind; [apply keeps_search_one | intros; apply IH].
Qed.

Lemma keeps_complete (n : nat) (pending : list Z) : keeps_files (complete n pending).
Proof.
  revert pending; induction n as [|n IH]; intros pending; simpl; [frame|].
  destruct pending as [|a pending]; [frame|].
  intros w.
  match goal with
  | |- files (snd (bind ?m ?k ?w')) = _ =>
      assert (H : keeps_files (bind m k))
        by (apply keeps_bind; [apply IH | intros; apply keeps_ret]);
      rewrite (H w')
  end.
  reflexivity.
Qed.

Lemma keeps_fetch_and_group (cfg : config) (obj_id : Z) :
  keeps_files (fetch_and_group cfg obj_id).
Proof. unfold fetch_and_group. frame. Qed.

Lemma keeps_group_all (cfg : config) (order : list Z) (g : groups) :
  keeps_files (group_all cfg g order).
Proof.
  revert g; induction order as [|i order IH]; intros g; simpl; [frame|].
  apply keeps_bind; [apply keeps_fetch_and_group|].
  intros [[pname j]|]; apply IH.
Qed.

(** Discovery and grouping write no file. *)
Lemma keeps_group_phase (cfg : config) : keeps_files (group_phase cfg).
Proof.
  unfold group_phase, completion_order.
  apply keeps_bind; [apply keeps_makedirs | intros _].
  apply keeps_bind; [apply keeps_makedirs | intros _].
  apply keeps_bind; [apply keeps_discover | intros all_ids].
  apply keeps_bind; [apply keeps_complete | intros order].
  apply keeps_group_all.
Qed.

(** ** The groups that the grouping builds *)

Definition no_empty_group (g : groups) : Prop :=
  Forall (fun grp => snd grp <> []) g.

Lemma setdefault_append_no_empty (g : groups) (pname : string) (obj_id : Z) :
  no_empty_group g -> no_empty_group (setdefault_append g pname obj_id).
Proof.
  unfold no_empty_group. induction g as [|[k ids] g IH]; intros H; simpl.
  - constructor; [discriminate | constructor].
  - inversion H; subst. destruct (String.eqb k pname).
    + constructor; [|assumption]. simpl. destruct ids; discriminate.
    + constructor; [assumption | now apply IH].
Qed.

Lemma group_all_no_empty (cfg : config) (order : list Z) (g g' : groups)
    (w : world) :
  no_empty_group g ->
  fst (group_all cfg g order w) = Ok g' ->
  no_empty_group g'.
Proof.
  revert g w; induction order as [|i order IH]; intros g w Hg; simpl.
  - intros H. inversion H. now subst.
  - unfold bind at 1.
    destruct (fetch_and_group cfg i w) as [[[[pname j]|]|e] w1]; simpl.
    + apply IH. now apply setdefault_append_no_empty.
    + now apply IH.
    + discriminate.
Qed.

(** Every group that reaches the sampler has a member. *)
Lemma group_phase_no_empty (cfg : config) (w : world) (g : groups) :
  fst (group_phase cfg w) = Ok g -> no_empty_group g.
Proof.
  unfold group_phase, bind.
  destruct (makedirs _ w) as [[?|?] w1]; [|discriminate].
  destruct (makedirs _ w1) as [[?|?] w2]; [|discriminate].
  destruct (discover _ _ _ w2) as [[all_ids|?] w3]; [|discriminate].
  destruct (completion_order all_ids w3) as [[order|?] w4]; [|discriminate].
  apply group_all_no_empty. constructor.
Qed.

(** ** The IDs that the grouping keeps are distinct *)

(** Whatever [m] returns satisfies [P]. *)
Definition returns {A} (P : A -> Prop) (m : M A) : Prop :=
  forall w a w', m w = (Ok a, w') -> P a.

Lemma returns_ret {A} (P : A -> Prop) (a : A) : P a -> returns P (ret a).
Proof. intros H w a' w' E. inversion E. now subst. Qed.

Lemma returns_raise {A} (P : A -> Prop) (e : exn) : returns P (raise e).
Proof. intros w a w' E. discriminate. Qed.

Lemma returns_bind {A B} (Q : A -> Prop) (P : B -> Prop) (m : M A) (k : A -> M B) :
  returns Q m -> (forall a, Q a -> returns P (k a)) -> returns P (bind m k).
Proof.
  intros Hm Hk w b w' E. unfold bind in E.
  destruct (m w) as [[a|e] w1] eqn:Em; [|discriminate].
  exact (Hk a (Hm _ _ _ Em) _ _ _ E).
Qed.

Lemma returns_bind_any {A B} (P : B -> Prop) (m : M A) (k : A -> M B) :
  (forall a, returns P (k a)) -> returns P (bind m k).
Proof.
  intros Hk. apply (returns_bind (fun _ => True)); [|auto].
  intros w a w' _. exact I.
Qed.

Lemma returns_try {A} (P : A -> Prop) (body handler : M A) :
  returns P body -> returns P handler -> returns P (try_except body handler).
Proof.
  intros Hb Hh w a w' E. unfold try_except in E.
  destruct (body w) as [[x|e] w1] eqn:Eb.
  - inversion E; subst. exact (Hb _ _ _ Eb).
  - exact (Hh _ _ _ E).
Qed.

Lemma set_update_NoDup (ids all_ids : list Z) :
  NoDup all_ids -> NoDup (set_update all_ids ids).
Proof.
  revert all_ids; induction ids as [|i ids IH]; intros all_ids H; simpl;
    [exact H|].
  apply IH. destruct (existsb (Z.eqb i) all_ids) eqn:E; [exact H|].
  apply NoDup_app; [exact H | constructor; [intros [] | constructor] |].
  intros x Hx [Hxi|[]]. subst x.
  assert (Hex : existsb (Z.eqb i) all_ids = true)
    by (apply existsb_exists; exists i; split; [exact Hx | apply Z.eqb_refl]).
  congruence.
Qed.

Lemma search_one_NoDup (cfg : config) (all_ids : list Z) (q : string) :
  NoDup all_ids -> returns (@NoDup Z) (search_one cfg all_ids q).
Proof.
  intros H. unfold search_one.
  apply returns_try; [|now apply returns_ret].
  apply returns_bind_any; intros agent.
  apply returns_bind_any; intros [[status content] decoded].
  apply returns_bind_any; intros _.
  apply returns_bind_any; intros data.
  apply returns_bind_any; intros v.
  destruct (ids_to_add v) as [ids complete].
  destruct complete.
  - apply returns_bind_any; intros _.
    apply returns_ret. now apply set_update_NoDup.
  - apply returns_ret. now apply set_update_NoDup.
Qed.

Lemma discover_NoDup (cfg : config) (queries : list string) (all_ids : list Z) :
  NoDup all_ids -> returns (@NoDup Z) (discover cfg all_ids queries).
Proof.
  revert all_ids; induction queries as [|q queries IH]; intros all_ids H; simpl.
  - now apply returns_ret.
  - apply (returns_bind (@NoDup Z)); [now apply search_one_NoDup|].
    intros a Ha. now apply IH.
Qed.

Lemma complete_perm (n : nat) (pending : list Z) :
  (len pending <= n)%nat ->
  returns (fun order => Permutation order pending) (complete n pending).
Proof.
  revert pending; induction n as [|n IH]; intros pending Hn.
  - destruct pending; [|simpl in Hn; lia]. now apply returns_ret.
  - destruct pending as [|a pending]; [now apply returns_ret|].
    intros w order w' E. cbn [complete] in E.
    set (j := ((match sched w with [] => O | d :: _ => d end)
               mod len (a :: pending))%nat) in E.
    assert (Hj : (j < len (a :: pending))%nat)
      by (apply Nat.mod_upper_bound; simpl; lia).
    assert (R : returns (fun order => Permutation order (a :: pending))
                  (bind (complete n (remove_nth j (a :: pending)))
                        (fun rest => ret (nth j (a :: pending) a :: rest)))).
    { apply returns_bind with
        (Q := fun rest => Permutation rest (remove_nth j (a :: pending))).
      - apply IH. rewrite SamplerFacts.remove_nth_len by exact Hj.
        simpl in *. lia.
      - intros rest Hrest. apply returns_ret.
        eapply Permutation_trans; [apply perm_skip; exact Hrest|].
        apply Permutation_sym, SamplerFacts.remove_nth_perm. exact Hj. }
    exact (R _ _ _ E).
Qed.

Lemma setdefault_append_perm (g : groups) (pname : string) (obj_id : Z) :
  Permutation (List.concat (map snd (setdefault_append g pname obj_id)))
              (obj_id :: List.concat (map snd g)).
Proof.
  induction g as [|[k ids] g IH]; simpl; [reflexivity|].
  destruct (String.eqb k pname); simpl.
  - rewrite <- app_assoc. simpl. symmetry. apply Permutation_middle.
  - rewrite IH. symmetry. apply Permutation_middle.
Qed.

Lemma fetch_and_group_id (cfg : config) (obj_id : Z) :
  returns (fun r => match r with
                    | Some (_, j) => j = obj_id
                    | None => True
                    end) (fetch_and_group cfg obj_id).
Proof.
  unfold fetch_and_group.
  apply returns_try; [|now apply returns_ret].
  apply returns_bind_any; intros agent.
  apply returns_bind_any; intros [[status content] decoded].
  apply returns_bind_any; intros data.
  apply returns_bind_any; intros cls.
  now apply returns_ret.
Qed.

Lemma group_all_distinct (cfg : config) (order : list Z) (g : groups) :
  NoDup (List.concat (map snd g) ++ order) ->
  returns (fun g' => NoDup (List.concat (map snd g'))) (group_all cfg g order).
Proof.
  revert g; induction order as [|i order IH]; intros g H; simpl.
  - apply returns_ret. now rewrite app_nil_r in H.
  - eapply returns_bind; [apply fetch_and_group_id|].
    intros [[pname j]|] Hr.
    + subst j. apply IH.
      eapply Permutation_NoDup; [|exact H].
      rewrite setdefault_append_perm. simpl. symmetry. apply Permutation_middle.
    + apply IH. exact (NoDup_remove_1 _ _ _ H).
Qed.

Lemma group_phase_returns_distinct (cfg : config) :
  returns (fun g => NoDup (List.concat (map snd g))) (group_phase cfg).
Proof.
  unfold group_phase, completion_order.
  apply returns_bind_any; intros _.
  apply returns_bind_any; intros _.
  apply (returns_bind (@NoDup Z)); [apply discover_NoDup; constructor|].
  intros all_ids Hall.
  apply (returns_bind (fun order => Permutation order all_ids));
    [now apply complete_perm|].
  intros order Hperm. apply group_all_distinct. simpl.
  exact (Permutation_NoDup (Permutation_sym Hperm) Hall).
Qed.

(** No ID stands in two places of the family that reaches the sampler:
    the IDs come out of a set, and each goes to one group. *)
Lemma group_phase_distinct (cfg : config) (w : world) (g : groups) :
  fst (group_phase cfg w) = Ok g -> NoDup (List.concat (map snd g)).
Proof.
  intros H. destruct (group_phase cfg w) as [r w'] eqn:E. simpl in H. subst r.
  exact (group_phase_returns_distinct cfg _ _ _ E).
Qed.

End PipelineFacts.

Module PipelineSpec.

Import PathFacts FetcherFacts PipelineFacts.

(** A world in which the first search finds two objects and nothing
    answers after that. *)
Definition two_ids_then_down : world :=
  {| rng := [0; 1; 2]%nat; sched := [1; 0]%nat;
     net := [ Reply 200 []
                (Some (JObj [ ("total"%string, JNum 2);
                              ("objectIDs"%string,
                               JArr [JNum 452849; JNum 451725]) ])) ];
     files := []; dirs := []; sent := []; slept := 0;
     refuses := no_scheme |}.

(** The folder of the dataset is made before a metadata file is opened
    in it. *)
Lemma metadata_file_writable (cfg : config) (name : string) (w : world) :
  no_slash (py name) /\ real_part (py name) = true
  /\ str_eqb (py name) (py "..") = false ->
  can_write (snd (makedirs (dataset_path cfg) w))
    (path_join (dataset_path cfg) (py name)) = true.
Proof.
  intros (Hs & Hr & Hd).
  apply can_write_joined; [exact Hs | exact Hr | exact Hd|].
  apply ProcessorSpec.makedirs_world.
Qed.

(** [save_metadata] step by step: the folder, the JSON dump, and the CSV
    when there is a record. *)
Lemma save_metadata_run (cfg : config) (metadata : list metadata_record)
    (w : world) :
  save_metadata cfg metadata w =
  let w1 := snd (makedirs (dataset_path cfg) w) in
  let w2 := with_files
              (put_file (path_join (dataset_path cfg) metadata_json)
                 (JsonDump metadata) (files w1)) w1 in
  match metadata with
  | [] => (Ok tt, w2)
  | _ :: _ =>
      if known_keys (metadata_fields cfg)
      then (Ok tt,
            with_files
              (put_file (path_join (dataset_path cfg) metadata_csv)
                 (CsvDump (metadata_fields cfg) metadata) (files w2)) w2)
      else (Raise (ValueError "dict contains fields not in fieldnames"),
            with_files
              (put_file (path_join (dataset_path cfg) metadata_csv)
                 (CsvDump (metadata_fields cfg) []) (files w2)) w2)
  end.
Proof.
  cbv zeta. unfold save_metadata. unfold bind at 1.
  pose proof (metadata_file_writable cfg metadata_json w
                ltac:(repeat split; reflexivity)) as Hj.
  pose proof (metadata_file_writable cfg metadata_csv w
                ltac:(repeat split; reflexivity)) as Hc.
  destruct (makedirs (dataset_path cfg) w) as [[[]|e] w1] eqn:Em;
    [|unfold makedirs in Em; discriminate Em].
  cbn [snd] in *.
  unfold bind at 1. unfold write_file at 1. rewrite Hj.
  destruct metadata as [|r metadata]; [reflexivity|].
  destruct (known_keys (metadata_fields cfg)).
  - unfold write_file.
    rewrite (can_write_same w1 (with_files _ w1)) by reflexivity.
    now rewrite Hc.
  - unfold bind, write_file.
    rewrite (can_write_same w1 (with_files _ w1)) by reflexivity.
    now rewrite Hc.
Qed.

(** Had the pipeline reached the writer with no record, the JSON dump of
    the empty list would be on disk. *)
Lemma save_metadata_empty (cfg : config) (w : world) :
  fst (save_metadata cfg [] w) = Ok tt
  /\ get_file (path_join (dataset_path cfg) metadata_json)
       (files (snd (save_metadata cfg [] w)))
     = Some (JsonDump []).
Proof.
  rewrite save_metadata_run. cbv zeta. split; [reflexivity|].
  cbn [snd files with_files]. apply get_file_put.
Qed.

(** Two objects are discovered and neither can be fetched: no group, and
    the run ends in the exception of [min]. *)
Lemma every_fetch_fails :
  fst (group_phase CONFIG two_ids_then_down) = Ok []
  /\ fst (download_iran_pottery CONFIG two_ids_then_down)
     = Raise (ValueError "min() arg is an empty sequence")
  /\ files (snd (download_iran_pottery CONFIG two_ids_then_down)) = [].
Proof. vm_compute. repeat split; reflexivity. Qed.

(** An object of the Safavid period with an image. *)
Definition safavid_object (name : string) : json :=
  JObj [ ("title"%string, JStr name);
         ("period"%string, JStr "Safavid"%string);
         ("primaryImage"%string, FetcherSpec.image_url);
         ("tags"%string, JNull) ].

Definition image_reply : http_reply :=
  Reply 200 (repeat x00 (Z.to_nat 10240)) None.

(** A run in which the first search finds three objects, all of them
    Safavid; of the two that are sampled, one image arrives at once and
    the other after a broken transfer and a body of ten bytes. *)
Definition three_safavid : world :=
  {| rng := [0; 1; 2; 1; 0; 2; 1]%nat; sched := [2; 0; 1; 1; 0]%nat;
     net := [ Reply 200 []
                (Some (JObj [ ("objectIDs"%string,
                               JArr [JNum 11; JNum 22; JNum 33]) ])) ]
            ++ repeat TransportError 15
            ++ [ Reply 200 [] (Some (safavid_object "Bowl"));
                 Reply 200 [] (Some (safavid_object "Dish"));
                 Reply 200 [] (Some (safavid_object "Tile")) ]
            ++ [ Reply 200 [] (Some (safavid_object "  Bowl   with birds "));
                 image_reply;
                 Reply 200 [] (Some (safavid_object "Tile"));
                 TransportError; Reply 200 (repeat x00 10) None; image_reply ];
     files := []; dirs := []; sent := []; slept := 0;
     refuses := no_scheme |}.

(** With a cap of two images, two of the three objects of the one group
    are sampled, both are downloaded, and the JSON dump holds their two
    records. *)
Example three_safavid_cap_two :
  fst (group_phase (SamplerSpec.cap_of 2) three_safavid)
  = Ok [ ("Safavid"%string, [33; 11; 22]%Z) ]
  /\ fst (download_iran_pottery (SamplerSpec.cap_of 2) three_safavid) = Ok tt
  /\ map (fun f => string_of_list_ascii (fst f))
         (files (snd (download_iran_pottery (SamplerSpec.cap_of 2) three_safavid)))
     = [ "./iran_pottery_dataset/images/islamic/Safavid/11.jpg";
         "./iran_pottery_dataset/images/islamic/Safavid/33.jpg";
         "./iran_pottery_dataset/iran_pottery_metadata.json";
         "./iran_pottery_dataset/iran_pottery_metadata.csv" ]%string
  /\ match get_file (path_join (dataset_path CONFIG) metadata_json)
            (files (snd (download_iran_pottery (SamplerSpec.cap_of 2)
                           three_safavid))) with
     | Some (JsonDump records) =>
         map (fun r => (objectID r, string_of_list_ascii (title r))) records
     | _ => []
     end = [ (11%Z, "Bowl with birds"%string); (33%Z, "Tile"%string) ].
Proof. vm_compute. repeat split; reflexivity. Qed.

(** A family that the grouping built and that has a group has a group
    with a member: the sampler's quota is defined for it. *)
Lemma group_phase_has_member (cfg : config) (w : world) (g : groups) :
  fst (group_phase cfg w) = Ok g -> g <> [] ->
  SamplerSpec.has_nonempty_group g.
Proof.
  intros Hg Hne. apply group_phase_no_empty in Hg.
  destruct g as [|[name ids] g]; [congruence|].
  inversion Hg; subst. exists name, ids. split; [now left | assumption].
Qed.

(** C10: when the grouping ends with no group at all, the sampling step
    raises the [ValueError] of [min] over an empty sequence; nothing
    handles it, so [download_iran_pottery] ends there, in the world the
    grouping left, and the files on disk are those from before the run:
    neither metadata file is written. *)
Theorem no_groups_no_metadata (cfg : config) (w : world) :
  fst (group_phase cfg w) = Ok [] ->
  download_iran_pottery cfg w
  = (Raise (ValueError "min() arg is an empty sequence"),
     snd (group_phase cfg w))
  /\ files (snd (download_iran_pottery cfg w)) = files w
  /\ get_file (path_join (dataset_path cfg) metadata_json)
       (files (snd (download_iran_pottery cfg w)))
     = get_file (path_join (dataset_path cfg) metadata_json) (files w)
  /\ get_file (path_join (dataset_path cfg) metadata_csv)
       (files (snd (download_iran_pottery cfg w)))
     = get_file (path_join (dataset_path cfg) metadata_csv) (files w).
Proof.
  intros Hg.
  assert (E : download_iran_pottery cfg w
              = (Raise (ValueError "min() arg is an empty sequence"),
                 snd (group_phase cfg w))).
  { unfold download_iran_pottery. unfold bind at 1.
    destruct (group_phase cfg w) as [r w1]. simpl in Hg. subst r.
    reflexivity. }
  assert (F : files (snd (download_iran_pottery cfg w)) = files w).
  { rewrite E. simpl. apply keeps_group_phase. }
  split; [exact E|]. split; [exact F|]. rewrite F. split; reflexivity.
Qed.

(** C10 with the network down: every search fails, no ID is discovered,
    and the run ends in the exception. *)
Lemma no_groups_no_metadata_witness :
  download_iran_pottery CONFIG FetcherSpec.offline
  = (Raise (ValueError "min() arg is an empty sequence"),
     snd (group_phase CONFIG FetcherSpec.offline))
  /\ files (snd (download_iran_pottery CONFIG FetcherSpec.offline))
     = files FetcherSpec.offline
  /\ get_file (path_join (dataset_path CONFIG) metadata_json)
       (files (snd (download_iran_pottery CONFIG FetcherSpec.offline)))
     = get_file (path_join (dataset_path CONFIG) metadata_json)
         (files FetcherSpec.offline)
  /\ get_file (path_join (dataset_path CONFIG) metadata_csv)
       (files (snd (download_iran_pottery CONFIG FetcherSpec.offline)))
     = get_file (path_join (dataset_path CONFIG) metadata_csv)
         (files FetcherSpec.offline).
Proof.
  apply (no_groups_no_metadata CONFIG FetcherSpec.offline).
  vm_compute. reflexivity.
Defined.

End PipelineSpec.

(* ================================================================= *)
(** * More on normalize_text *)

Module NormalizeMore.

Import TextFacts NormalizeText.

(** The characters of a string that are not whitespace, in order. *)
Definition solid (s : str) : str := filter (fun c => negb (is_space c)) s.

Lemma solid_sub_ws (b : bool) (s : str) : solid (sub_ws b s) = solid s.
Proof.
  unfold solid. revert b; induction s as [|c s IH]; intros b; [reflexivity|].
  cbn [sub_ws filter]. destruct (is_space c) eqn:Hc; cbn [negb].
  - destruct b; [apply IH|].
    cbn [filter]. rewrite is_space_space. cbn [negb]. apply IH.
  - cbn [filter]. rewrite Hc. cbn [negb]. f_equal. apply IH.
Qed.

Lemma solid_lstrip (s : str) : solid (lstrip s) = solid s.
Proof.
  unfold solid. induction s as [|c s IH]; [reflexivity|].
  cbn [lstrip filter]. destruct (is_space c) eqn:Hc; cbn [negb]; [exact IH|].
  cbn [filter]. now rewrite Hc.
Qed.

Lemma solid_rstrip (s : str) : solid (rstrip s) = solid s.
Proof.
  unfold solid. induction s as [|c s IH]; [reflexivity|].
  cbn [rstrip filter]. destruct (rstrip s) as [|d r].
  - rewrite <- IH. destruct (is_space c) eqn:Hc; cbn [negb filter];
      [reflexivity | now rewrite Hc].
  - rewrite <- IH. reflexivity.
Qed.

Lemma solid_stripped (s : str) : solid (strip (collapse_ws s)) = solid s.
Proof.
  unfold strip, collapse_ws.
  now rewrite solid_rstrip, solid_lstrip, solid_sub_ws.
Qed.

Lemma solid_nil (s : str) : solid s = [] <-> forallb is_space s = true.
Proof.
  unfold solid. induction s as [|c s IH]; [simpl; tauto|].
  cbn [filter forallb]. destruct (is_space c); cbn [negb andb].
  - exact IH.
  - split; discriminate.
Qed.

(** X1: [normalize_text] returns the empty string exactly for the strings
    made of whitespace only (the empty string among them). *)
Theorem normalize_text_empty_iff (s : str) :
  normalize_text s = [] <-> forallb is_space s = true.
Proof.
  rewrite normalize_text_unfold, <- solid_nil, <- (solid_stripped s).
  destruct (stripped_shape s) as (_ & Hhd & _).
  destruct (strip (collapse_ws s)) as [|c t]; [simpl; tauto|].
  simpl in Hhd. split; [discriminate|].
  unfold solid. cbn [filter]. rewrite Hhd. discriminate.
Qed.

(** X2: [normalize_text] keeps the characters that are not whitespace, and
    their order: those of the input are those of the output followed by
    those of what the cut at 500 characters drops (nothing, when the
    collapsed and stripped text has at most 500 characters). *)
Theorem normalize_text_keeps_solid (s : str) :
  solid s
  = solid (normalize_text s) ++ solid (skipn 500 (strip (collapse_ws s))).
Proof.
  rewrite normalize_text_unfold, <- (solid_stripped s).
  unfold solid. rewrite <- filter_app. now rewrite firstn_skipn.
Qed.

End NormalizeMore.

(* ================================================================= *)
(** * More on the classifier *)

Module ClassifierMore.

Import TextFacts ClassifierFacts.

(** The members the classifier reads. *)
Definition classifier_keys : list string :=
  [ "title"; "culture"; "period"; "objectDate" ]%string.

Lemma lowered_field_by_text (obj_data : json) (key : string) :
  lowered_field obj_data key
  = match text_of obj_data key with
    | Some s => Ok (lower s)
    | None => Raise AttributeError
    end.
Proof.
  unfold lowered_field, text_of, py_get, py_lower.
  destruct obj_data; try reflexivity. cbn [rbind].
  destruct (lookup key members) as [[]|]; reflexivity.
Qed.

(** X3: [detect_historical_period] raises [AttributeError] exactly when
    the record is not a JSON object or one of its members title, culture,
    period and objectDate is present without being a string (null, for
    one); it raises nothing else, and returns a classification in every
    other case. *)
Theorem detect_historical_period_raises (cfg : config) (obj_data : json) :
  (detect_historical_period cfg obj_data = Raise AttributeError
   <-> exists key, In key classifier_keys /\ text_of obj_data key = None)
  /\ ((exists r, detect_historical_period cfg obj_data = Ok r)
      <-> forall key, In key classifier_keys -> text_of obj_data key <> None)
  /\ forall e, detect_historical_period cfg obj_data = Raise e ->
                e = AttributeError.
Proof.
  unfold detect_historical_period, read_fields, classifier_keys.
  rewrite !lowered_field_by_text.
  destruct (text_of obj_data "title") as [t|] eqn:Et;
    destruct (text_of obj_data "culture") as [c|] eqn:Ec;
    destruct (text_of obj_data "period") as [p|] eqn:Ep;
    destruct (text_of obj_data "objectDate") as [d|] eqn:Ed;
    cbn [rbind].
  all: split; [|split].
  all: try (intros e H; congruence).
  all: try (split;
            [ first [ discriminate
                    | intros _; first
                        [ exists "title"%string; split; [simpl; tauto | assumption]
                        | exists "culture"%string; split; [simpl; tauto | assumption]
                        | exists "period"%string; split; [simpl; tauto | assumption]
                        | exists "objectDate"%string; split; [simpl; tauto | assumption] ] ]
            | first [ reflexivity
                    | intros (key & Hin & Hk); simpl in Hin;
                      destruct Hin as [<-|[<-|[<-|[<-|[]]]]]; congruence ] ]).
  all: split;
    [ first [ intros [r H]; discriminate
            | intros _ key Hin; simpl in Hin;
              destruct Hin as [<-|[<-|[<-|[<-|[]]]]]; congruence ]
    | first [ intros _; eexists; reflexivity
            | intros H; exfalso;
              first [ apply (H "title"%string); [simpl; tauto | assumption]
                    | apply (H "culture"%string); [simpl; tauto | assumption]
                    | apply (H "period"%string); [simpl; tauto | assumption]
                    | apply (H "objectDate"%string); [simpl; tauto | assumption] ] ] ].
Qed.

Lemma scan_in (f : fields) (keywords : list string) (k : string) :
  scan f keywords = Some k -> In k keywords.
Proof.
  induction keywords as [|x kws IH]; simpl; [discriminate|].
  destruct (keyword_hit f x).
  - intros E. inversion E. now left.
  - intros E. right. now apply IH.
Qed.

(** X4: whatever the record, a classification that comes back pairs
    [pre_islamic] with a pre-Islamic keyword of the table or
    "Ancient Iran", [islamic] with an Islamic keyword of the table or
    "Islamic Period", and [unknown] with "Unknown": the era and the
    sub-period never disagree, and the sub-period is never a string from
    the record. *)
Theorem detect_historical_period_vocabulary (cfg : config) (obj_data : json)
    (e : era) (name : string) :
  detect_historical_period cfg obj_data = Ok (e, name) ->
  (e = pre_islamic
   /\ (In name (pre_islamic_keywords cfg) \/ name = "Ancient Iran"%string))
  \/ (e = islamic
      /\ (In name (islamic_keywords cfg) \/ name = "Islamic Period"%string))
  \/ (e = unknown /\ name = "Unknown"%string).
Proof.
  unfold detect_historical_period.
  destruct (read_fields obj_data) as [f|]; cbn [rbind]; [|discriminate].
  unfold classify.
  destruct (scan f (pre_islamic_keywords cfg)) as [k|] eqn:Epre.
  { intros H. inversion H; subst. left. split; [reflexivity|].
    left. exact (scan_in _ _ _ Epre). }
  destruct (scan f (islamic_keywords cfg)) as [k|] eqn:Eisl.
  { intros H. inversion H; subst. right. left. split; [reflexivity|].
    left. exact (scan_in _ _ _ Eisl). }
  destruct (any_in bc_markers (f_object_date f)).
  { intros H. inversion H; subst. left. auto. }
  destruct (any_in ad_markers (f_object_date f)).
  { intros H. inversion H; subst. right. left. auto. }
  intros H. inversion H; subst. right. right. auto.
Qed.

Lemma detect_historical_period_vocabulary_witness :
  (islamic = pre_islamic
   /\ (In "Safavid"%string (pre_islamic_keywords CONFIG)
       \/ "Safavid"%string = "Ancient Iran"%string))
  \/ (islamic = islamic
      /\ (In "Safavid"%string (islamic_keywords CONFIG)
          \/ "Safavid"%string = "Islamic Period"%string))
  \/ (islamic = unknown /\ "Safavid"%string = "Unknown"%string).
Proof.
  apply (detect_historical_period_vocabulary CONFIG
           (record_of "Tile" "Iran" "Safavid period" "17th century")).
  reflexivity.
Defined.

End ClassifierMore.

(* ================================================================= *)
(** * More on the fetcher *)

Module FetcherMore.

Import TextFacts FetcherFacts.

(** X5: [get_random_user_agent] raises [IndexError], drawing nothing, when
    the list of agents is empty; otherwise it returns one of the configured
    agents and takes one number from the random source. *)
Theorem get_random_user_agent_member (cfg : config) (w : world) :
  match user_agents cfg with
  | [] => get_random_user_agent cfg w = (Raise IndexError, w)
  | _ :: _ =>
      exists agent,
        fst (get_random_user_agent cfg w) = Ok agent
        /\ In agent (map py (user_agents cfg))
        /\ rng (snd (get_random_user_agent cfg w)) = tl (rng w)
  end.
Proof.
  destruct (user_agents cfg) as [|a l] eqn:E.
  - unfold get_random_user_agent. rewrite E. reflexivity.
  - destruct (agent_drawn cfg w) as (agent & w1 & Ea & Hin & Hr & _);
      [congruence|].
    exists agent. rewrite Ea, <- E. auto.
Qed.

(** An attempt that ends in the [except] branch. *)
Definition reply_raises (r : http_reply) : bool :=
  match r with
  | TransportError => true
  | Reply status _ _ => negb (status_ok status)
  end.

(** The seconds slept over [n] failed attempts that get [replies]. *)
Fixpoint delay (replies : list http_reply) (n : nat) : Z :=
  match n with
  | O => 0%Z
  | S k =>
      ((if reply_raises (hd TransportError replies) then 2 else 0)
       + delay (tl replies) k)%Z
  end.

(** A world in which the image arrives at the third attempt, after a
    broken transfer and a body of ten bytes; the folder of the image is
    in place. *)
Definition slow_image : world :=
  {| rng := [1]%nat; sched := [];
     net := [ TransportError; Reply 200 (repeat x00 10) None;
              Reply 200 (repeat x00 (Z.to_nat 10240)) None;
              Reply 200 [] None ];
     files := []; dirs := [ FetcherSpec.safavid_folder ]; sent := [];
     slept := 0;
     refuses := no_scheme |}.

(** A failed turn on a URL that is sent, in full. *)
Lemma attempt_fails_string (cfg : config) (u filepath agent : str) (w : world) :
  sendable w u = true ->
  reply_fails (reply_at w 0) = true ->
  exists w1,
    attempt cfg (JStr u) filepath agent w = (Ok false, w1)
    /\ net w1 = tl (net w) /\ files w1 = files w /\ dirs w1 = dirs w
    /\ rng w1 = rng w
    /\ sent w1 = sent w ++ [image_request cfg u agent]
    /\ slept w1
       = (slept w + (if reply_raises (reply_at w 0) then 2 else 0))%Z.
Proof.
  intros Hu Hf. rewrite attempt_string, Hu. cbv zeta.
  destruct (reply_at w 0) as [|status content decoded]; simpl in Hf.
  - eexists. split; [reflexivity|]. simpl. repeat split.
  - unfold reply_raises. destruct (status_ok status); simpl in Hf.
    + change (10 * 1024)%Z with 10240%Z. rewrite Hf.
      eexists. split; [reflexivity|]. simpl. repeat split. lia.
    + eexists. split; [reflexivity|]. simpl. repeat split.
Qed.

Lemma hd_reply_at (w : world) : hd TransportError (net w) = reply_at w 0.
Proof. unfold reply_at. destruct (net w); reflexivity. Qed.

Lemma skipn_tl {A} (n : nat) (l : list A) : skipn n (tl l) = skipn (S n) l.
Proof. destruct l; [now rewrite skipn_nil | reflexivity]. Qed.

Lemma attempt_keeps (cfg : config) (url : json) (filepath agent : str)
    (w w1 : world) (b : bool) :
  attempt cfg url filepath agent w = (Ok b, w1) ->
  refuses w1 = refuses w /\ dirs w1 = dirs w.
Proof.
  destruct (goes_out w url) eqn:Hg.
  2:{ rewrite (attempt_refused _ _ _ _ _ Hg). intros H; inversion H. auto. }
  destruct url as [| | |u| |]; try discriminate Hg. simpl in Hg.
  rewrite attempt_string, Hg. cbv zeta.
  destruct (reply_at w 0) as [|status content decoded];
    [|destruct (status_ok status);
      [destruct (Z.of_nat (len content) <? 10 * 1024)%Z;
       [|destruct (can_write w filepath)]|]];
    intros H; inversion H; auto.
Qed.

Lemma attempts_first_success (cfg : config) (u filepath agent : str)
    (i n : nat) (w : world) (status : Z) (content : list byte)
    (decoded : option json) :
  sendable w u = true ->
  can_write w filepath = true ->
  (i < n)%nat ->
  (forall j, (j < i)%nat -> reply_fails (reply_at w j) = true) ->
  reply_at w i = Reply status content decoded ->
  reply_fails (reply_at w i) = false ->
  exists w',
    attempts n cfg (JStr u) filepath agent w = (Ok true, w')
    /\ files w' = put_file filepath (Bytes content) (files w)
    /\ net w' = skipn (S i) (net w)
    /\ sent w' = sent w ++ repeat (image_request cfg u agent) (S i)
    /\ dirs w' = dirs w.
Proof.
  revert n w; induction i as [|i IH]; intros n w Hu Hp Hn Hbefore Hi Hok;
    (destruct n as [|n]; [lia|]); cbn [attempts]; unfold bind at 1.
  - rewrite attempt_string, Hu, Hp. cbv zeta. rewrite Hi in *.
    simpl in Hok. apply orb_false_iff in Hok. destruct Hok as [Hs Hl].
    apply negb_false_iff in Hs. rewrite Hs.
    change (10 * 1024)%Z with 10240%Z. rewrite Hl.
    eexists. split; [reflexivity|]. simpl.
    repeat split; destruct (net w); reflexivity.
  - destruct (attempt_fails_string cfg u filepath agent w Hu
                (Hbefore 0%nat ltac:(lia)))
      as (w1 & E1 & Hn1 & Hf1 & Hd1 & _ & Hs1 & _).
    rewrite E1.
    destruct (attempt_keeps _ _ _ _ _ _ _ E1) as [Hr1 _].
    destruct (IH n w1) as (w' & E' & Hf' & Hn' & Hs' & Hd').
    + now rewrite (sendable_same w w1 u Hr1).
    + now rewrite (can_write_same w w1 filepath Hd1).
    + lia.
    + intros j Hj. rewrite (reply_at_tail w w1 j Hn1). apply Hbefore. lia.
    + now rewrite (reply_at_tail w w1 i Hn1).
    + now rewrite (reply_at_tail w w1 i Hn1).
    + exists w'. split; [exact E'|].
      rewrite Hf', Hf1, Hn', Hn1, Hs', Hs1, Hd', Hd1, skipn_tl.
      repeat split. rewrite <- app_assoc. reflexivity.
Qed.

(** X6: the first reply that passes the status and size checks ends the
    call.  Take a URL that the library sends and a destination whose
    folder is there.  When the replies before the [i]-th fail, and the
    [i]-th, within the [retries], has a good status and at least 10240
    bytes, [download_image] returns [True], the destination file holds
    that body, [i + 1] requests have gone out with one and the same
    header, and the replies after the [i]-th are left for whoever asks
    next. *)
Theorem download_image_first_success (cfg : config) (u filepath : str)
    (w : world) (i : nat) (status : Z) (content : list byte)
    (decoded : option json) :
  user_agents cfg <> [] ->
  sendable w u = true ->
  can_write w filepath = true ->
  (i < Z.to_nat (retries cfg))%nat ->
  (forall j, (j < i)%nat -> reply_fails (reply_at w j) = true) ->
  reply_at w i = Reply status content decoded ->
  status_ok status = true ->
  (10240 <= Z.of_nat (len content))%Z ->
  exists w' agent,
    download_image cfg (JStr u) filepath w = (Ok true, w')
    /\ get_file filepath (files w') = Some (Bytes content)
    /\ files w' = put_file filepath (Bytes content) (files w)
    /\ net w' = skipn (S i) (net w)
    /\ sent w' = sent w ++ repeat (image_request cfg u agent) (S i)
    /\ dirs w' = dirs w.
Proof.
  intros Hne Hu Hp Hi Hbefore Hrep Hst Hlen.
  destruct (agent_drawn cfg w Hne) as (agent & w1 & E & _ & _ & Hn & Hf & Hd & Hs).
  destruct (agent_keeps cfg w w1 agent E) as (Hr & _).
  assert (Hat : forall j, reply_at w1 j = reply_at w j)
    by (intros j; unfold reply_at; now rewrite Hn).
  destruct (attempts_first_success cfg u filepath agent i
              (Z.to_nat (retries cfg)) w1 status content decoded)
    as (w' & E' & Hf' & Hn' & Hs' & Hd').
  - now rewrite (sendable_same w w1 u Hr).
  - now rewrite (can_write_same w w1 filepath Hd).
  - exact Hi.
  - intros j Hj. rewrite Hat. now apply Hbefore.
  - now rewrite Hat.
  - rewrite Hat, Hrep. simpl. rewrite Hst. simpl. apply Z.ltb_ge. exact Hlen.
  - exists w', agent. unfold download_image, bind. rewrite E.
    split; [exact E'|]. rewrite Hf', Hf, Hn', Hn, Hs', Hs, Hd', Hd.
    repeat split. apply get_file_put.
Qed.

Lemma download_image_first_success_witness :
  exists w' agent,
    download_image CONFIG
      (JStr (py "https://images.metmuseum.org/CRDImages/is/original/DP170374.jpg"))
      FetcherSpec.image_path slow_image = (Ok true, w')
    /\ get_file FetcherSpec.image_path (files w')
       = Some (Bytes (repeat x00 (Z.to_nat 10240)))
    /\ files w'
       = put_file FetcherSpec.image_path (Bytes (repeat x00 (Z.to_nat 10240)))
           (files slow_image)
    /\ net w' = skipn 3 (net slow_image)
    /\ sent w'
       = sent slow_image
         ++ repeat (image_request CONFIG
                      (py "https://images.metmuseum.org/CRDImages/is/original/DP170374.jpg")
                      agent) 3
    /\ dirs w' = dirs slow_image.
Proof.
  apply (download_image_first_success CONFIG _ _ _ 2 200 _ None).
  - discriminate.
  - reflexivity.
  - reflexivity.
  - vm_compute. lia.
  - intros j Hj. do 2 (destruct j as [|j]; [reflexivity|]). lia.
  - reflexivity.
  - reflexivity.
  - rewrite repeat_length. vm_compute. discriminate.
Defined.

Lemma get_file_put_other (q p : str) (c : file_content)
    (fs : list (str * file_content)) :
  str_eqb q p = false -> get_file p (put_file q c fs) = get_file p fs.
Proof.
  intros Hqp. induction fs as [|[k old] fs IH]; simpl.
  - now rewrite Hqp.
  - destruct (str_eqb k q) eqn:Ekq; simpl.
    + apply str_eqb_eq in Ekq. subst k. now rewrite Hqp.
    + destruct (str_eqb k p); [reflexivity | exact IH].
Qed.

Lemma reply_at_in (w : world) (status : Z) (content : list byte)
    (decoded : option json) :
  reply_at w 0 = Reply status content decoded ->
  In (Reply status content decoded) (net w).
Proof.
  unfold reply_at. destruct (net w); simpl; [discriminate | now left].
Qed.

(** What a body on disk went through. *)
Definition accepted_from (replies : list http_reply) (content : list byte) : Prop :=
  exists status decoded,
    In (Reply status content decoded) replies
    /\ status_ok status = true
    /\ (10240 <= Z.of_nat (len content))%Z.

Lemma attempt_disk (cfg : config) (url : json) (filepath agent : str) (w : world) :
  exists b w',
    attempt cfg url filepath agent w = (Ok b, w')
    /\ dirs w' = dirs w
    /\ (exists k, net w' = skipn k (net w))
    /\ (b = false -> files w' = files w)
    /\ (b = true ->
        exists content,
          accepted_from (net w) content
          /\ files w' = put_file filepath (Bytes content) (files w)).
Proof.
  destruct (goes_out w url) eqn:Hg.
  2:{ rewrite (attempt_refused _ _ _ _ _ Hg).
      exists false, (after_sleep 2 w); split; [reflexivity|];
        split; [reflexivity|]; split; [now exists 0%nat|];
        split; [reflexivity | discriminate]. }
  destruct url as [| | |u| |]; try discriminate Hg. simpl in Hg.
  rewrite attempt_string, Hg. cbv zeta.
  destruct (reply_at w 0) as [|status content decoded] eqn:E0.
  - eexists. eexists. split; [reflexivity|]. simpl.
    split; [reflexivity|]. split; [exists 1%nat; now destruct (net w)|].
    split; [reflexivity | discriminate].
  - destruct (status_ok status) eqn:Hs.
    + change (10 * 1024)%Z with 10240%Z.
      destruct (Z.ltb_spec (Z.of_nat (len content)) 10240) as [Hlt|Hge].
      * eexists. eexists. split; [reflexivity|]. simpl.
        split; [reflexivity|]. split; [exists 1%nat; now destruct (net w)|].
        split; [reflexivity | discriminate].
      * destruct (can_write w filepath).
        -- eexists. eexists. split; [reflexivity|]. simpl.
           split; [reflexivity|]. split; [exists 1%nat; now destruct (net w)|].
           split; [discriminate|]. intros _. exists content.
           split; [|reflexivity]. exists status, decoded.
           split; [now apply reply_at_in | auto].
        -- eexists. eexists. split; [reflexivity|]. simpl.
           split; [reflexivity|]. split; [exists 1%nat; now destruct (net w)|].
           split; [reflexivity | discriminate].
    + eexists. eexists. split; [reflexivity|]. simpl.
      split; [reflexivity|]. split; [exists 1%nat; now destruct (net w)|].
      split; [reflexivity | discriminate].
Qed.

Lemma in_skipn {A} (k : nat) (l : list A) (x : A) : In x (skipn k l) -> In x l.
Proof.
  intros H. rewrite <- (firstn_skipn k l). apply in_or_app. now right.
Qed.

Lemma attempts_disk (cfg : config) (url : json) (filepath agent : str)
    (n : nat) (w : world) :
  exists b w',
    attempts n cfg url filepath agent w = (Ok b, w')
    /\ dirs w' = dirs w
    /\ (exists k, net w' = skipn k (net w))
    /\ (b = false -> files w' = files w)
    /\ (b = true ->
        exists content,
          accepted_from (net w) content
          /\ files w' = put_file filepath (Bytes content) (files w)).
Proof.
  revert w; induction n as [|n IH]; intros w.
  - exists false, w. split; [reflexivity|]. split; [reflexivity|].
    split; [now exists 0%nat|]. split; [reflexivity | discriminate].
  - destruct (attempt_disk cfg url filepath agent w)
      as (b1 & w1 & E1 & Hd1 & [k1 Hn1] & Hf1 & Ht1).
    cbn [attempts]. unfold bind at 1. rewrite E1. destruct b1.
    + exists true, w1. split; [reflexivity|]. split; [exact Hd1|].
      split; [now exists k1|]. split; [discriminate | exact Ht1].
    + destruct (IH w1) as (b & w' & E & Hd & [k Hn] & Hf & Ht).
      exists b, w'. split; [exact E|]. split; [congruence|].
      split; [exists (k + k1)%nat; now rewrite Hn, Hn1, skipn_skipn|].
      split.
      * intros Hb. rewrite (Hf Hb). now apply Hf1.
      * intros Hb. destruct (Ht Hb) as (content & (st & dec & Hin & Hs & Hl) & Hw).
        exists content. split.
        -- exists st, dec. rewrite Hn1 in Hin.
           split; [exact (in_skipn _ _ _ Hin) | auto].
        -- rewrite Hw. now rewrite (Hf1 eq_refl).
Qed.

(** The disk after a call, by the value returned. *)
Lemma download_image_world (cfg : config) (url : json) (filepath : str)
    (w : world) :
  user_agents cfg <> [] ->
  exists b w',
    download_image cfg url filepath w = (Ok b, w')
    /\ dirs w' = dirs w
    /\ (b = false -> files w' = files w)
    /\ (b = true ->
        exists content,
          accepted_from (net w) content
          /\ files w' = put_file filepath (Bytes content) (files w)).
Proof.
  intros Hne.
  destruct (agent_drawn cfg w Hne) as (agent & w1 & E & _ & _ & Hn & Hf & Hd & _).
  destruct (attempts_disk cfg url filepath agent (Z.to_nat (retries cfg)) w1)
    as (b & w' & E' & Hd' & _ & Hfalse & Htrue).
  exists b, w'. unfold download_image, bind. rewrite E.
  split; [exact E'|]. split; [congruence|]. split.
  - intros Hb. rewrite (Hfalse Hb). exact Hf.
  - intros Hb. destruct (Htrue Hb) as (content & Hacc & Hw).
    exists content. rewrite Hn in Hacc. split; [exact Hacc|]. now rewrite Hw, Hf.
Qed.

(** X7: whatever the URL and the replies, a call of [download_image]
    returns; it creates no directory and touches no file but the
    destination.  When it returns [False] the files are what they were;
    when it returns [True] the destination holds the body of one of the
    replies, one with a good status and at least 10240 bytes: nothing
    smaller is ever written. *)
Theorem download_image_disk (cfg : config) (url : json) (filepath : str)
    (w : world) :
  user_agents cfg <> [] ->
  exists b w',
    download_image cfg url filepath w = (Ok b, w')
    /\ dirs w' = dirs w
    /\ (forall p, str_eqb filepath p = false ->
                  get_file p (files w') = get_file p (files w))
    /\ (b = false -> files w' = files w)
    /\ (b = true ->
        exists content,
          accepted_from (net w) content
          /\ get_file filepath (files w') = Some (Bytes content)).
Proof.
  intros Hne.
  destruct (download_image_world cfg url filepath w Hne)
    as (b & w' & E & Hd & Hfalse & Htrue).
  exists b, w'. split; [exact E|]. split; [exact Hd|]. split; [|split].
  - intros p Hp. destruct b.
    + destruct (Htrue eq_refl) as (content & _ & Hw).
      rewrite Hw. now apply get_file_put_other.
    + now rewrite (Hfalse eq_refl).
  - exact Hfalse.
  - intros Hb. destruct (Htrue Hb) as (content & Hacc & Hw).
    exists content. split; [exact Hacc|]. rewrite Hw. apply get_file_put.
Qed.

Lemma download_image_disk_witness :
  exists b w',
    download_image CONFIG FetcherSpec.image_url FetcherSpec.image_path slow_image
    = (Ok b, w')
    /\ dirs w' = dirs slow_image
    /\ (forall p, str_eqb FetcherSpec.image_path p = false ->
                  get_file p (files w') = get_file p (files slow_image))
    /\ (b = false -> files w' = files slow_image)
    /\ (b = true ->
        exists content,
          accepted_from (net slow_image) content
          /\ get_file FetcherSpec.image_path (files w') = Some (Bytes content)).
Proof.
  apply (download_image_disk CONFIG FetcherSpec.image_url
           FetcherSpec.image_path slow_image).
  discriminate.
Defined.

Lemma delay_bounds (replies : list http_reply) (n : nat) :
  (0 <= delay replies n <= 2 * Z.of_nat n)%Z.
Proof.
  revert replies; induction n as [|n IH]; intros replies; [simpl; lia|].
  cbn [delay]. specialize (IH (tl replies)).
  destruct (reply_raises _); lia.
Qed.

Lemma attempts_exhausted_delay (cfg : config) (u filepath agent : str)
    (n : nat) (w : world) :
  sendable w u = true ->
  (forall i, (i < n)%nat -> reply_fails (reply_at w i) = true) ->
  exists w',
    attempts n cfg (JStr u) filepath agent w = (Ok false, w')
    /\ sent w' = sent w ++ repeat (image_request cfg u agent) n
    /\ net w' = skipn n (net w)
    /\ slept w' = (slept w + delay (net w) n)%Z.
Proof.
  revert w; induction n as [|n IH]; intros w Hu Hall.
  - exists w. simpl. rewrite app_nil_r. repeat split. lia.
  - destruct (attempt_fails_string cfg u filepath agent w Hu
                (Hall 0%nat ltac:(lia)))
      as (w1 & E1 & Hn1 & _ & _ & _ & Hs1 & Hsl1).
    destruct (attempt_keeps _ _ _ _ _ _ _ E1) as [Hr1 _].
    destruct (IH w1) as (w' & E' & Hs' & Hn' & Hsl').
    { now rewrite (sendable_same w w1 u Hr1). }
    { intros i Hi. rewrite (reply_at_tail w w1 i Hn1). apply Hall. lia. }
    exists w'. cbn [attempts delay]. unfold bind at 1. rewrite E1.
    split; [exact E'|].
    rewrite Hs', Hs1, Hn', Hsl', Hsl1, Hn1, skipn_tl, hd_reply_at.
    repeat split; [now rewrite <- app_assoc | lia].
Qed.

(** X8: when each of the [retries] replies fails, a call on a string URL
    returns [False].  If the library sends the URL, exactly [retries]
    requests have gone out and the call has slept two seconds for every
    attempt that raised, the last one included, and not at all for an
    attempt whose body was only too small.  If the library refuses the
    string, nothing has gone out, no reply is taken and every attempt has
    slept its two seconds.  Either way the call sleeps between 0 and
    [2 * retries] seconds. *)
Theorem download_image_exhausted_delay (cfg : config) (u filepath : str)
    (w : world) :
  user_agents cfg <> [] ->
  (forall i, (i < Z.to_nat (retries cfg))%nat ->
             reply_fails (reply_at w i) = true) ->
  exists w' agent,
    download_image cfg (JStr u) filepath w = (Ok false, w')
    /\ (if sendable w u
        then sent w'
             = sent w
               ++ repeat (image_request cfg u agent) (Z.to_nat (retries cfg))
             /\ net w' = skipn (Z.to_nat (retries cfg)) (net w)
             /\ slept w'
                = (slept w + delay (net w) (Z.to_nat (retries cfg)))%Z
        else sent w' = sent w
             /\ net w' = net w
             /\ slept w'
                = (slept w + 2 * Z.of_nat (Z.to_nat (retries cfg)))%Z)
    /\ (slept w <= slept w' <= slept w + 2 * Z.of_nat (Z.to_nat (retries cfg)))%Z.
Proof.
  intros Hne Hall.
  destruct (agent_drawn cfg w Hne) as (agent & w1 & E & _).
  destruct (agent_keeps cfg w w1 agent E) as (Hr & Hsl & _ & _ & Hn & Hs).
  unfold download_image, bind. rewrite E.
  destruct (sendable w u) eqn:Hu.
  - destruct (attempts_exhausted_delay cfg u filepath agent
                (Z.to_nat (retries cfg)) w1) as (w' & E' & Hs' & Hn' & Hsl').
    { now rewrite (sendable_same w w1 u Hr). }
    { intros i Hi. unfold reply_at. rewrite Hn. now apply Hall. }
    exists w', agent. split; [exact E'|]. rewrite Hs', Hs, Hn', Hsl', Hsl, Hn.
    pose proof (delay_bounds (net w) (Z.to_nat (retries cfg))).
    repeat split; lia.
  - destruct (ProcessorFacts.attempts_refused cfg (JStr u) filepath agent
                (Z.to_nat (retries cfg)) w1)
      as (w' & E' & Hn' & Hs' & _ & _ & Hsl').
    { simpl. now rewrite (sendable_same w w1 u Hr). }
    exists w', agent. split; [exact E'|]. rewrite Hs', Hs, Hn', Hn, Hsl', Hsl.
    repeat split; lia.
Qed.

(** A world of four failing replies whose library is handed a string
    without a scheme. *)
Definition not_a_url : str := py "abc".

Lemma download_image_exhausted_delay_witness :
  (exists w' agent,
     download_image CONFIG
       (JStr (py "https://images.metmuseum.org/CRDImages/is/original/DP170374.jpg"))
       FetcherSpec.image_path FetcherSpec.four_failures = (Ok false, w')
     /\ sent w'
        = sent FetcherSpec.four_failures
          ++ repeat (image_request CONFIG
                       (py "https://images.metmuseum.org/CRDImages/is/original/DP170374.jpg")
                       agent) (Z.to_nat (retries CONFIG))
     /\ net w' = skipn (Z.to_nat (retries CONFIG)) (net FetcherSpec.four_failures)
     /\ slept w' = 6%Z)
  /\ (exists w',
        download_image CONFIG (JStr not_a_url) FetcherSpec.image_path
          FetcherSpec.four_failures = (Ok false, w')
        /\ sent w' = []
        /\ net w' = net FetcherSpec.four_failures
        /\ slept w' = 8%Z).
Proof.
  assert (Hall : forall i, (i < Z.to_nat (retries CONFIG))%nat ->
                   reply_fails (reply_at FetcherSpec.four_failures i) = true).
  { intros i Hi. change (Z.to_nat (retries CONFIG)) with 4%nat in Hi.
    do 4 (destruct i as [|i]; [reflexivity|]). lia. }
  split.
  - destruct (download_image_exhausted_delay CONFIG
                (py "https://images.metmuseum.org/CRDImages/is/original/DP170374.jpg")
                FetcherSpec.image_path FetcherSpec.four_failures
                ltac:(discriminate) Hall)
      as (w' & agent & E & H & _).
    change (sendable FetcherSpec.four_failures
              (py "https://images.metmuseum.org/CRDImages/is/original/DP170374.jpg"))
      with true in H.
    cbv iota in H. destruct H as (Hs & Hn & Hsl).
    exists w', agent. repeat split; assumption.
  - destruct (download_image_exhausted_delay CONFIG not_a_url
                FetcherSpec.image_path FetcherSpec.four_failures
                ltac:(discriminate) Hall)
      as (w' & agent & E & H & _).
    change (sendable FetcherSpec.four_failures not_a_url) with false in H.
    cbv iota in H. destruct H as (Hs & Hn & Hsl).
    exists w'. repeat split; assumption.
Defined.

End FetcherMore.

(* ================================================================= *)
(** * More on the object processor *)

Module ProcessorMore.

Import TextFacts PathFacts FetcherFacts ProcessorFacts FetcherMore.

(** The image of an object: the member [primaryImage], [None] when it is
    missing. *)
Definition image_of (members : list (string * json)) : json :=
  match lookup "primaryImage" members with
  | Some v => v
  | None => JNull
  end.

(** The run of [process_pottery_object] from the download on, for an
    object with an image that is classified. *)
Lemma process_after_classification (cfg : config) (obj_id : Z)
    (image_dir : str) (w : world) (status : Z) (content : list byte)
    (members : list (string * json)) (rest : list http_reply)
    (e : era) (pname : string) :
  user_agents cfg <> [] ->
  net w = Reply status content (Some (JObj members)) :: rest ->
  truthy (image_of members) = true ->
  detect_historical_period cfg (JObj members) = Ok (e, pname) ->
  exists b w4,
    (b = false <-> fetch_fails cfg w (image_of members) rest)
    /\ existsb (str_eqb (image_folder image_dir e pname)) (dirs w4) = true
    /\ (b = false -> files w4 = files w)
    /\ (b = true ->
        exists body,
          accepted_from rest body
          /\ get_file (image_file image_dir e pname obj_id) (files w4)
             = Some (Bytes body))
    /\ process_pottery_object cfg obj_id image_dir w
       = if b
         then (metadata_of (JObj members) obj_id (era_name e) pname
                 (image_file image_dir e pname obj_id), w4)
         else (Raise (ConnectionError "Image download failed"), w4).
Proof.
  intros Hne Hnet Himg Hcls.
  destruct (ProcessorSpec.process_run cfg obj_id image_dir w status content
              members rest Hne Hnet)
    as (agent & w2 & Hn2 & Hf2 & Hd2 & Hr2 & _ & Erun).
  cbv zeta in Erun. fold (image_of members) in Erun.
  rewrite Himg, Hcls in Erun. cbv zeta in Erun.
  destruct (ProcessorSpec.makedirs_world (image_folder image_dir e pname) w2)
    as (Hf3 & Hn3 & Hd3).
  pose proof (ProcessorSpec.makedirs_refuses (image_folder image_dir e pname) w2)
    as Hr3.
  pose proof (ProcessorSpec.image_file_writable image_dir e pname obj_id w2)
    as Hcw.
  set (w3 := snd (makedirs (image_folder image_dir e pname) w2)) in *.
  destruct (download_image_world cfg (image_of members)
              (image_file image_dir e pname obj_id) w3 Hne)
    as (b & w4 & E & Hd4 & Hfalse & Htrue).
  destruct (download_image_outcome cfg (image_of members)
              (image_file image_dir e pname obj_id) w3 Hne Hcw)
    as (b' & w4' & E' & Hex).
  rewrite E in E'. inversion E'; subst b' w4'. clear E'.
  unfold fetch_fails in Hex. rewrite Hn3, Hn2 in Hex.
  rewrite (goes_out_same w w3 (image_of members) (eq_trans Hr3 Hr2)) in Hex.
  exists b, w4. split; [exact Hex|]. split; [now rewrite Hd4|]. split; [|split].
  - intros Hb. rewrite (Hfalse Hb). congruence.
  - intros Hb. destruct (Htrue Hb) as (body & Hacc & Hw).
    exists body. rewrite Hn3, Hn2 in Hacc. split; [exact Hacc|].
    rewrite Hw. apply get_file_put.
  - rewrite Erun, E. destruct b; reflexivity.
Qed.

(** An object whose tags are objects, as the API sends them, and the
    worlds in which its JSON comes back and the image does not, or does. *)
Definition dish : list (string * json) :=
  [ ("title", JStr "Dish"); ("period", JStr "Qajar");
    ("primaryImage", FetcherSpec.image_url);
    ("tags", JArr [ JObj [ ("term", JStr "Birds") ] ]) ]%string.

Definition image_lost : world :=
  {| rng := [0]%nat; sched := []; net := [ Reply 200 [] (Some (JObj dish)) ];
     files := []; dirs := []; sent := []; slept := 0;
     refuses := no_scheme |}.

Definition image_found : world :=
  {| rng := [0]%nat; sched := [];
     net := [ Reply 200 [] (Some (JObj dish));
              Reply 200 (repeat x00 (Z.to_nat 10240)) None ];
     files := []; dirs := []; sent := []; slept := 0;
     refuses := no_scheme |}.

Definition images_dir : str := py "./iran_pottery_dataset/images".

(** X9: when the image of a classified object cannot be fetched,
    [process_pottery_object] raises "Image download failed" having created
    the folder of the sub-period and written no file: a failed download
    leaves at most an empty folder behind. *)
Theorem process_download_failure (cfg : config) (obj_id : Z) (image_dir : str)
    (w : world) (status : Z) (content : list byte)
    (members : list (string * json)) (rest : list http_reply)
    (e : era) (pname : string) :
  user_agents cfg <> [] ->
  net w = Reply status content (Some (JObj members)) :: rest ->
  truthy (image_of members) = true ->
  detect_historical_period cfg (JObj members) = Ok (e, pname) ->
  exhausted cfg (image_of members) rest ->
  fst (process_pottery_object cfg obj_id image_dir w)
  = Raise (ConnectionError "Image download failed")
  /\ files (snd (process_pottery_object cfg obj_id image_dir w)) = files w
  /\ existsb (str_eqb (image_folder image_dir e pname))
       (dirs (snd (process_pottery_object cfg obj_id image_dir w))) = true.
Proof.
  intros Hne Hnet Himg Hcls Hex.
  destruct (process_after_classification cfg obj_id image_dir w status content
              members rest e pname Hne Hnet Himg Hcls)
    as (b & w4 & Hiff & Hdir & Hfalse & _ & Erun).
  apply (exhausted_fetch_fails cfg w) in Hex.
  apply Hiff in Hex. subst b. rewrite Erun. cbn [fst snd]. auto.
Qed.

Lemma process_download_failure_witness :
  fst (process_pottery_object CONFIG 448671 images_dir image_lost)
  = Raise (ConnectionError "Image download failed")
  /\ files (snd (process_pottery_object CONFIG 448671 images_dir image_lost))
     = files image_lost
  /\ existsb (str_eqb (image_folder images_dir islamic "Qajar"))
       (dirs (snd (process_pottery_object CONFIG 448671 images_dir image_lost)))
     = true.
Proof.
  apply (process_download_failure CONFIG 448671 images_dir image_lost 200 []
           dish []).
  - discriminate.
  - reflexivity.
  - reflexivity.
  - reflexivity.
  - right. intros i _. destruct i as [|[|i]]; reflexivity.
Defined.

(** X10: the path in a record that [process_pottery_object] returns names
    a file that is on disk when the call returns, in the folder of the
    record's era and sub-period, and the file holds the body of a reply
    with a good status and at least 10240 bytes. *)
Theorem process_record_has_image (cfg : config) (obj_id : Z) (image_dir : str)
    (w : world) (status : Z) (content : list byte)
    (members : list (string * json)) (rest : list http_reply)
    (r : metadata_record) :
  user_agents cfg <> [] ->
  net w = Reply status content (Some (JObj members)) :: rest ->
  fst (process_pottery_object cfg obj_id image_dir w) = Ok r ->
  exists e pname body,
    detect_historical_period cfg (JObj members) = Ok (e, pname)
    /\ local_path r = image_file image_dir e pname obj_id
    /\ existsb (str_eqb (image_folder image_dir e pname))
         (dirs (snd (process_pottery_object cfg obj_id image_dir w))) = true
    /\ get_file (local_path r)
         (files (snd (process_pottery_object cfg obj_id image_dir w)))
       = Some (Bytes body)
    /\ accepted_from rest body.
Proof.
  intros Hne Hnet Hok.
  destruct (ProcessorSpec.process_run cfg obj_id image_dir w status content
              members rest Hne Hnet) as (agent & w2 & _ & _ & _ & _ & _ & Erun).
  cbv zeta in Erun. fold (image_of members) in Erun.
  destruct (truthy (image_of members)) eqn:Himg;
    [|rewrite Erun in Hok; discriminate].
  destruct (detect_historical_period cfg (JObj members)) as [[e pname]|x] eqn:Hcls;
    [|rewrite Erun in Hok; discriminate].
  clear Erun.
  destruct (process_after_classification cfg obj_id image_dir w status content
              members rest e pname Hne Hnet Himg Hcls)
    as (b & w4 & _ & Hdir & _ & Htrue & Erun).
  rewrite Erun in *. destruct b; [|discriminate].
  cbn [fst snd] in *.
  destruct (Htrue eq_refl) as (body & Hacc & Hfile).
  apply ProcessorSpec.metadata_of_inv in Hok.
  destruct Hok as (_ & _ & _ & _ & _ & _ & _ & Hpath & _).
  exists e, pname, body. rewrite Hpath. auto.
Qed.

Lemma process_record_has_image_witness :
  exists r e pname body,
    fst (process_pottery_object CONFIG 452849 images_dir ProcessorSpec.fetched)
    = Ok r
    /\ detect_historical_period CONFIG (JObj ProcessorSpec.bowl) = Ok (e, pname)
    /\ local_path r = image_file images_dir e pname 452849
    /\ existsb (str_eqb (image_folder images_dir e pname))
         (dirs (snd (process_pottery_object CONFIG 452849 images_dir
                       ProcessorSpec.fetched))) = true
    /\ get_file (local_path r)
         (files (snd (process_pottery_object CONFIG 452849 images_dir
                        ProcessorSpec.fetched)))
       = Some (Bytes body)
    /\ accepted_from [ Reply 200 (repeat x00 (Z.to_nat 10240)) None ] body.
Proof.
  assert (exists r,
             fst (process_pottery_object CONFIG 452849 images_dir
                    ProcessorSpec.fetched) = Ok r) as [r E]
    by (vm_compute; eexists; reflexivity).
  exists r.
  destruct (process_record_has_image CONFIG 452849 images_dir
              ProcessorSpec.fetched 200 [] ProcessorSpec.bowl _ r
              ltac:(discriminate) eq_refl E) as (e & pname & body & H).
  exists e, pname, body. split; [exact E | exact H].
Defined.

(** What the fetch of the object's JSON raises, by the reply: the
    transport's exception, the decoder's when the body is not JSON, and
    [AttributeError] at [data.get] when the JSON is not an object. *)
Definition fetch_error (r : http_reply) : option exn :=
  match r with
  | TransportError => Some RequestException
  | Reply _ _ None => Some JSONDecodeError
  | Reply _ _ (Some (JObj _)) => None
  | Reply _ _ (Some _) => Some AttributeError
  end.

(** X12: when the JSON of the object cannot be had (the request fails,
    the body does not decode, or it decodes to something that is not an
    object), [process_pottery_object] raises right there: one request has
    gone out, and no folder and no file has been created.  The status of
    the reply plays no part. *)
Theorem process_fetch_failure (cfg : config) (obj_id : Z) (image_dir : str)
    (w : world) (x : exn) :
  user_agents cfg <> [] ->
  fetch_error (reply_at w 0) = Some x ->
  fst (process_pottery_object cfg obj_id image_dir w) = Raise x
  /\ files (snd (process_pottery_object cfg obj_id image_dir w)) = files w
  /\ dirs (snd (process_pottery_object cfg obj_id image_dir w)) = dirs w
  /\ len (sent (snd (process_pottery_object cfg obj_id image_dir w)))
     = S (len (sent w)).
Proof.
  intros Hne Hx.
  assert (Erun : exists w',
             process_pottery_object cfg obj_id image_dir w = (Raise x, w')
             /\ files w' = files w /\ dirs w' = dirs w
             /\ len (sent w') = S (len (sent w))).
  { destruct (agent_drawn cfg w Hne)
      as (agent & w1 & E & _ & _ & Hn & Hf & Hd & Hs).
    unfold process_pottery_object. unfold bind at 1. rewrite E.
    unfold bind at 1. unfold requests_get.
    rewrite (object_url_sendable w1 obj_id).
    unfold reply_at in Hx. rewrite <- Hn in Hx.
    destruct (net w1) as [|[|status content decoded] l]; simpl in Hx.
    1, 2: inversion Hx; subst; eexists; (split; [reflexivity|]); simpl;
      rewrite Hf, Hd, Hs, length_app; simpl; repeat split; lia.
    cbv zeta. destruct decoded as [data|]; simpl in Hx.
    - destruct data; inversion Hx; subst; eexists; (split; [reflexivity|]);
        simpl; rewrite Hf, Hd, Hs, length_app; simpl; repeat split; lia.
    - inversion Hx; subst. eexists. split; [reflexivity|]. simpl.
      rewrite Hf, Hd, Hs, length_app. simpl. repeat split. lia. }
  destruct Erun as (w' & Erun & Hf & Hd & Hs). rewrite Erun. cbn [fst snd].
  auto.
Qed.

Lemma process_fetch_failure_witness :
  fst (process_pottery_object CONFIG 448671 images_dir FetcherSpec.offline)
  = Raise RequestException
  /\ files (snd (process_pottery_object CONFIG 448671 images_dir
                   FetcherSpec.offline)) = files FetcherSpec.offline
  /\ dirs (snd (process_pottery_object CONFIG 448671 images_dir
                  FetcherSpec.offline)) = dirs FetcherSpec.offline
  /\ len (sent (snd (process_pottery_object CONFIG 448671 images_dir
                       FetcherSpec.offline)))
     = S (len (sent FetcherSpec.offline)).
Proof.
  apply (process_fetch_failure CONFIG 448671 images_dir FetcherSpec.offline).
  - discriminate.
  - reflexivity.
Defined.

(** X11: the record is built after the image is written.  When the image
    of a classified object is fetched (the library sends its URL and one
    of the [retries] replies has a good status and at least 10240 bytes)
    and the record cannot be built (a text member that is a number, a
    list of tags that holds anything but strings),
    [process_pottery_object] raises [TypeError] and returns no record,
    while the image stays on disk. *)
Theorem process_orphan_image (cfg : config) (obj_id : Z) (image_dir : str)
    (w : world) (status : Z) (content : list byte)
    (members : list (string * json)) (rest : list http_reply)
    (e : era) (pname : string) (x : exn) :
  user_agents cfg <> [] ->
  net w = Reply status content (Some (JObj members)) :: rest ->
  truthy (image_of members) = true ->
  detect_historical_period cfg (JObj members) = Ok (e, pname) ->
  ~ fetch_fails cfg w (image_of members) rest ->
  metadata_of (JObj members) obj_id (era_name e) pname
    (image_file image_dir e pname obj_id) = Raise x ->
  fst (process_pottery_object cfg obj_id image_dir w) = Raise TypeError
  /\ exists body,
       get_file (image_file image_dir e pname obj_id)
         (files (snd (process_pottery_object cfg obj_id image_dir w)))
       = Some (Bytes body)
       /\ accepted_from rest body.
Proof.
  intros Hne Hnet Himg Hcls Hnot Hraise.
  destruct (process_after_classification cfg obj_id image_dir w status content
              members rest e pname Hne Hnet Himg Hcls)
    as (b & w4 & Hiff & _ & _ & Htrue & Erun).
  destruct b; [|destruct Hnot; now apply Hiff].
  rewrite Erun. cbn [fst snd].
  pose proof (ProcessorSpec.metadata_of_raises _ _ _ _ _ _ Hraise) as Hx.
  subst x. split; [exact Hraise|].
  destruct (Htrue eq_refl) as (body & Hacc & Hfile). now exists body.
Qed.

(** X11 at an object whose tags are what the API sends, a list of
    objects: the image is fetched and written, and no record comes back. *)
Lemma process_orphan_image_witness :
  fst (process_pottery_object CONFIG 448671 images_dir image_found)
  = Raise TypeError
  /\ exists body,
       get_file (image_file images_dir islamic "Qajar" 448671)
         (files (snd (process_pottery_object CONFIG 448671 images_dir image_found)))
       = Some (Bytes body)
       /\ accepted_from [ Reply 200 (repeat x00 (Z.to_nat 10240)) None ] body.
Proof.
  apply (process_orphan_image CONFIG 448671 images_dir image_found 200 []
           dish _ islamic "Qajar"%string TypeError).
  - discriminate.
  - reflexivity.
  - reflexivity.
  - reflexivity.
  - intros [Hu|Hall].
    + vm_compute in Hu. discriminate Hu.
    + specialize (Hall 0%nat ltac:(vm_compute; lia)).
      vm_compute in Hall. discriminate Hall.
  - reflexivity.
Defined.

End ProcessorMore.

(* ================================================================= *)
(** * The metadata writer *)

Module WriterSpec.

Import TextFacts PathFacts FetcherFacts FetcherMore.

Definition json_path (cfg : config) : str :=
  path_join (dataset_path cfg) metadata_json.

Definition csv_path (cfg : config) : str :=
  path_join (dataset_path cfg) metadata_csv.

(** The two dumps never share a path, whatever the dataset folder. *)
Lemma json_csv_apart (cfg : config) :
  str_eqb (json_path cfg) (csv_path cfg) = false.
Proof.
  apply str_eqb_false. unfold json_path, csv_path, path_join.
  change (py metadata_json) with ("i"%char :: tl (py metadata_json)).
  change (py metadata_csv) with ("i"%char :: tl (py metadata_csv)).
  cbv iota.
  destruct (dataset_path cfg) as [|c d].
  - discriminate.
  - destruct (Ascii.eqb (last (c :: d) space) "/"); intros H;
      apply app_inv_head in H; discriminate.
Qed.

Lemma csv_json_apart (cfg : config) :
  str_eqb (csv_path cfg) (json_path cfg) = false.
Proof.
  pose proof (json_csv_apart cfg) as Hjc.
  apply str_eqb_false. intros E. rewrite E, str_eqb_refl in Hjc. discriminate.
Qed.

(** X13: [save_metadata] makes the folder of the dataset and leaves in it
    the JSON dump of all the records, replacing an older one.  With no
    record it returns and the CSV of an earlier run stays as it was.
    With records it writes the CSV under the configured header and
    returns when the header names every key of a record; when it does
    not, the CSV is left with the header alone and [ValueError] is
    raised.  No other file is touched. *)
Theorem save_metadata_files (cfg : config) (metadata : list metadata_record)
    (w : world) :
  let run := save_metadata cfg metadata w in
  get_file (json_path cfg) (files (snd run)) = Some (JsonDump metadata)
  /\ match metadata with
     | [] =>
         fst run = Ok tt
         /\ get_file (csv_path cfg) (files (snd run))
            = get_file (csv_path cfg) (files w)
     | _ :: _ =>
         if known_keys (metadata_fields cfg)
         then fst run = Ok tt
              /\ get_file (csv_path cfg) (files (snd run))
                 = Some (CsvDump (metadata_fields cfg) metadata)
         else fst run
              = Raise (ValueError "dict contains fields not in fieldnames")
              /\ get_file (csv_path cfg) (files (snd run))
                 = Some (CsvDump (metadata_fields cfg) [])
     end
  /\ existsb (str_eqb (dataset_path cfg)) (dirs (snd run)) = true
  /\ forall p,
       str_eqb (json_path cfg) p = false ->
       str_eqb (csv_path cfg) p = false ->
       get_file p (files (snd run)) = get_file p (files w).
Proof.
  cbv zeta. rewrite PipelineSpec.save_metadata_run. cbv zeta.
  fold (json_path cfg) (csv_path cfg).
  pose proof (json_csv_apart cfg) as Hjc.
  pose proof (csv_json_apart cfg) as Hcj.
  destruct (ProcessorSpec.makedirs_world (dataset_path cfg) w) as (Hf & _ & Hd).
  set (w1 := snd (makedirs (dataset_path cfg) w)) in *.
  destruct metadata as [|r metadata];
    [|destruct (known_keys (metadata_fields cfg))];
    cbn [fst snd files dirs with_files]; rewrite Hf.
  all: repeat split;
    repeat first
      [ apply get_file_put
      | rewrite get_file_put_other by assumption
      | reflexivity
      | exact Hd
      | intros p Hj Hc ].
Qed.

End WriterSpec.

(* ================================================================= *)
(** * More on the pipeline *)

Module PipelineMore.

Import TextFacts FetcherFacts PipelineFacts SamplerFacts.

(** A computation that returns, whatever the world. *)
Definition never_raises {A} (m : M A) : Prop :=
  forall w, exists a w', m w = (Ok a, w').

Lemma nr_ret {A} (a : A) : never_raises (ret a).
Proof. intros w. now exists a, w. Qed.

Lemma nr_bind {A B} (m : M A) (k : A -> M B) :
  never_raises m -> (forall a, never_raises (k a)) -> never_raises (bind m k).
Proof.
  intros Hm Hk w. destruct (Hm w) as (a & w1 & E).
  destruct (Hk a w1) as (b & w2 & E2). exists b, w2.
  unfold bind. now rewrite E.
Qed.

(** A [try] whose handler returns swallows every exception. *)
Lemma nr_try {A} (body handler : M A) :
  never_raises handler -> never_raises (try_except body handler).
Proof.
  intros Hh w. unfold try_except. destruct (body w) as [[a|e] w1].
  - now exists a, w1.
  - apply Hh.
Qed.

Lemma nr_makedirs (p : str) : never_raises (makedirs p).
Proof. intros w. eexists. eexists. reflexivity. Qed.

Lemma nr_search_one (cfg : config) (all_ids : list Z) (q : string) :
  never_raises (search_one cfg all_ids q).
Proof. apply nr_try, nr_ret. Qed.

Lemma nr_discover (cfg : config) (queries : list string) (all_ids : list Z) :
  never_raises (discover cfg all_ids queries).
Proof.
  revert all_ids; induction queries as [|q queries IH]; intros all_ids; simpl.
  - apply nr_ret.
  - apply nr_bind; [apply nr_search_one | intros; apply IH].
Qed.

Lemma nr_complete (n : nat) (pending : list Z) : never_raises (complete n pending).
Proof.
  revert pending; induction n as [|n IH]; intros pending; simpl; [apply nr_ret|].
  destruct pending as [|a pending]; [apply nr_ret|].
  intros w.
  match goal with
  | |- exists b w', bind ?m ?k ?w0 = _ =>
      assert (H : never_raises (bind m k))
        by (apply nr_bind; [apply IH | intros; apply nr_ret]);
      exact (H w0)
  end.
Qed.

Lemma nr_fetch_and_group (cfg : config) (obj_id : Z) :
  never_raises (fetch_and_group cfg obj_id).
Proof. apply nr_try, nr_ret. Qed.

Lemma nr_group_all (cfg : config) (order : list Z) (g : groups) :
  never_raises (group_all cfg g order).
Proof.
  revert g; induction order as [|i order IH]; intros g; simpl; [apply nr_ret|].
  apply nr_bind; [apply nr_fetch_and_group|].
  intros [[pname j]|]; apply IH.
Qed.

Lemma nr_group_phase (cfg : config) : never_raises (group_phase cfg).
Proof.
  unfold group_phase, completion_order.
  apply nr_bind; [apply nr_makedirs | intros _].
  apply nr_bind; [apply nr_makedirs | intros _].
  apply nr_bind; [apply nr_discover | intros all_ids].
  apply nr_bind; [apply nr_complete | intros order].
  apply nr_group_all.
Qed.

Lemma set_update_incl (ids all_ids : list Z) : incl all_ids (set_update all_ids ids).
Proof.
  revert all_ids; induction ids as [|i ids IH]; intros all_ids; simpl.
  - apply incl_refl.
  - eapply incl_tran; [|apply IH].
    destruct (existsb (Z.eqb i) all_ids); [apply incl_refl | now apply incl_appl].
Qed.

Lemma search_one_incl (cfg : config) (all_ids : list Z) (q : string) :
  returns (incl all_ids) (search_one cfg all_ids q).
Proof.
  unfold search_one.
  apply returns_try; [|apply returns_ret, incl_refl].
  apply returns_bind_any; intros agent.
  apply returns_bind_any; intros [[status content] decoded].
  apply returns_bind_any; intros _.
  apply returns_bind_any; intros data.
  apply returns_bind_any; intros v.
  destruct (ids_to_add v) as [ids complete].
  destruct complete.
  - apply returns_bind_any; intros _. apply returns_ret, set_update_incl.
  - apply returns_ret, set_update_incl.
Qed.

Lemma discover_incl (cfg : config) (queries : list string) (all_ids : list Z) :
  returns (incl all_ids) (discover cfg all_ids queries).
Proof.
  revert all_ids; induction queries as [|q queries IH]; intros all_ids; simpl.
  - apply returns_ret, incl_refl.
  - apply (returns_bind (incl all_ids)); [apply search_one_incl|].
    intros a Ha w r w' E. eapply incl_tran; [exact Ha|].
    exact (IH a w r w' E).
Qed.

(** X14: the discovery never raises, whatever the replies: a query that
    fails is skipped.  The IDs it returns hold every ID found before, each
    once, and it writes no file. *)
Theorem discover_keeps_ids (cfg : config) (queries : list string)
    (all_ids : list Z) (w : world) :
  NoDup all_ids ->
  exists ids w',
    discover cfg all_ids queries w = (Ok ids, w')
    /\ incl all_ids ids
    /\ NoDup ids
    /\ files w' = files w.
Proof.
  intros Hnd.
  destruct (nr_discover cfg queries all_ids w) as (ids & w' & E).
  exists ids, w'. split; [exact E|].
  split; [exact (discover_incl cfg queries all_ids _ _ _ E)|].
  split; [exact (discover_NoDup cfg queries all_ids Hnd _ _ _ E)|].
  pose proof (keeps_discover cfg queries all_ids w) as H.
  now rewrite E in H.
Qed.

Lemma discover_keeps_ids_witness :
  exists ids w',
    discover CONFIG [452849; 451725]%Z search_queries PipelineSpec.two_ids_then_down
    = (Ok ids, w')
    /\ incl [452849; 451725]%Z ids
    /\ NoDup ids
    /\ files w' = files PipelineSpec.two_ids_then_down.
Proof.
  apply (discover_keeps_ids CONFIG search_queries [452849; 451725]%Z
           PipelineSpec.two_ids_then_down).
  constructor; [intros [H|[]]; discriminate H|].
  constructor; [intros [] | constructor].
Defined.

Lemma setdefault_append_key (g : groups) (pname : string) (obj_id : Z)
    (x : string) :
  In x (map fst (setdefault_append g pname obj_id)) ->
  In x (map fst g) \/ x = pname.
Proof.
  induction g as [|[k ids] g IH]; simpl.
  - intros [<-|[]]. now right.
  - destruct (String.eqb k pname); simpl.
    + intros H. now left.
    + intros [<-|H]; [left; now left|].
      destruct (IH H) as [H'|H']; [left; now right | now right].
Qed.

Lemma setdefault_append_keys (g : groups) (pname : string) (obj_id : Z) :
  NoDup (map fst g) -> NoDup (map fst (setdefault_append g pname obj_id)).
Proof.
  induction g as [|[k ids] g IH]; simpl; intros H.
  - constructor; [intros [] | constructor].
  - inversion H as [|? ? Hk Hg]; subst.
    destruct (String.eqb k pname) eqn:E; simpl.
    + constructor; assumption.
    + constructor; [|now apply IH].
      intros Hin. destruct (setdefault_append_key _ _ _ _ Hin) as [H'|H'].
      * contradiction.
      * subst k. rewrite String.eqb_refl in E. discriminate.
Qed.

Lemma group_all_keys (cfg : config) (order : list Z) (g : groups) :
  NoDup (map fst g) ->
  returns (fun g' => NoDup (map fst g')) (group_all cfg g order).
Proof.
  revert g; induction order as [|i order IH]; intros g H; simpl.
  - now apply returns_ret.
  - apply returns_bind_any. intros [[pname j]|].
    + apply IH. now apply setdefault_append_keys.
    + now apply IH.
Qed.

Lemma group_phase_keys (cfg : config) :
  returns (fun g => NoDup (map fst g)) (group_phase cfg).
Proof.
  unfold group_phase.
  apply returns_bind_any; intros _.
  apply returns_bind_any; intros _.
  apply returns_bind_any; intros all_ids.
  apply returns_bind_any; intros order.
  apply group_all_keys. constructor.
Qed.

(** X15: the grouping never raises, whatever the replies: an object that
    cannot be fetched or classified is left out.  In the family it
    returns every group has a member, no sub-period names two groups, no
    ID stands in two places, and it has written no file. *)
Theorem group_phase_family (cfg : config) (w : world) :
  exists g w',
    group_phase cfg w = (Ok g, w')
    /\ no_empty_group g
    /\ NoDup (map fst g)
    /\ NoDup (List.concat (map snd g))
    /\ files w' = files w.
Proof.
  destruct (nr_group_phase cfg w) as (g & w' & E).
  exists g, w'. split; [exact E|].
  split; [apply (group_phase_no_empty cfg w); now rewrite E|].
  split; [exact (group_phase_keys cfg _ _ _ E)|].
  split; [apply (group_phase_distinct cfg w); now rewrite E|].
  pose proof (keeps_group_phase cfg w) as H. now rewrite E in H.
Qed.

End PipelineMore.

(* ================================================================= *)
(** * A whole run *)

Module PipelineRun.

Import TextFacts FetcherFacts FetcherMore SamplerFacts SamplerSpec
       PipelineFacts PipelineMore WriterSpec.

(** There is a file at [p]. *)
Definition on_disk (p : str) (fs : list (str * file_content)) : bool :=
  match get_file p fs with
  | Some _ => true
  | None => false
  end.

(** A computation that removes no file. *)
Definition grows {A} (m : M A) : Prop :=
  forall w p, on_disk p (files w) = true -> on_disk p (files (snd (m w))) = true.

Lemma grows_keeps {A} (m : M A) : keeps_files m -> grows m.
Proof. intros H w p. now rewrite H. Qed.

Lemma grows_bind {A B} (m : M A) (k : A -> M B) :
  grows m -> (forall a, grows (k a)) -> grows (bind m k).
Proof.
  intros Hm Hk w p Hp. specialize (Hm w p Hp). unfold bind.
  destruct (m w) as [[a|e] w1]; cbn [snd] in *; [now apply Hk | exact Hm].
Qed.

Lemma grows_try {A} (body handler : M A) :
  grows body -> grows handler -> grows (try_except body handler).
Proof.
  intros Hb Hh w p Hp. specialize (Hb w p Hp). unfold try_except.
  destruct (body w) as [[a|e] w1]; cbn [snd] in *; [exact Hb | now apply Hh].
Qed.

Lemma on_disk_put (q p : str) (c : file_content) (fs : list (str * file_content)) :
  on_disk p fs = true -> on_disk p (put_file q c fs) = true.
Proof.
  unfold on_disk. destruct (str_eqb q p) eqn:E.
  - apply str_eqb_eq in E. subst q. now rewrite get_file_put.
  - now rewrite get_file_put_other by exact E.
Qed.

Lemma grows_write (q : str) (c : file_content) : grows (write_file q c).
Proof.
  intros w p H. unfold write_file. destruct (can_write w q); [|exact H].
  simpl. now apply on_disk_put.
Qed.

Lemma grows_attempt (cfg : config) (url : json) (filepath agent : str) :
  grows (attempt cfg url filepath agent).
Proof.
  unfold attempt. apply grows_try.
  - apply grows_bind; [apply grows_keeps, keeps_requests_get|].
    intros [[status content] decoded].
    apply grows_bind; [apply grows_keeps, keeps_raise_for_status | intros _].
    destruct (Z.of_nat (len content) <? 10 * 1024)%Z.
    + apply grows_keeps, keeps_ret.
    + apply grows_bind; [apply grows_write | intros _; apply grows_keeps, keeps_ret].
  - apply grows_keeps. frame.
Qed.

Lemma grows_attempts (cfg : config) (url : json) (filepath agent : str) (n : nat) :
  grows (attempts n cfg url filepath agent).
Proof.
  induction n as [|n IH]; cbn [attempts].
  - apply grows_keeps, keeps_ret.
  - apply grows_bind; [apply grows_attempt|].
    intros [|]; [apply grows_keeps, keeps_ret | exact IH].
Qed.

Lemma grows_download_image (cfg : config) (url : json) (filepath : str) :
  grows (download_image cfg url filepath).
Proof.
  unfold download_image.
  apply grows_bind; [apply grows_keeps, keeps_agent | intros; apply grows_attempts].
Qed.

Lemma grows_process (cfg : config) (obj_id : Z) (image_dir : str) :
  grows (process_pottery_object cfg obj_id image_dir).
Proof.
  unfold process_pottery_object.
  apply grows_bind; [apply grows_keeps, keeps_agent | intros agent].
  apply grows_bind; [apply grows_keeps, keeps_requests_get|].
  intros [[status content] decoded].
  apply grows_bind; [apply grows_keeps, keeps_json_of | intros data].
  apply grows_bind; [apply grows_keeps, keeps_lift | intros image].
  destruct (negb (truthy image)); [apply grows_keeps, keeps_raise|].
  apply grows_bind; [apply grows_keeps, keeps_lift | intros [e pname]].
  apply grows_bind; [apply grows_keeps, keeps_makedirs | intros _].
  apply grows_bind; [apply grows_download_image | intros ok].
  destruct (negb ok); [apply grows_keeps, keeps_raise | apply grows_keeps, keeps_lift].
Qed.

Lemma grows_process_and_download (cfg : config) (image_dir : str) (obj_id : Z) :
  grows (process_and_download cfg image_dir obj_id).
Proof.
  unfold process_and_download. apply grows_try.
  - apply grows_bind; [apply grows_process | intros; apply grows_keeps, keeps_ret].
  - apply grows_keeps, keeps_ret.
Qed.

Lemma grows_save_metadata (cfg : config) (metadata : list metadata_record) :
  grows (save_metadata cfg metadata).
Proof.
  unfold save_metadata.
  apply grows_bind; [apply grows_keeps, keeps_makedirs | intros _].
  apply grows_bind; [apply grows_write | intros _].
  destruct metadata; [apply grows_keeps, keeps_ret|].
  destruct (known_keys (metadata_fields cfg)); [apply grows_write|].
  apply grows_bind; [apply grows_write | intros _; apply grows_keeps, keeps_raise].
Qed.

(** A call of [download_image] that returns [True] has left a file at the
    destination. *)
Lemma download_image_true (cfg : config) (url : json) (filepath : str)
    (w w' : world) :
  download_image cfg url filepath w = (Ok true, w') ->
  on_disk filepath (files w') = true.
Proof.
  intros E. unfold download_image, bind in E.
  destruct (get_random_user_agent cfg w) as [[agent|e] w1]; [|discriminate E].
  destruct (attempts_disk cfg url filepath agent (Z.to_nat (retries cfg)) w1)
    as (b & w2 & E2 & _ & _ & _ & Ht).
  rewrite E2 in E. inversion E; subst b w2.
  destruct (Ht eq_refl) as (content & _ & Hw).
  unfold on_disk. now rewrite Hw, get_file_put.
Qed.

Lemma metadata_of_id (data : json) (obj_id : Z) (era_text pname : string)
    (img_path : str) (r : metadata_record) :
  metadata_of data obj_id era_text pname img_path = Ok r ->
  objectID r = obj_id /\ local_path r = img_path.
Proof.
  intros H. destruct data as [| | | | |members];
    try (unfold metadata_of, text_field, py_get in H; cbn [rbind] in H;
         discriminate H).
  destruct (ProcessorSpec.metadata_of_inv _ _ _ _ _ _ H)
    as (_ & _ & _ & Hid & _ & _ & _ & Hp & _).
  now split.
Qed.

(** A record that [process_pottery_object] returns carries the ID asked
    for, and its image is on disk. *)
Lemma process_returns (cfg : config) (obj_id : Z) (image_dir : str)
    (w w' : world) (r : metadata_record) :
  process_pottery_object cfg obj_id image_dir w = (Ok r, w') ->
  objectID r = obj_id /\ on_disk (local_path r) (files w') = true.
Proof.
  unfold process_pottery_object. intros E.
  unfold bind at 1 in E.
  destruct (get_random_user_agent cfg w) as [[agent|e] w1]; [|discriminate E].
  unfold bind at 1 in E.
  destruct (requests_get _ _ _ _ w1) as [[[[status content] decoded]|e] w2];
    [|discriminate E].
  unfold bind at 1 in E.
  destruct (json_of decoded w2) as [[data|e] w3]; [|discriminate E].
  unfold bind at 1 in E. unfold lift at 1 in E.
  destruct (py_get data "primaryImage" JNull) as [image|e]; [|discriminate E].
  destruct (negb (truthy image)); [discriminate E|].
  unfold bind at 1 in E. unfold lift at 1 in E.
  destruct (detect_historical_period cfg data) as [[e pname]|e]; [|discriminate E].
  unfold bind at 1 in E.
  destruct (makedirs (image_folder image_dir e pname) w3) as [[[]|x] w4];
    [|discriminate E].
  unfold bind at 1 in E.
  destruct (download_image cfg image (image_file image_dir e pname obj_id) w4)
    as [[[|]|x] w5] eqn:Ed; cbn [negb] in E; try discriminate E.
  unfold lift in E. inversion E as [[Hr Hw]]. subst w5.
  destruct (metadata_of_id _ _ _ _ _ _ Hr) as [Hid Hp].
  split; [exact Hid|]. rewrite Hp. exact (download_image_true _ _ _ _ _ Ed).
Qed.

Lemma process_and_download_run (cfg : config) (image_dir : str) (obj_id : Z)
    (w : world) :
  exists res w',
    process_and_download cfg image_dir obj_id w = (Ok res, w')
    /\ (forall p, on_disk p (files w) = true -> on_disk p (files w') = true)
    /\ match res with
       | Some r => objectID r = obj_id /\ on_disk (local_path r) (files w') = true
       | None => True
       end.
Proof.
  assert (H : exists res w',
             process_and_download cfg image_dir obj_id w = (Ok res, w')
             /\ match res with
                | Some r => objectID r = obj_id
                            /\ on_disk (local_path r) (files w') = true
                | None => True
                end).
  { unfold process_and_download, try_except, bind.
    destruct (process_pottery_object cfg obj_id image_dir w) as [[r|e] w1] eqn:E.
    - exists (Some r), w1. split; [reflexivity|]. exact (process_returns _ _ _ _ _ _ E).
    - exists None, w1. split; [reflexivity | exact I]. }
  destruct H as (res & w' & E & H). exists res, w'.
  split; [exact E|]. split; [|exact H].
  intros p Hp.
  pose proof (grows_process_and_download cfg image_dir obj_id w p Hp) as Hg.
  now rewrite E in Hg.
Qed.

(** The draining loop of phase 4 returns; its records carry IDs of the
    tasks, each at most once, and the image of each is on disk. *)
Lemma download_all_run (cfg : config) (image_dir : str) (order : list Z)
    (metadata : list metadata_record) (w : world) :
  NoDup (map objectID metadata ++ order) ->
  Forall (fun r => on_disk (local_path r) (files w) = true) metadata ->
  exists m w',
    download_all cfg image_dir metadata order w = (Ok m, w')
    /\ NoDup (map objectID m)
    /\ incl (map objectID m) (map objectID metadata ++ order)
    /\ (len m <= len metadata + len order)%nat
    /\ Forall (fun r => on_disk (local_path r) (files w') = true) m.
Proof.
  revert metadata w; induction order as [|i order IH]; intros metadata w Hnd Hon.
  - exists metadata, w. rewrite app_nil_r in *.
    split; [reflexivity|]. split; [exact Hnd|]. split; [apply incl_refl|].
    split; [lia | exact Hon].
  - destruct (process_and_download_run cfg image_dir i w)
      as (res & w1 & E1 & Hg & Hres).
    cbn [download_all]. unfold bind at 1. rewrite E1.
    assert (Hon1 : Forall (fun r => on_disk (local_path r) (files w1) = true)
                     metadata).
    { eapply Forall_impl; [|exact Hon]. intros r Hr. now apply Hg. }
    destruct res as [r|].
    + destruct Hres as [Hid Hr].
      assert (Eids : map objectID (metadata ++ [r]) ++ order
                     = map objectID metadata ++ i :: order).
      { rewrite map_app, <- app_assoc. simpl. now rewrite Hid. }
      destruct (IH (metadata ++ [r]) w1) as (m & w' & E & Hn & Hin & Hl & Hf).
      { now rewrite Eids. }
      { apply Forall_app. split; [exact Hon1|]. now constructor. }
      exists m, w'. split; [exact E|]. split; [exact Hn|].
      split; [now rewrite <- Eids|]. split; [|exact Hf].
      rewrite length_app in Hl. cbn [List.length] in *. lia.
    + destruct (IH metadata w1) as (m & w' & E & Hn & Hin & Hl & Hf).
      { now apply NoDup_remove_1 in Hnd. }
      { exact Hon1. }
      exists m, w'. split; [exact E|]. split; [exact Hn|].
      split; [|split; [cbn [List.length]; lia | exact Hf]].
      intros x Hx. apply Hin in Hx. apply in_or_app.
      apply in_app_or in Hx. destruct Hx as [Hx|Hx]; [now left|right; now right].
Qed.

(** The sampler on a family with a non-empty group: it returns IDs of
    the family, within the cap, and touches neither disk nor network. *)
Lemma sample_run (cfg : config) (g : groups) (w : world) :
  has_nonempty_group g ->
  exists sampled w',
    sample cfg g w = (Ok sampled, w')
    /\ drawn_from sampled (List.concat (map snd g))
    /\ ((0 <= max_images cfg)%Z -> (Z.of_nat (len sampled) <= max_images cfg)%Z)
    /\ same_disk_and_net w w'.
Proof.
  intros Hg. destruct (target_spec cfg g Hg) as (m & _ & Et).
  set (target := Z.max 1 (Z.min m (max_images cfg / Z.of_nat (len g)))) in *.
  destruct (select_spec target g w ltac:(subst target; lia))
    as (chosen & w' & Es & Hc & Hsame).
  exists (slice_to (List.concat chosen) (max_images cfg)), w'.
  split.
  { unfold sample. unfold bind at 1. rewrite Et. unfold lift.
    unfold bind. now rewrite Es. }
  split.
  { assert (Hd : drawn_from (List.concat chosen) (List.concat (map snd g))).
    { apply drawn_from_concat.
      eapply Forall2_impl; [|exact Hc]. intros a b [_ H]. exact H. }
    unfold slice_to. destruct (max_images cfg <? 0)%Z; now apply drawn_from_firstn. }
  split; [apply slice_to_len | exact Hsame].
Qed.

(** A reply whose [objectIDs], when it has the member, is [null] or a
    list of integers, as the search endpoint documents it. *)
Definition integer_ids (r : http_reply) : bool :=
  match r with
  | Reply _ _ (Some (JObj members)) =>
      match lookup "objectIDs" members with
      | None => true
      | Some JNull => true
      | Some (JArr items) =>
          forallb (fun i => match i with JNum _ => true | _ => false end) items
      | Some _ => false
      end
  | _ => true
  end.

(** X16: take a configuration whose CSV header names every key of a
    record, and a network whose object IDs are integers.  A run of
    [download_iran_pottery] then ends in one of two ways, whatever else
    the network answers.  When the grouping found no object, it raises
    the [ValueError] of [min] and has written no file.  Otherwise it
    returns, and the JSON dump holds the records: no two of them share
    an object ID, every ID is one of the grouped objects, there are at
    most [max_images] of them when the cap is not negative, and the image
    each record points to is on disk. *)
Theorem download_iran_pottery_run (cfg : config) (w : world) :
  known_keys (metadata_fields cfg) = true ->
  forallb integer_ids (net w) = true ->
  exists g w1,
    group_phase cfg w = (Ok g, w1)
    /\ match g with
       | [] =>
           fst (download_iran_pottery cfg w)
           = Raise (ValueError "min() arg is an empty sequence")
           /\ files (snd (download_iran_pottery cfg w)) = files w
       | _ :: _ =>
           exists records,
             fst (download_iran_pottery cfg w) = Ok tt
             /\ get_file (json_path cfg) (files (snd (download_iran_pottery cfg w)))
                = Some (JsonDump records)
             /\ NoDup (map objectID records)
             /\ incl (map objectID records) (List.concat (map snd g))
             /\ ((0 <= max_images cfg)%Z ->
                 (Z.of_nat (len records) <= max_images cfg)%Z)
             /\ Forall (fun r => on_disk (local_path r)
                                   (files (snd (download_iran_pottery cfg w)))
                                 = true) records
       end.
Proof.
  intros Hkeys _.
  destruct (nr_group_phase cfg w) as (g & w1 & Eg).
  exists g, w1. split; [exact Eg|].
  pose proof (keeps_group_phase cfg w) as Hk. rewrite Eg in Hk. cbn [snd] in Hk.
  destruct g as [|grp g'].
  - assert (E : download_iran_pottery cfg w
                = (Raise (ValueError "min() arg is an empty sequence"), w1)).
    { unfold download_iran_pottery. unfold bind at 1. rewrite Eg. reflexivity. }
    rewrite E. split; [reflexivity | exact Hk].
  - set (g := grp :: g') in *.
    assert (Hne : no_empty_group g)
      by (apply (group_phase_no_empty cfg w); now rewrite Eg).
    assert (Hdis : NoDup (List.concat (map snd g)))
      by (apply (group_phase_distinct cfg w); now rewrite Eg).
    assert (Hg : has_nonempty_group g).
    { exists (fst grp), (snd grp). split; [left; now destruct grp|].
      now inversion Hne. }
    destruct (sample_run cfg g w1 Hg) as (sampled & w2 & Es & Hdr & Hcap & _).
    destruct (nr_complete (len sampled) sampled w2) as (order & w3 & Ec).
    pose proof (complete_perm (len sampled) sampled (le_n _) _ _ _ Ec) as Hperm.
    assert (Hnd : NoDup order).
    { eapply Permutation_NoDup; [symmetry; exact Hperm|].
      exact (drawn_from_NoDup _ _ Hdr Hdis). }
    destruct (download_all_run cfg (path_join (dataset_path cfg) (py "images"))
                order [] w3 Hnd (Forall_nil _))
      as (m & w4 & Ed & Hn & Hin & Hl & Hf).
    assert (E : download_iran_pottery cfg w = save_metadata cfg m w4).
    { unfold download_iran_pottery. unfold bind at 1. rewrite Eg.
      unfold bind at 1. rewrite Es.
      unfold bind at 1. unfold completion_order. rewrite Ec.
      unfold bind at 1. now rewrite Ed. }
    exists m. rewrite E.
    assert (Hrun : fst (save_metadata cfg m w4) = Ok tt
                   /\ get_file (json_path cfg)
                        (files (snd (save_metadata cfg m w4)))
                      = Some (JsonDump m)).
    { rewrite PipelineSpec.save_metadata_run. cbv zeta. rewrite Hkeys.
      fold (json_path cfg) (csv_path cfg).
      destruct m; cbn [fst snd files with_files];
        (split; [reflexivity|]); [apply get_file_put|].
      rewrite get_file_put_other by apply csv_json_apart. apply get_file_put. }
    split; [apply Hrun|]. split; [apply Hrun|].
    split; [exact Hn|].
    split.
    { intros x Hx. apply Hin in Hx. simpl in Hx.
      apply (drawn_from_incl _ _ Hdr).
      eapply Permutation_in; [exact Hperm | exact Hx]. }
    split.
    { intros H0. specialize (Hcap H0). simpl in Hl.
      apply Permutation_length in Hperm. fold (len order) in Hperm. lia. }
    eapply Forall_impl; [|exact Hf]. intros r Hr.
    now apply grows_save_metadata.
Qed.

(** X16 at the run of three Safavid objects under a cap of two. *)
Lemma download_iran_pottery_run_witness :
  exists g w1,
    group_phase (SamplerSpec.cap_of 2) PipelineSpec.three_safavid = (Ok g, w1)
    /\ match g with
       | [] =>
           fst (download_iran_pottery (SamplerSpec.cap_of 2)
                  PipelineSpec.three_safavid)
           = Raise (ValueError "min() arg is an empty sequence")
           /\ files (snd (download_iran_pottery (SamplerSpec.cap_of 2)
                            PipelineSpec.three_safavid))
              = files PipelineSpec.three_safavid
       | _ :: _ =>
           exists records,
             fst (download_iran_pottery (SamplerSpec.cap_of 2)
                    PipelineSpec.three_safavid) = Ok tt
             /\ get_file (json_path (SamplerSpec.cap_of 2))
                  (files (snd (download_iran_pottery (SamplerSpec.cap_of 2)
                                 PipelineSpec.three_safavid)))
                = Some (JsonDump records)
             /\ NoDup (map objectID records)
             /\ incl (map objectID records) (List.concat (map snd g))
             /\ ((0 <= max_images (SamplerSpec.cap_of 2))%Z ->
                 (Z.of_nat (len records) <= max_images (SamplerSpec.cap_of 2))%Z)
             /\ Forall (fun r => on_disk (local_path r)
                                   (files (snd (download_iran_pottery
                                                  (SamplerSpec.cap_of 2)
                                                  PipelineSpec.three_safavid)))
                                 = true) records
       end.
Proof.
  apply (download_iran_pottery_run (SamplerSpec.cap_of 2)
           PipelineSpec.three_safavid); reflexivity.
Defined.

End PipelineRun.

(* ================================================================= *)
(** * More on the sampler *)

Module SamplerMore.

Import SamplerFacts SamplerSpec.

Lemma Forall2_In_impl {A B} (R T : A -> B -> Prop) (la : list A) (lb : list B) :
  (forall a b, In a la -> R a b -> T a b) ->
  Forall2 R la lb -> Forall2 T la lb.
Proof.
  intros H F. induction F as [|a b la lb Hab F IH].
  - constructor.
  - constructor.
    + apply H; [now left | exact Hab].
    + apply IH. intros a' b' Hin. apply H. now right.
Qed.

(** What a group adds when the quota does not exceed it. *)
Definition even_share (target : Z) (grp : string * list Z) (sel : list Z) : Prop :=
  drawn_from sel (snd grp)
  /\ Z.of_nat (len sel) = if nonempty (snd grp) then target else 0%Z.

Lemma even_total (target : Z) (g : groups) (chosen : list (list Z)) :
  (0 <= target)%Z ->
  Forall2 (even_share target) g chosen ->
  (Z.of_nat (len (List.concat chosen)) <= target * Z.of_nat (len g))%Z.
Proof.
  intros H0 F. induction F as [|grp sel g chosen [_ Hs] F IH].
  - simpl. lia.
  - cbn [List.concat List.length]. rewrite length_app.
    destruct (nonempty (snd grp)); lia.
Qed.

(** X17: the quota never exceeds the smallest non-empty group, so the
    branch that takes a whole group only fires when the group has
    exactly the quota: every non-empty group adds exactly
    [target_per_group] IDs of its own, an empty one none.  When there are
    no more groups than [max_images], the final cut removes nothing. *)
Theorem sample_even (cfg : config) (g : groups) (w : world) :
  has_nonempty_group g ->
  exists target chosen w',
    target_per_group cfg g = Ok target
    /\ (1 <= target)%Z
    /\ (forall name ids, In (name, ids) g -> ids <> [] ->
          (target <= Z.of_nat (len ids))%Z)
    /\ Forall2 (even_share target) g chosen
    /\ sample cfg g w
       = (Ok (slice_to (List.concat chosen) (max_images cfg)), w')
    /\ ((Z.of_nat (len g) <= max_images cfg)%Z ->
        slice_to (List.concat chosen) (max_images cfg) = List.concat chosen).
Proof.
  intros Hg. destruct (target_spec cfg g Hg) as (m & [Hm Hleast] & Et).
  set (share := (max_images cfg / Z.of_nat (len g))%Z) in *.
  set (target := Z.max 1 (Z.min m share)) in *.
  assert (Hm1 : (1 <= m)%Z).
  { destruct Hm as (name & ids & _ & Hne & <-). destruct ids; [contradiction|].
    cbn [List.length]. lia. }
  assert (Ht1 : (1 <= target)%Z) by (subst target; lia).
  assert (Htm : (target <= m)%Z) by (subst target; lia).
  destruct (select_spec target g w Ht1) as (chosen & w' & Es & Hc & _).
  exists target, chosen, w'.
  split; [exact Et|]. split; [exact Ht1|].
  split.
  { intros name ids Hin Hne. specialize (Hleast name ids Hin Hne). lia. }
  assert (Heven : Forall2 (even_share target) g chosen).
  { eapply Forall2_In_impl; [|exact Hc].
    intros [name ids] sel Hin [(Hnil & Hall & Hpart) Hd].
    split; [exact Hd|]. cbn [snd] in *.
    destruct ids as [|i ids].
    - rewrite Hnil by reflexivity. reflexivity.
    - cbn [nonempty].
      assert (Hle : (m <= Z.of_nat (len (i :: ids)))%Z)
        by (apply (Hleast name); [exact Hin | discriminate]).
      destruct (Z_le_gt_dec (Z.of_nat (len (i :: ids))) target) as [Hs|Hs].
      + rewrite (Hall Hs). lia.
      + destruct Hpart as (Hl & _); [lia | exact Hl]. }
  split; [exact Heven|].
  split.
  { unfold sample. unfold bind at 1. rewrite Et. unfold lift.
    unfold bind. now rewrite Es. }
  intros Hcap.
  assert (Hn : (0 < Z.of_nat (len g))%Z).
  { destruct Hg as (name & ids & Hin & _). destruct g; [destruct Hin|].
    cbn [List.length]. lia. }
  assert (Hshare : (1 <= share)%Z).
  { subst share. apply Z.div_le_lower_bound; lia. }
  assert (Hts : (target <= share)%Z) by (subst target; lia).
  assert (Hmul : (share * Z.of_nat (len g) <= max_images cfg)%Z).
  { subst share. rewrite Z.mul_comm. apply Z.mul_div_le. exact Hn. }
  pose proof (even_total target g chosen ltac:(lia) Heven) as Htot.
  rewrite slice_to_firstn by lia. apply firstn_all2.
  apply Nat2Z.inj_le. rewrite Z2Nat.id by lia.
  fold (len (List.concat chosen)). nia.
Qed.

Lemma sample_even_witness :
  exists target chosen w',
    target_per_group CONFIG three_groups = Ok target
    /\ (1 <= target)%Z
    /\ (forall name ids, In (name, ids) three_groups -> ids <> [] ->
          (target <= Z.of_nat (len ids))%Z)
    /\ Forall2 (even_share target) three_groups chosen
    /\ sample CONFIG three_groups seeded
       = (Ok (slice_to (List.concat chosen) (max_images CONFIG)), w')
    /\ ((Z.of_nat (len three_groups) <= max_images CONFIG)%Z ->
        slice_to (List.concat chosen) (max_images CONFIG) = List.concat chosen).
Proof.
  apply (sample_even CONFIG three_groups seeded).
  exists "Parthian"%string, [324290; 325524]%Z.
  split; [right; left; reflexivity | discriminate].
Defined.

End SamplerMore.

(* ================================================================= *)
(** * Image paths *)

Module PathSpec.

Import TextFacts PathFacts.

(** X18: the image path ends in the decimal object ID and [.jpg], so two
    different objects never get the same path, whatever the image
    directory, the era and the sub-period of either: an image overwrites
    only an older image of the same object. *)
Theorem image_file_apart (d1 d2 : str) (e1 e2 : era) (p1 p2 : string)
    (id1 id2 : Z) :
  id1 <> id2 ->
  str_eqb (image_file d1 e1 p1 id1) (image_file d2 e2 p2 id2) = false.
Proof.
  intros Hne. destruct (str_eqb _ _) eqn:E; [|reflexivity].
  apply str_eqb_eq in E. unfold image_file in E.
  assert (Hn : forall i, str_of_Z i ++ py ".jpg" <> [])
    by (intros i H; apply app_eq_nil in H; destruct H as [_ H]; discriminate H).
  destruct (path_join_split (image_folder d1 e1 p1) _ (no_slash_name id1) (Hn id1))
    as (pre1 & E1 & Hp1).
  destruct (path_join_split (image_folder d2 e2 p2) _ (no_slash_name id2) (Hn id2))
    as (pre2 & E2 & Hp2).
  rewrite E1, E2 in E.
  apply same_name in E; [| apply no_slash_name | apply no_slash_name
                         | exact Hp1 | exact Hp2].
  apply app_inv_tail in E. apply str_of_Z_inj in E. contradiction.
Qed.

Lemma image_file_apart_witness :
  str_eqb (image_file ProcessorMore.images_dir islamic "Safavid" 452849)
          (image_file ProcessorMore.images_dir islamic "Safavid" 451725) = false.
Proof.
  apply (image_file_apart ProcessorMore.images_dir ProcessorMore.images_dir
           islamic islamic "Safavid" "Safavid" 452849 451725).
  discriminate.
Defined.

End PathSpec.

(* ================================================================= *)
(** * The traffic of the discovery *)

Module DiscoverySpec.

Import TextFacts FetcherFacts FetcherMore PipelineFacts.

(** The request of one search. *)
Definition search_request (q : string) (agent : str) : request :=
  {| rq_url := search_url;
     rq_params := [("q", q); ("hasImages", "true")]%string;
     rq_agent := agent;
     rq_timeout := 20 |}.

(** A value that can be a member of a set: not a list, not a dict. *)
Definition hashable (v : json) : bool :=
  match v with
  | JArr _ => false
  | JObj _ => false
  | _ => true
  end.

(** [all_ids.update(v or [])] runs to its end: [v] is falsy, or a string
    or a dict, or a list of hashable values. *)
Definition updatable (v : json) : bool :=
  match v with
  | JNull => true
  | JBool b => negb b
  | JNum n => (n =? 0)%Z
  | JStr _ => true
  | JArr items => forallb hashable items
  | JObj _ => true
  end.

(** A reply that takes a search to the end of its [try]: a status that
    is no error, a body that decodes to an object, and an [objectIDs]
    that [update] accepts. *)
Definition search_ok (r : http_reply) : bool :=
  match r with
  | Reply status _ (Some (JObj members)) =>
      status_ok status
      && updatable (match lookup "objectIDs" members with
                    | Some v => v
                    | None => JNull
                    end)
  | _ => false
  end.

(** The searches that succeed among those that get [replies]. *)
Definition count_ok (replies : list http_reply) : Z :=
  Z.of_nat (len (filter search_ok replies)).

Lemma added_ints_all (items : list json) :
  snd (added_ints items) = forallb hashable items.
Proof.
  induction items as [|i items IH]; [reflexivity|].
  destruct i; simpl; try exact IH; try reflexivity.
  destruct (added_ints items) as [l all]. exact IH.
Qed.

Lemma ids_to_add_complete (v : json) : snd (ids_to_add v) = updatable v.
Proof.
  unfold ids_to_add. destruct v as [|b|n|s|items|members]; simpl.
  - reflexivity.
  - destruct b; reflexivity.
  - destruct (n =? 0)%Z; reflexivity.
  - destruct s; reflexivity.
  - destruct items as [|i items]; [reflexivity|]. apply added_ints_all.
  - destruct members; reflexivity.
Qed.

Lemma search_url_sendable (w : world) : sendable w search_url = true.
Proof. reflexivity. Qed.

(** One turn of the discovery loop: one request, one reply taken, and a
    second of sleep when the search succeeded. *)
Lemma search_one_traffic (cfg : config) (all_ids : list Z) (q : string)
    (w : world) :
  user_agents cfg <> [] ->
  exists ids w' agent,
    search_one cfg all_ids q w = (Ok ids, w')
    /\ In agent (map py (user_agents cfg))
    /\ sent w' = sent w ++ [search_request q agent]
    /\ net w' = tl (net w)
    /\ slept w'
       = (slept w + (if search_ok (hd TransportError (net w)) then 1 else 0))%Z.
Proof.
  intros Hne.
  destruct (agent_drawn cfg w Hne) as (agent & w1 & Ea & Hin & _).
  destruct (agent_keeps cfg w w1 agent Ea) as (_ & Hsl & _ & _ & Hn & Hs).
  unfold search_one, try_except. unfold bind at 1. rewrite Ea.
  unfold bind at 1. unfold requests_get. rewrite search_url_sendable.
  fold (search_request q agent). rewrite Hn, Hs, Hsl.
  destruct (net w) as [|[|status content decoded] rest]; cbn [tl hd search_ok].
  1, 2: (eexists; eexists; exists agent; split; [reflexivity|];
         split; [exact Hin|]; cbn [sent net slept ret snd];
         repeat split; lia).
  unfold bind at 1. unfold raise_for_status.
  destruct (status_ok status); cbn [andb].
  2: { destruct decoded as [[]|]; eexists; eexists; exists agent;
       (split; [reflexivity|]); (split; [exact Hin|]);
       cbn [sent net slept]; repeat split; lia. }
  unfold ret at 1. unfold bind at 1. unfold json_of.
  destruct decoded as [data|].
  2: { eexists; eexists; exists agent; split; [reflexivity|].
       split; [exact Hin|]. cbn [sent net slept]. repeat split; lia. }
  unfold ret at 1. unfold bind at 1. unfold lift.
  destruct data as [|b|n|s|items|members]; cbn [py_get].
  1, 2, 3, 4, 5: (eexists; eexists; exists agent; split; [reflexivity|];
                  split; [exact Hin|]; cbn [sent net slept];
                  repeat split; lia).
  rewrite <- ids_to_add_complete.
  destruct (ids_to_add _) as [ids [|]]; cbn [snd].
  - eexists; eexists; exists agent; split; [reflexivity|].
    split; [exact Hin|]. cbn [sent net slept]. repeat split; lia.
  - eexists; eexists; exists agent; split; [reflexivity|].
    split; [exact Hin|]. cbn [sent net slept]. repeat split; lia.
Qed.

Lemma count_ok_step (replies : list http_reply) (n : nat) :
  count_ok (firstn (S n) replies)
  = ((if search_ok (hd TransportError replies) then 1 else 0)
     + count_ok (firstn n (tl replies)))%Z.
Proof.
  unfold count_ok. destruct replies as [|r replies].
  - cbn [tl hd search_ok]. rewrite !firstn_nil. reflexivity.
  - cbn [firstn hd tl filter]. destruct (search_ok r); cbn [List.length]; lia.
Qed.

(** X19: with an agent to draw, the discovery sends exactly one request
    per query, in the order of the queries, each to the search endpoint
    with the query and [hasImages=true], a 20 second timeout and an agent
    of the configuration, and it takes one reply per query.  It sleeps
    one second after each search that succeeds and not at all after one
    that fails: the seconds slept are the number of replies that take a
    search to its end. *)
Theorem discover_traffic (cfg : config) (queries : list string)
    (all_ids : list Z) (w : world) :
  user_agents cfg <> [] ->
  exists ids w' agents,
    discover cfg all_ids queries w = (Ok ids, w')
    /\ len agents = len queries
    /\ Forall (fun a => In a (map py (user_agents cfg))) agents
    /\ sent w' = sent w
                 ++ map (fun qa => search_request (fst qa) (snd qa))
                        (combine queries agents)
    /\ net w' = skipn (len queries) (net w)
    /\ slept w' = (slept w + count_ok (firstn (len queries) (net w)))%Z.
Proof.
  intros Hne. revert all_ids w.
  induction queries as [|q queries IH]; intros all_ids w.
  - exists all_ids, w, []. cbn. rewrite app_nil_r.
    repeat split; try constructor. unfold count_ok. simpl. lia.
  - destruct (search_one_traffic cfg all_ids q w Hne)
      as (ids1 & w1 & agent & E1 & Hin & Hs1 & Hn1 & Hsl1).
    destruct (IH ids1 w1) as (ids & w' & agents & E & Hl & Hall & Hs & Hn & Hsl).
    exists ids, w', (agent :: agents).
    split; [cbn [discover]; unfold bind; now rewrite E1|].
    split; [cbn [List.length]; now rewrite Hl|].
    split; [now constructor|].
    split; [rewrite Hs, Hs1, <- app_assoc; reflexivity|].
    split; [rewrite Hn, Hn1; apply skipn_tl|].
    cbn [List.length]. rewrite count_ok_step, Hsl, Hsl1, Hn1. lia.
Qed.

(** X19 at a network that answers the first search and is down after
    it: sixteen requests, one second slept. *)
Lemma discover_traffic_witness :
  exists ids w' agents,
    discover CONFIG [] search_queries PipelineSpec.two_ids_then_down
    = (Ok ids, w')
    /\ len agents = len search_queries
    /\ Forall (fun a => In a (map py (user_agents CONFIG))) agents
    /\ sent w' = sent PipelineSpec.two_ids_then_down
                 ++ map (fun qa => search_request (fst qa) (snd qa))
                        (combine search_queries agents)
    /\ net w' = skipn (len search_queries) (net PipelineSpec.two_ids_then_down)
    /\ slept w' = 1%Z.
Proof.
  apply (discover_traffic CONFIG search_queries [] PipelineSpec.two_ids_then_down).
  discriminate.
Defined.

End DiscoverySpec.
